(** * CRC engine of crc4-play-time: shallow embedding and verification

    The development embeds the CRC logic of
    [src/components/ProblemSolver.tsx] and [src/components/CRCEncoder.tsx]:
    the shift-register division loop, encoding, verification, bit-error
    injection, the undetectable error vector and the hex/binary helpers.

    JavaScript values are modelled as follows.
    - A string is a [string] of 8-bit code units; [toUpperCase] is exact on
      ASCII text.
    - A number that holds an integer is [Int z] (negative zero is [Int 0]);
      the other values the code can produce are [NaN] and the infinities.
      Integers too large for a double are rounded the way IEEE-754 binary64
      rounds them ([to_double]).
    - The operands of [<<], [|], [&] and [^] are 32-bit signed integers: the
      wrap-around [wrap32] is written out at every operator.
    - A string has at most [max_string_length] code units: [repeat] raises
      [RangeError] rather than build a longer one. *)

From Stdlib Require Import ZArith List String Ascii Bool Lia.
Import ListNotations.

Local Open Scope string_scope.
Local Open Scope Z_scope.

(** ** JavaScript built-ins used by the two components *)

Module JS.

Inductive number : Type :=
| Int (z : Z)
| NaN
| Infinity (negative : bool).

(** Exceptions the modelled code can raise: the [RangeError] of
    [String.prototype.repeat] and the [TypeError] of a property read on
    [undefined]. *)
Inductive exn : Type := RangeError | TypeError.

(** Outcome of a call that may raise. *)
Inductive completion (A : Type) : Type :=
| Normal (a : A)
| Throw (e : exn).
Arguments Normal {A} a.
Arguments Throw {A} e.

Definition bind {A B : Type} (c : completion A) (k : A -> completion B)
  : completion B :=
  match c with
  | Normal a => k a
  | Throw e => Throw e
  end.

(** Nearest binary64 value of an integer (ties to even); integers below
    2^53 in magnitude are exact, and 2^1024 and above overflow. *)
Definition round53 (n : Z) : Z :=
  if n <? 2 ^ 53 then n
  else
    let e := Z.log2 n - 52 in
    let q := n / 2 ^ e in
    let r := n mod 2 ^ e in
    let half := 2 ^ (e - 1) in
    if (half <? r) || ((r =? half) && Z.odd q)
    then (q + 1) * 2 ^ e
    else q * 2 ^ e.

Definition to_double (z : Z) : number :=
  let m := round53 (Z.abs z) in
  if 2 ^ 1024 <=? m then Infinity (z <? 0)
  else Int (Z.sgn z * m).

(** ToInt32: the signed 32-bit value of the low 32 bits. *)
Definition wrap32 (z : Z) : Z := (z + 2 ^ 31) mod 2 ^ 32 - 2 ^ 31.

Definition ToInt32 (n : number) : Z :=
  match n with
  | Int z => wrap32 z
  | NaN | Infinity _ => 0
  end.

(** [a << b], [a | b], [a & b], [a ^ b] on integer-valued operands. *)
Definition shl32 (a b : Z) : Z := wrap32 (Z.shiftl (wrap32 a) (b mod 32)).
Definition or32 (a b : Z) : Z := Z.lor (wrap32 a) (wrap32 b).
Definition and32 (a b : Z) : Z := Z.land (wrap32 a) (wrap32 b).
Definition xor32 (a b : Z) : Z := Z.lxor (wrap32 a) (wrap32 b).

(** Truthiness of an integer-valued number in a condition. *)
Definition truthy (z : Z) : bool := negb (z =? 0).

(** *** Digits *)

Definition digit_value (c : ascii) : option Z :=
  let n := Z.of_nat (nat_of_ascii c) in
  if (48 <=? n) && (n <=? 57) then Some (n - 48)
  else if (97 <=? n) && (n <=? 122) then Some (n - 97 + 10)
  else if (65 <=? n) && (n <=? 90) then Some (n - 65 + 10)
  else None.

(** Value of [c] as a digit of the given radix, if it is one. *)
Definition radix_digit (radix : Z) (c : ascii) : option Z :=
  match digit_value c with
  | Some d => if d <? radix then Some d else None
  | None => None
  end.

Definition digit_char (d : Z) : ascii :=
  if d <? 10 then ascii_of_nat (Z.to_nat (d + 48))
  else ascii_of_nat (Z.to_nat (d - 10 + 97)).

(** *** parseInt *)

Definition is_whitespace (c : ascii) : bool :=
  let n := nat_of_ascii c in
  (Nat.eqb n 9 || Nat.eqb n 10 || Nat.eqb n 11 || Nat.eqb n 12
   || Nat.eqb n 13 || Nat.eqb n 32 || Nat.eqb n 160)%bool.

Fixpoint skip_whitespace (s : string) : string :=
  match s with
  | String c rest => if is_whitespace c then skip_whitespace rest else s
  | EmptyString => s
  end.

(** Longest prefix of radix digits, accumulated left to right; the flag
    tells whether at least one digit was read. *)
Fixpoint parse_digits (radix : Z) (s : string) (seen : bool) (acc : Z)
  : bool * Z :=
  match s with
  | String c rest =>
      match radix_digit radix c with
      | Some d => parse_digits radix rest true (acc * radix + d)
      | None => (seen, acc)
      end
  | EmptyString => (seen, acc)
  end.

Definition strip_sign (s : string) : Z * string :=
  match s with
  | String "-" rest => (-1, rest)
  | String "+" rest => (1, rest)
  | _ => (1, s)
  end.

Definition strip_hex_prefix (s : string) : option string :=
  match s with
  | String "0" (String "x" rest) => Some rest
  | String "0" (String "X" rest) => Some rest
  | _ => None
  end.

(** [parseInt(s, radix)]; radix [0] stands for an omitted radix. *)
Definition parseInt (s : string) (radix : Z) : number :=
  let '(sign, s1) := strip_sign (skip_whitespace s) in
  let r := wrap32 radix in
  if negb (r =? 0) && ((r <? 2) || (36 <? r)) then NaN
  else
    let strip := (r =? 0) || (r =? 16) in
    let r0 := if r =? 0 then 10 else r in
    let '(r1, s2) :=
      match (if strip then strip_hex_prefix s1 else None) with
      | Some rest => (16, rest)
      | None => (r0, s1)
      end in
    match parse_digits r1 s2 false 0 with
    | (true, v) => to_double (sign * v)
    | (false, _) => NaN
    end.

Definition isNaN (n : number) : bool :=
  match n with NaN => true | _ => false end.

(** *** Number.prototype.toString(radix)

    Exact for the radices the components use, 2 and 16; for radix 10 it is
    the plain decimal numeral, which JavaScript prints below 1e21. *)

Fixpoint digits_of (fuel : nat) (radix z : Z) : string :=
  match fuel with
  | O => ""
  | S f =>
      if z <? radix then String (digit_char z) ""
      else digits_of f radix (z / radix) ++ String (digit_char (z mod radix)) ""
  end.

Definition nat_digits (radix z : Z) : string :=
  digits_of (S (Z.to_nat (Z.log2 z))) radix z.

Definition toString (n : number) (radix : Z) : string :=
  match n with
  | Int z => if z <? 0 then "-" ++ nat_digits radix (- z) else nat_digits radix z
  | NaN => "NaN"
  | Infinity false => "Infinity"
  | Infinity true => "-Infinity"
  end.

(** *** String methods *)

Fixpoint replicate (n : nat) (s : string) : string :=
  match n with
  | O => ""
  | S k => s ++ replicate k s
  end.

(** Longest string the engine builds.  ECMAScript leaves the limit to the
    implementation; this is V8's on 64-bit targets, the engine of Node and
    Chrome. *)
Definition max_string_length : Z := 2 ^ 29 - 24.

(** [s.repeat(count)]: a negative count raises [RangeError], and so does a
    result longer than the engine allows ("Invalid string length"). *)
Definition repeat (s : string) (count : Z) : completion string :=
  if (count <? 0) || (max_string_length <? Z.of_nat (String.length s) * count)
  then Throw RangeError
  else Normal (replicate (Z.to_nat count) s).

(** First [n] code units of [fill] repeated for ever ([cur] is what is left
    of the current copy). *)
Fixpoint fill_prefix (n : nat) (fill cur : string) : string :=
  match n with
  | O => ""
  | S k =>
      match cur with
      | String c rest => String c (fill_prefix k fill rest)
      | EmptyString =>
          match fill with
          | String c rest => String c (fill_prefix k fill rest)
          | EmptyString => ""
          end
      end
  end.

(** [s.padStart(maxLength, fill)].  The division functions call it with the
    width that [repeat] receives as well, so a width too large for a string
    raises there. *)
Definition padStart (s : string) (maxLength : Z) (fill : string) : string :=
  let len := Z.of_nat (String.length s) in
  if (maxLength <=? len) || (fill =? "")%string then s
  else fill_prefix (Z.to_nat (maxLength - len)) fill fill ++ s.

Definition upper_char (c : ascii) : ascii :=
  let n := nat_of_ascii c in
  if (Nat.leb 97 n && Nat.leb n 122)%bool then ascii_of_nat (n - 32) else c.

Fixpoint toUpperCase (s : string) : string :=
  match s with
  | String c rest => String (upper_char c) (toUpperCase rest)
  | EmptyString => ""
  end.

(** Relative index of [slice]: negative counts from the end, then clamp. *)
Definition clamp_index (len i : Z) : nat :=
  Z.to_nat (if i <? 0 then Z.max (len + i) 0 else Z.min i len).

(** [s.slice(from, to)]. *)
Definition slice (s : string) (from to : Z) : string :=
  let len := Z.of_nat (String.length s) in
  let a := clamp_index len from in
  let b := clamp_index len to in
  substring a (b - a) s.

(** [s.slice(from)]. *)
Definition slice_from (s : string) (from : Z) : string :=
  slice s from (Z.of_nat (String.length s)).

Fixpoint trim_end (s : string) : string :=
  match s with
  | String c rest =>
      let rest' := trim_end rest in
      if (rest' =? "")%string && is_whitespace c then "" else String c rest'
  | EmptyString => ""
  end.

(** [s.trim()]. *)
Definition trim (s : string) : string := trim_end (skip_whitespace s).

(** [a >= b] and [a < b] on numbers: every comparison with [NaN] is false. *)
Definition num_le (a b : number) : bool :=
  match a, b with
  | Int x, Int y => x <=? y
  | Int _, Infinity neg => negb neg
  | Infinity neg, Int _ => neg
  | Infinity n1, Infinity n2 => n1 || negb n2
  | _, _ => false
  end.

Definition num_lt (a b : number) : bool :=
  match a, b with
  | Int x, Int y => x <? y
  | Int _, Infinity neg => negb neg
  | Infinity neg, Int _ => neg
  | Infinity n1, Infinity n2 => n1 && negb n2
  | _, _ => false
  end.

Definition num_ge (a b : number) : bool := num_le b a.

(** [s.split(",")]. *)
Fixpoint split_comma (s : string) (cur : string) : list string :=
  match s with
  | String c rest =>
      if Ascii.eqb c "," then cur :: split_comma rest ""
      else split_comma rest (cur ++ String c "")
  | EmptyString => [cur]
  end.

(** Regular expressions of the form [/^[class]+$/]. *)
Fixpoint all_chars (p : ascii -> bool) (s : string) : bool :=
  match s with
  | String c rest => p c && all_chars p rest
  | EmptyString => true
  end.

Definition test_plus (p : ascii -> bool) (s : string) : bool :=
  negb (s =? "")%string && all_chars p s.

Definition is_bit (c : ascii) : bool :=
  (Ascii.eqb c "0" || Ascii.eqb c "1")%bool.

Definition is_hex_digit (c : ascii) : bool :=
  match radix_digit 16 c with Some _ => true | None => false end.

(** [s.replace(/[^class]/g, "")]: the characters of the class, in order. *)
Fixpoint keep_chars (p : ascii -> bool) (s : string) : string :=
  match s with
  | String c rest =>
      if p c then String c (keep_chars p rest) else keep_chars p rest
  | EmptyString => ""
  end.

End JS.

Import JS.

(** ** src/components/ProblemSolver.tsx *)

Module ProblemSolver.

Record CRCPolynomial : Type := {
  name : string;
  polynomial : Z;
  width : Z;
  binaryStr : string;
  formula : string
}.

(** The registry, in the order of the object literal; [formula] is display
    text only. *)
Definition CRC_POLYNOMIALS : list (string * CRCPolynomial) :=
  [ ("CRC-4",
     {| name := "CRC-4"; polynomial := 0x13 (* 0b10011 *); width := 4;
        binaryStr := "10011"; formula := "z⁴ + z + 1" |});
    ("CRC-5-ITU",
     {| name := "CRC-5-ITU"; polynomial := 0x25 (* 0b100101 *); width := 5;
        binaryStr := "100101"; formula := "z⁵ + z² + 1" |});
    ("CRC-7",
     {| name := "CRC-7"; polynomial := 0x89 (* 0b10001001 *); width := 7;
        binaryStr := "10001001"; formula := "z⁷ + z³ + 1" |});
    ("CRC-8",
     {| name := "CRC-8"; polynomial := 0x107 (* 0b100000111 *); width := 8;
        binaryStr := "100000111"; formula := "z⁸ + z² + z + 1" |}) ].

(** [CRC_POLYNOMIALS[key]]. *)
Fixpoint lookup (key : string) (table : list (string * CRCPolynomial))
  : option CRCPolynomial :=
  match table with
  | (k, v) :: rest => if (k =? key)%string then Some v else lookup key rest
  | [] => None
  end.

Definition hexToBinary (hex : string) : string :=
  padStart (toString (parseInt hex 16) 2)
           (Z.of_nat (String.length hex) * 4) "0".

Definition binaryToHex (binary : string) : string :=
  toUpperCase (toString (parseInt binary 2) 16).

(** One iteration of the division loop on the code unit [c = bits[i]]. *)
Definition crc_step (polynomial width : Z) (register : Z) (c : ascii) : Z :=
  let bit := parseInt (String c "") 0 in
  let register := or32 (shl32 register 1) (ToInt32 bit) in
  if truthy (and32 register (shl32 1 width))
  then xor32 register polynomial
  else register.

(** The [for] loop over [bits], from the given register value. *)
Fixpoint crc_loop (polynomial width : Z) (bits : string) (register : Z) : Z :=
  match bits with
  | String c rest =>
      crc_loop polynomial width rest (crc_step polynomial width register c)
  | EmptyString => register
  end.

(** [(register & ((1 << width) - 1)).toString(2).padStart(width, "0")]. *)
Definition remainder_string (width register : Z) : string :=
  padStart (toString (Int (and32 register (shl32 1 width - 1))) 2) width "0".

Definition calculateCRC (data : string) (polynomial width : Z)
  : completion string :=
  bind (repeat "0" width) (fun zeros =>
  let bits := data ++ zeros in
  let register := crc_loop polynomial width bits 0 in
  Normal (remainder_string width register)).

Record Verification : Type := {
  isValid : bool;
  remainder : string
}.

Definition verifyCRC (dataWithCRC : string) (polynomial width : Z)
  : completion Verification :=
  let register := crc_loop polynomial width dataWithCRC 0 in
  let remainder := remainder_string width register in
  bind (repeat "0" width) (fun zeros =>
  Normal {| isValid := (remainder =? zeros)%string; remainder := remainder |}).

Inductive InputFormat : Type := binary | hex.

(** What a handler leaves behind: an error toast and no state change, or the
    new values of the state variables it sets. *)
Inductive EncodeOutcome : Type :=
| EncodeRejected (toast : string)
| Encoded (crcBits encodedResult : string).

(** [CRC_POLYNOMIALS[selectedCRC]] followed by a property read. *)
Definition config_of (selectedCRC : string) : completion CRCPolynomial :=
  match lookup selectedCRC CRC_POLYNOMIALS with
  | Some cfg => Normal cfg
  | None => Throw TypeError
  end.

Definition handleEncode (selectedCRC : string) (inputFormat : InputFormat)
    (hexInput binaryInput : string) : completion EncodeOutcome :=
  let checked :=
    match inputFormat with
    | hex =>
        if negb (test_plus is_hex_digit hexInput)
        then inl "Invalid hex input"
        else inr (hexToBinary hexInput)
    | binary =>
        if negb (test_plus is_bit binaryInput)
        then inl "Invalid binary input"
        else inr binaryInput
    end in
  match checked with
  | inl toast => Normal (EncodeRejected toast)
  | inr binaryData =>
      bind (config_of selectedCRC) (fun crcConfig =>
      bind (calculateCRC binaryData (polynomial crcConfig) (width crcConfig))
        (fun crc =>
      let encoded := binaryData ++ crc in
      Normal (Encoded crc encoded)))
  end.

(** [errorPositions.split(",").map(p => parseInt(p.trim()))
      .filter(p => !isNaN(p))]. *)
Definition parse_positions (errorPositions : string) : list number :=
  filter (fun p => negb (isNaN p))
         (map (fun p => parseInt (trim p) 0) (split_comma errorPositions "")).

(** [a[i] = x] for an index inside the array. *)
Fixpoint set_nth (i : nat) (x : ascii) (a : list ascii) : list ascii :=
  match a, i with
  | [], _ => []
  | _ :: rest, O => x :: rest
  | y :: rest, S k => y :: set_nth k x rest
  end.

(** Body of the [forEach] callback. *)
Definition flip_at (corruptedBits : list ascii) (pos : number) : list ascii :=
  if num_ge pos (Int 0)
     && num_lt pos (Int (Z.of_nat (List.length corruptedBits)))
  then
    match pos with
    | Int p =>
        let i := Z.to_nat p in
        set_nth i (if Ascii.eqb (nth i corruptedBits "0"%char) "0"
                   then "1"%char else "0"%char)
                corruptedBits
    | _ => corruptedBits
    end
  else corruptedBits.

(** The flipping step: [split("")], the [forEach] and [join("")]. *)
Definition flipBits (encodedResult : string) (positions : list number)
  : string :=
  let corruptedBits := list_ascii_of_string encodedResult in
  string_of_list_ascii (fold_left flip_at positions corruptedBits).

Inductive InjectOutcome : Type :=
| InjectRejected (toast : string)
| Injected (corruptedData verificationResult : string).

Definition handleInjectError (selectedCRC encodedResult errorPositions : string)
  : completion InjectOutcome :=
  if (encodedResult =? "")%string
  then Normal (InjectRejected "Please encode data first")
  else
    let positions := parse_positions errorPositions in
    if (List.length positions =? 0)%nat
    then Normal (InjectRejected
                   "Please enter valid bit positions (e.g., 2,3,4)")
    else
      let corrupted := flipBits encodedResult positions in
      bind (config_of selectedCRC) (fun crcConfig =>
      bind (verifyCRC corrupted (polynomial crcConfig) (width crcConfig))
        (fun v =>
      Normal (Injected corrupted
                ("Remainder: " ++ remainder v ++ " ("
                 ++ binaryToHex (remainder v) ++ "h) - "
                 ++ (if isValid v then "Valid" else "Error detected!")))))
  .

Record ErrorVector : Type := {
  errorVector : string;
  undetectableError : bool
}.

Definition handleGenerateErrorVector (selectedCRC : string)
  : completion ErrorVector :=
  bind (config_of selectedCRC) (fun crcConfig =>
  let polynomial := polynomial crcConfig in
  let width := width crcConfig in
  bind (repeat "0" 3) (fun zeros =>
  let errorBits := padStart (toString (Int polynomial) 2) (width + 1) "0"
                   ++ zeros in
  bind (verifyCRC errorBits polynomial width) (fun v =>
  Normal {| errorVector := errorBits; undetectableError := isValid v |}))).

(** The [onChange] handlers of the text fields: the value stored in
    [hexInput], and in [binaryInput] and [receivedData]. *)
Definition onChangeHexInput (value : string) : string := toUpperCase value.

Definition onChangeBinaryInput (value : string) : string :=
  keep_chars is_bit value.

Definition onChangeReceivedData (value : string) : string :=
  keep_chars is_bit value.

End ProblemSolver.

(** ** src/components/CRCEncoder.tsx *)

Module CRCEncoder.

(** CRC-4 polynomial: G(z) = z^4 + z + 1 (binary: 10011). *)
Definition POLYNOMIAL : Z := 0x13.
Definition CRC_WIDTH : Z := 4.

Record EncodingStep : Type := {
  step : Z;
  data : string;
  register : string;
  operation : string
}.

(** The [for] loop from index [i], [rest] being [bits] from [i] on; the
    steps are accumulated in reverse. *)
Fixpoint crc_loop (bits rest : string) (i : nat) (register : Z)
    (calculationSteps : list EncodingStep) : Z * list EncodingStep :=
  match rest with
  | String c rest' =>
      let bit := parseInt (String c "") 0 in
      let register := or32 (shl32 register 1) (ToInt32 bit) in
      let registerBinary := padStart (toString (Int register) 2) 5 "0" in
      let calculationSteps :=
        {| step := Z.of_nat i + 1;
           data := substring 0 (i + 1) bits;
           register := registerBinary;
           operation := if truthy (and32 register 0x10)
                        then "XOR with polynomial" else "Shift left" |}
        :: calculationSteps in
      let register :=
        if truthy (and32 register 0x10) then xor32 register POLYNOMIAL
        else register in
      crc_loop bits rest' (S i) register calculationSteps
  | EmptyString => (register, calculationSteps)
  end.

Definition calculateCRC (data : string) : string * list EncodingStep :=
  let bits := data ++ "0000" in
  let '(register, calculationSteps) := crc_loop bits bits 0 0 [] in
  let crc := padStart (toString (Int (and32 register 0xF)) 2) CRC_WIDTH "0" in
  (crc, rev calculationSteps).

(** State set by [handleEncode]; [None] when it returns early. *)
Definition handleEncode (inputData : string)
  : option (string * string * list EncodingStep) :=
  if negb (test_plus is_bit inputData) then None
  else
    let '(crc, calculationSteps) := calculateCRC inputData in
    Some (crc, inputData ++ crc, calculationSteps).

(** Value given to [setIsValid]; [None] when the handler returns early. *)
Definition handleVerify (testData : string) : option bool :=
  if negb (test_plus is_bit testData)
     || (Z.of_nat (String.length testData) <? CRC_WIDTH)
  then None
  else
    let dataWithoutCRC := slice testData 0 (- CRC_WIDTH) in
    let receivedCRC := slice_from testData (- CRC_WIDTH) in
    let '(calculatedCRC, _) := calculateCRC dataWithoutCRC in
    Some (receivedCRC =? calculatedCRC)%string.

(** The state hooks of the component; [isValid] is [null] or a boolean. *)
Record State : Type := {
  inputData : string;
  encodedData : string;
  crcBits : string;
  steps : list EncodingStep;
  testData : string;
  isValid : option bool
}.

(** The [useState] defaults, which [handleReset] restores. *)
Definition initial : State :=
  {| inputData := "1010"; encodedData := ""; crcBits := ""; steps := [];
     testData := ""; isValid := None |}.

(** What the user can do: type in one of the two fields, or press one of
    the three buttons. *)
Inductive Event : Type :=
| ChangeInputData (value : string)
| ChangeTestData (value : string)
| ClickEncode
| ClickVerify
| ClickReset.

Definition handle (st : State) (e : Event) : State :=
  match e with
  | ChangeInputData value =>
      {| inputData := keep_chars is_bit value;
         encodedData := encodedData st; crcBits := crcBits st;
         steps := steps st; testData := testData st;
         isValid := isValid st |}
  | ChangeTestData value =>
      {| inputData := inputData st;
         encodedData := encodedData st; crcBits := crcBits st;
         steps := steps st; testData := keep_chars is_bit value;
         isValid := isValid st |}
  | ClickEncode =>
      match handleEncode (inputData st) with
      | Some (crc, encoded, calculationSteps) =>
          {| inputData := inputData st;
             encodedData := encoded; crcBits := crc;
             steps := calculationSteps; testData := testData st;
             isValid := None |}
      | None => st
      end
  | ClickVerify =>
      match handleVerify (testData st) with
      | Some valid =>
          {| inputData := inputData st;
             encodedData := encodedData st; crcBits := crcBits st;
             steps := steps st; testData := testData st;
             isValid := Some valid |}
      | None => st
      end
  | ClickReset => initial
  end.

(** The state after a sequence of events, from the initial state. *)
Definition run (events : list Event) : State := fold_left handle events initial.

End CRCEncoder.

(** ** The division algorithm of the design document

    "Maintain a register initialised to 0.  For each bit, left-shift the
    register by one and OR in the incoming bit; if the bit at position
    [width] is set, XOR the register with [polynomial].  After consuming all
    input bits, the remainder is the register masked to its low [width]
    bits, left-padded with zeros to exactly [width] characters."  The
    register is an unbounded integer here. *)

Module Reference.

Definition bit_of (c : ascii) : Z := if Ascii.eqb c "1" then 1 else 0.

Definition shift_in (polynomial width register bit : Z) : Z :=
  let register := Z.lor (Z.shiftl register 1) bit in
  if Z.testbit register width then Z.lxor register polynomial else register.

Fixpoint consume (polynomial width : Z) (bits : string) (register : Z) : Z :=
  match bits with
  | String c rest =>
      consume polynomial width rest
              (shift_in polynomial width register (bit_of c))
  | EmptyString => register
  end.

(** The [n] low bits of [z], most significant first. *)
Fixpoint low_bits (n : nat) (z : Z) : string :=
  match n with
  | O => ""
  | S k =>
      String (if Z.testbit z (Z.of_nat k) then "1" else "0")%char
             (low_bits k z)
  end.

Definition divide (bits : string) (polynomial width : Z) : string :=
  low_bits (Z.to_nat width)
           (Z.land (consume polynomial width bits 0) (Z.ones width)).

End Reference.

(** ** Notions used in the statements *)

(** The [n] low digits of [z] in the given radix, most significant first. *)
Fixpoint fixed_digits (radix : Z) (n : nat) (z : Z) : string :=
  match n with
  | O => ""
  | S k =>
      String (digit_char (z / radix ^ Z.of_nat k mod radix))
             (fixed_digits radix k z)
  end.

(** The digit a character stands for, written back in lower case. *)
Definition canonical_digit (c : ascii) : ascii :=
  match digit_value c with
  | Some d => digit_char d
  | None => c
  end.

Fixpoint canonical (s : string) : string :=
  match s with
  | String c rest => String (canonical_digit c) (canonical rest)
  | EmptyString => ""
  end.

Definition is_radix_digit (radix : Z) (c : ascii) : bool :=
  match radix_digit radix c with Some _ => true | None => false end.

(** The number a string of digits denotes. *)
Definition numeral_value (radix : Z) (s : string) : Z :=
  snd (parse_digits radix s false 0).

(** A numeral of two or more digits does not start with ['0']. *)
Definition no_leading_zero (s : string) : bool :=
  match s with
  | String c (String _ _) => negb (Ascii.eqb c "0")
  | _ => true
  end.

(** A numeral without its leading zero digits; the last digit stays. *)
Fixpoint strip_leading_zeros (s : string) : string :=
  match s with
  | String c (String _ _ as rest) =>
      if Ascii.eqb c "0" then strip_leading_zeros rest else s
  | _ => s
  end.

(** A bit as a number. *)
Definition is_bit_value (b : Z) : Prop := b = 0 \/ b = 1.

(** The guard of the [forEach] callback. *)
Definition in_range (len : nat) (pos : number) : bool :=
  num_ge pos (Int 0) && num_lt pos (Int (Z.of_nat len)).

(** [c === "0" ? "1" : "0"]. *)
Definition flip_char (c : ascii) : ascii :=
  if Ascii.eqb c "0" then "1"%char else "0"%char.

(** What the table of calculation steps shows in row [k] for the input
    [bits]. *)
Definition step_shape (bits : string) (k : nat) (s : CRCEncoder.EncodingStep)
  : Prop :=
  CRCEncoder.step s = Z.of_nat k + 1
  /\ CRCEncoder.data s = substring 0 (k + 1) bits
  /\ String.length (CRCEncoder.register s) = 5%nat
  /\ all_chars is_bit (CRCEncoder.register s) = true
  /\ CRCEncoder.operation s
     = if String.prefix "1" (CRCEncoder.register s)
       then "XOR with polynomial" else "Shift left".

(** What holds of the state of the CRC-4 component at any time: both text
    fields hold bit strings, and either nothing was encoded yet or the
    encoded text is some non-empty data followed by the four check bits,
    passes verification, and has one calculation step per bit. *)
Definition component_invariant (st : CRCEncoder.State) : Prop :=
  all_chars is_bit (CRCEncoder.inputData st) = true
  /\ all_chars is_bit (CRCEncoder.testData st) = true
  /\ ((CRCEncoder.encodedData st = "" /\ CRCEncoder.crcBits st = ""
       /\ CRCEncoder.steps st = [])
      \/ (String.length (CRCEncoder.crcBits st) = 4%nat
          /\ (exists d : string,
                test_plus is_bit d = true
                /\ CRCEncoder.encodedData st = d ++ CRCEncoder.crcBits st)
          /\ CRCEncoder.handleVerify (CRCEncoder.encodedData st) = Some true
          /\ List.length (CRCEncoder.steps st)
             = String.length (CRCEncoder.encodedData st))).

(** The data bits [handleEncode] works on, once the text is accepted. *)
Definition accepted_data (inputFormat : ProblemSolver.InputFormat)
    (hexInput binaryInput : string) : string :=
  match inputFormat with
  | ProblemSolver.hex => ProblemSolver.hexToBinary hexInput
  | ProblemSolver.binary => binaryInput
  end.

(** The texts [handleEncode] accepts without loss: a non-empty bit string,
    or a non-empty hexadecimal numeral below 2^53. *)
Definition accepted_exactly (inputFormat : ProblemSolver.InputFormat)
    (hexInput binaryInput : string) : Prop :=
  match inputFormat with
  | ProblemSolver.hex =>
      test_plus is_hex_digit hexInput = true
      /\ numeral_value 16 hexInput < 2 ^ 53
  | ProblemSolver.binary => test_plus is_bit binaryInput = true
  end.

(** [items.join(",")]: how a list of positions is written in the
    position field. *)
Fixpoint join_commas (items : list string) : string :=
  match items with
  | [] => ""
  | [x] => x
  | x :: rest => x ++ "," ++ join_commas rest
  end.

(** The error pattern of a position list on [n] bits: what the flipping
    step makes of the all-zero word. *)
Definition error_pattern (n : nat) (positions : list number) : string :=
  ProblemSolver.flipBits (replicate n "0") positions.

(** How the division loop reads a text: a character that is not a decimal
    digit counts as the bit 0. *)
Fixpoint non_digits_as_zero (s : string) : string :=
  match s with
  | String c rest =>
      String (if is_radix_digit 10 c then c else "0"%char)
             (non_digits_as_zero rest)
  | EmptyString => ""
  end.

(** ** The model on concrete inputs *)

Section Runs.

Import ProblemSolver.

Example parseInt_decimal : parseInt " 12px" 0 = Int 12.
Proof. vm_compute. reflexivity. Qed.

Example parseInt_prefix : parseInt "0x1F" 0 = Int 31.
Proof. vm_compute. reflexivity. Qed.

Example parseInt_letter : parseInt "a" 0 = NaN.
Proof. vm_compute. reflexivity. Qed.

Example parseInt_negative : parseInt "-7" 0 = Int (-7).
Proof. vm_compute. reflexivity. Qed.

Example toString_binary : toString (Int 0x13) 2 = "10011".
Proof. vm_compute. reflexivity. Qed.

Example padStart_short : padStart "101" 5 "0" = "00101".
Proof. vm_compute. reflexivity. Qed.

Example padStart_long : padStart "10011" 4 "0" = "10011".
Proof. vm_compute. reflexivity. Qed.

Example slice_front : slice "10101101" 0 (-4) = "1010".
Proof. vm_compute. reflexivity. Qed.

Example slice_back : slice_from "10101101" (-4) = "1101".
Proof. vm_compute. reflexivity. Qed.

Example shl32_wraps : shl32 1 32 = 1 /\ shl32 1 31 = - 2 ^ 31.
Proof. split; vm_compute; reflexivity. Qed.

Example hexToBinary_B1D : hexToBinary "B1D" = "101100011101".
Proof. vm_compute. reflexivity. Qed.

Example binaryToHex_B1D : binaryToHex "101100011101" = "B1D".
Proof. vm_compute. reflexivity. Qed.

Example encode_B1D :
  handleEncode "CRC-8" hex "B1D" ""
  = Normal (Encoded "11000100" "10110001110111000100").
Proof. vm_compute. reflexivity. Qed.

Example parse_positions_text :
  parse_positions " 2 , 3,x,,99" = [Int 2; Int 3; Int 99].
Proof. vm_compute. reflexivity. Qed.

Example inject_two_bits :
  handleInjectError "CRC-4" "10101101" " 2 , 3,x,,99"
  = Normal (Injected "10011101" "Remainder: 0101 (5h) - Error detected!").
Proof. vm_compute. reflexivity. Qed.

Example inject_same_position_twice :
  handleInjectError "CRC-4" "10101101" "2,2"
  = Normal (Injected "10101101" "Remainder: 0000 (0h) - Valid").
Proof. vm_compute. reflexivity. Qed.

Example inject_without_positions :
  handleInjectError "CRC-4" "10101101" "x"
  = Normal (InjectRejected "Please enter valid bit positions (e.g., 2,3,4)").
Proof. vm_compute. reflexivity. Qed.

Example verify_corrupted : CRCEncoder.handleVerify "10101100" = Some false.
Proof. vm_compute. reflexivity. Qed.

Example verify_too_short : CRCEncoder.handleVerify "101" = None.
Proof. vm_compute. reflexivity. Qed.

End Runs.

(** ** Strings *)

Section Strings.

Lemma append_nil_r (s : string) : s ++ "" = s.
Proof. induction s as [|c s IH]; simpl; [reflexivity | now rewrite IH]. Qed.

Lemma append_assoc (a b c : string) : (a ++ b) ++ c = a ++ (b ++ c).
Proof. induction a as [|x a IH]; simpl; [reflexivity | now rewrite IH]. Qed.

Lemma length_append (a b : string) :
  String.length (a ++ b) = (String.length a + String.length b)%nat.
Proof. induction a as [|x a IH]; simpl; [reflexivity | now rewrite IH]. Qed.

Lemma length_replicate1 (n : nat) (c : ascii) :
  String.length (replicate n (String c "")) = n.
Proof. induction n as [|n IH]; simpl; [reflexivity | now rewrite IH]. Qed.

Lemma all_chars_append (p : ascii -> bool) (a b : string) :
  all_chars p (a ++ b) = all_chars p a && all_chars p b.
Proof.
  induction a as [|x a IH]; simpl; [reflexivity|].
  rewrite IH. now rewrite andb_assoc.
Qed.

Lemma all_chars_replicate1 (p : ascii -> bool) (n : nat) (c : ascii) :
  p c = true -> all_chars p (replicate n (String c "")) = true.
Proof. intros H. induction n as [|n IH]; simpl; [reflexivity | now rewrite H]. Qed.

Lemma fill_prefix_single (n : nat) (c : ascii) (cur : string) :
  cur = "" \/ cur = String c "" ->
  fill_prefix n (String c "") cur = replicate n (String c "").
Proof.
  revert cur. induction n as [|n IH]; intros cur H; simpl; [reflexivity|].
  destruct H as [-> | ->]; simpl; f_equal; apply IH; auto.
Qed.

(** [padStart] with a one-character filler. *)
Lemma padStart_single (s : string) (n : Z) (c : ascii) :
  padStart s n (String c "") =
  replicate (Z.to_nat (n - Z.of_nat (String.length s))) (String c "") ++ s.
Proof.
  unfold padStart. simpl (_ =? _)%string. rewrite orb_false_r.
  destruct (Z.leb_spec n (Z.of_nat (String.length s))) as [H | H].
  - replace (Z.to_nat (n - Z.of_nat (String.length s))) with 0%nat by lia.
    reflexivity.
  - rewrite fill_prefix_single by auto. reflexivity.
Qed.

Lemma Normal_inj (A : Type) (a b : A) : Normal a = Normal b -> a = b.
Proof. intros H. injection H as H. exact H. Qed.

Lemma is_bit_cases (c : ascii) :
  is_bit c = true -> c = "0"%char \/ c = "1"%char.
Proof.
  unfold is_bit. intros H. apply orb_true_iff in H.
  destruct H as [H | H]; apply Ascii.eqb_eq in H; auto.
Qed.

End Strings.

(** ** 32-bit operators inside their exact range *)

Section Int32.

Lemma wrap32_small (z : Z) : - 2 ^ 31 <= z < 2 ^ 31 -> wrap32 z = z.
Proof.
  intros H. unfold wrap32. rewrite Z.mod_small; lia.
Qed.

Lemma pow2_le_30 (w : Z) : 0 <= w <= 30 -> 0 < 2 ^ w <= 2 ^ 30.
Proof.
  intros H. split; [apply Z.pow_pos_nonneg; lia|].
  apply Z.pow_le_mono_r; lia.
Qed.

Lemma shl32_one (w : Z) : 0 <= w <= 30 -> shl32 1 w = 2 ^ w.
Proof.
  intros H. unfold shl32.
  rewrite (wrap32_small 1) by lia.
  rewrite Z.mod_small by lia.
  rewrite Z.shiftl_1_l.
  apply wrap32_small. pose proof (pow2_le_30 w H). lia.
Qed.

Lemma shl32_by_one (r : Z) : 0 <= r < 2 ^ 30 -> shl32 r 1 = Z.shiftl r 1.
Proof.
  intros H. unfold shl32.
  rewrite (wrap32_small r) by lia.
  change (1 mod 32) with 1.
  apply wrap32_small. rewrite Z.shiftl_mul_pow2 by lia. lia.
Qed.

End Int32.

(** ** Positional notation *)

Section Digits.

Variable radix : Z.
Hypothesis radix_range : 2 <= radix <= 36.

Lemma digit_value_char (d : Z) :
  0 <= d < 36 -> digit_value (digit_char d) = Some d.
Proof.
  intros H.
  assert (forall n, (n < 36)%nat ->
            digit_value (digit_char (Z.of_nat n)) = Some (Z.of_nat n)) as K.
  { intros n Hn. do 36 (destruct n as [|n]; [reflexivity|]). lia. }
  specialize (K (Z.to_nat d)). rewrite Z2Nat.id in K by lia. apply K. lia.
Qed.

Lemma radix_digit_char (d : Z) :
  0 <= d < radix -> radix_digit radix (digit_char d) = Some d.
Proof.
  intros H. unfold radix_digit. rewrite digit_value_char by lia.
  destruct (Z.ltb_spec d radix); [reflexivity | lia].
Qed.

Lemma radix_digit_bounds (c : ascii) (d : Z) :
  radix_digit radix c = Some d -> 0 <= d < radix.
Proof.
  unfold radix_digit, digit_value.
  set (n := Z.of_nat (nat_of_ascii c)).
  repeat match goal with
         | |- context [if ?b then _ else _] => destruct b eqn:?
         end; intros E; inversion E; subst; lia.
Qed.

Lemma fixed_digits_length (n : nat) (z : Z) :
  String.length (fixed_digits radix n z) = n.
Proof. induction n as [|n IH]; simpl; [reflexivity | now rewrite IH]. Qed.

Lemma fixed_digits_snoc (n : nat) (z : Z) :
  fixed_digits radix (S n) z =
  fixed_digits radix n (z / radix) ++ String (digit_char (z mod radix)) "".
Proof.
  induction n as [|n IH].
  - simpl. now rewrite Z.div_1_r.
  - change (fixed_digits radix (S (S n)) z)
      with (String (digit_char (z / radix ^ Z.of_nat (S n) mod radix))
                   (fixed_digits radix (S n) z)).
    rewrite IH.
    change (fixed_digits radix (S n) (z / radix))
      with (String (digit_char (z / radix / radix ^ Z.of_nat n mod radix))
                   (fixed_digits radix n (z / radix))).
    cbn [append]. f_equal. f_equal. f_equal.
    rewrite Nat2Z.inj_succ, Z.pow_succ_r by lia.
    rewrite Z.div_div by (try apply Z.pow_pos_nonneg; lia).
    reflexivity.
Qed.

(** Leading zero digits can be dropped. *)
Lemma fixed_digits_pad (k n : nat) (z : Z) :
  0 <= z < radix ^ Z.of_nat n ->
  fixed_digits radix (k + n) z =
  replicate k "0" ++ fixed_digits radix n z.
Proof.
  intros H. induction k as [|k IH]; [reflexivity|].
  simpl. rewrite IH. f_equal.
  rewrite Z.div_small.
  - reflexivity.
  - split; [lia|]. apply Z.lt_le_trans with (radix ^ Z.of_nat n); [lia|].
    apply Z.pow_le_mono_r; lia.
Qed.

Lemma digits_of_S (f : nat) (z : Z) :
  digits_of (S f) radix z =
  if z <? radix then String (digit_char z) ""
  else digits_of f radix (z / radix) ++ String (digit_char (z mod radix)) "".
Proof. reflexivity. Qed.

(** [toString] writes the shortest numeral. *)
Lemma digits_of_fixed (fuel : nat) (z : Z) :
  0 <= z < radix ^ Z.of_nat (S fuel) ->
  exists m : nat,
    (1 <= m)%nat /\ digits_of (S fuel) radix z = fixed_digits radix m z
    /\ z < radix ^ Z.of_nat m
    /\ (m = 1%nat \/ radix ^ (Z.of_nat m - 1) <= z).
Proof.
  revert z. induction fuel as [|f IH]; intros z H.
  - exists 1%nat. rewrite Z.pow_1_r in H.
    cbn [digits_of fixed_digits].
    destruct (Z.ltb_spec z radix); [|lia].
    rewrite Z.pow_0_r, Z.div_1_r, Z.mod_small, Z.pow_1_r by lia. auto.
  - rewrite digits_of_S. destruct (Z.ltb_spec z radix) as [Hlt | Hge].
    + exists 1%nat. cbn [fixed_digits].
      rewrite Z.pow_0_r, Z.div_1_r, Z.mod_small, Z.pow_1_r by lia. auto.
    + rewrite Nat2Z.inj_succ, Z.pow_succ_r in H by lia.
      destruct (IH (z / radix)) as (m & Hm & E & Hub & Hlb).
      { split; [apply Z.div_pos; lia|].
        apply Z.div_lt_upper_bound; lia. }
      exists (S m). rewrite fixed_digits_snoc, E.
      split; [lia|]. split; [reflexivity|]. split.
      * rewrite Nat2Z.inj_succ, Z.pow_succ_r by lia.
        pose proof (Z.mul_succ_div_gt z radix).
        assert (radix * (z / radix + 1) <= radix * radix ^ Z.of_nat m)
          by (apply Z.mul_le_mono_nonneg_l; lia).
        lia.
      * right.
        replace (Z.of_nat (S m) - 1) with (Z.succ (Z.of_nat m - 1)) by lia.
        rewrite Z.pow_succ_r by lia.
        pose proof (Z.mul_div_le z radix).
        destruct Hlb as [-> | Hlb].
        -- change (Z.of_nat 1 - 1) with 0. rewrite Z.pow_0_r.
           assert (1 <= z / radix) by (apply Z.div_le_lower_bound; lia).
           lia.
        -- assert (radix * radix ^ (Z.of_nat m - 1) <= radix * (z / radix))
             by (apply Z.mul_le_mono_nonneg_l; lia).
           lia.
Qed.

Lemma log2_fuel (z : Z) :
  0 <= z -> z < radix ^ Z.of_nat (S (Z.to_nat (Z.log2 z))).
Proof.
  intros H.
  destruct (Z.eq_dec z 0) as [-> | Hz].
  - apply Z.pow_pos_nonneg; lia.
  - assert (0 <= Z.log2 z) by apply Z.log2_nonneg.
    rewrite Nat2Z.inj_succ, Z2Nat.id by lia.
    apply Z.lt_le_trans with (2 ^ Z.succ (Z.log2 z)).
    + apply Z.log2_spec. lia.
    + apply Z.pow_le_mono_l. lia.
Qed.

Lemma nat_digits_fixed (z : Z) :
  0 <= z ->
  exists m : nat,
    (1 <= m)%nat /\ nat_digits radix z = fixed_digits radix m z
    /\ z < radix ^ Z.of_nat m
    /\ (m = 1%nat \/ radix ^ (Z.of_nat m - 1) <= z).
Proof.
  intros H. unfold nat_digits. apply digits_of_fixed.
  split; [lia | now apply log2_fuel].
Qed.

(** A numeral padded to a width it fits in is the fixed-width numeral. *)
Lemma padStart_nat_digits (n : nat) (z : Z) :
  (1 <= n)%nat -> 0 <= z < radix ^ Z.of_nat n ->
  padStart (nat_digits radix z) (Z.of_nat n) "0" = fixed_digits radix n z.
Proof.
  intros Hn H.
  destruct (nat_digits_fixed z) as (m & Hm & E & Hub & Hlb); [lia|].
  rewrite padStart_single, E, fixed_digits_length.
  assert (m <= n)%nat as Hmn.
  { destruct Hlb as [-> | Hlb]; [lia|].
    destruct (Nat.le_gt_cases m n) as [L | G]; [exact L | exfalso].
    assert (radix ^ Z.of_nat n <= radix ^ (Z.of_nat m - 1))
      by (apply Z.pow_le_mono_r; lia).
    lia. }
  replace (Z.to_nat (Z.of_nat n - Z.of_nat m)) with (n - m)%nat by lia.
  rewrite <- fixed_digits_pad by lia.
  f_equal. lia.
Qed.

End Digits.

(** ** Bit-level facts *)

Section Bits.

Import Reference ProblemSolver.

Lemma bit_of_value (c : ascii) : is_bit_value (bit_of c).
Proof. unfold bit_of, is_bit_value. destruct (Ascii.eqb c "1"); auto. Qed.

Lemma testbit_bit_high (b n : Z) :
  is_bit_value b -> 0 < n -> Z.testbit b n = false.
Proof.
  intros [-> | ->] Hn; [apply Z.testbit_0_l|].
  apply Z.bits_above_log2; simpl; lia.
Qed.

Lemma shift_or_value (r b : Z) :
  is_bit_value b -> Z.lor (Z.shiftl r 1) b = 2 * r + b.
Proof.
  intros Hb. rewrite Z.shiftl_mul_pow2 by lia. change (2 ^ 1) with 2.
  destruct Hb as [-> | ->]; [rewrite Z.lor_0_r; lia|].
  rewrite <- Z.lxor_lor, <- Z.add_nocarry_lxor; try lia.
  all: change (Z.land (r * 2) 1) with (Z.land (r * 2) (Z.ones 1));
    rewrite Z.land_ones by lia; change (2 ^ 1) with 2; apply Z.mod_mul; lia.
Qed.

Lemma lxor_range (a b n : Z) :
  0 <= n -> 0 <= a < 2 ^ n -> 0 <= b < 2 ^ n -> 0 <= Z.lxor a b < 2 ^ n.
Proof.
  intros Hn Ha Hb.
  assert (0 <= Z.lxor a b) as Hx by (apply Z.lxor_nonneg; lia).
  split; [exact Hx|].
  destruct (Z.eq_dec (Z.lxor a b) 0) as [-> | Hne];
    [apply Z.pow_pos_nonneg; lia|].
  assert (0 < n) as Hn'.
  { destruct (Z.eq_dec n 0) as [-> | ?]; [|lia].
    rewrite Z.pow_0_r in Ha, Hb.
    assert (a = 0) as -> by lia. assert (b = 0) as -> by lia.
    exfalso. apply Hne. reflexivity. }
  apply Z.log2_lt_pow2; [lia|].
  pose proof (Z.log2_lxor a b ltac:(lia) ltac:(lia)) as Hl.
  assert (Z.log2 a < n).
  { destruct (Z.eq_dec a 0) as [-> | ?]; [simpl; lia|].
    apply Z.log2_lt_pow2; lia. }
  assert (Z.log2 b < n).
  { destruct (Z.eq_dec b 0) as [-> | ?]; [simpl; lia|].
    apply Z.log2_lt_pow2; lia. }
  lia.
Qed.

Lemma bit_digit (d : Z) : is_bit_value d -> bit_of (digit_char d) = d.
Proof. intros [-> | ->]; reflexivity. Qed.

Lemma digit_bit (c : ascii) : is_bit c = true -> digit_char (bit_of c) = c.
Proof. intros H. destruct (is_bit_cases c H) as [-> | ->]; reflexivity. Qed.

Lemma mod2_bit (z : Z) : is_bit_value (z mod 2).
Proof. unfold is_bit_value. pose proof (Z.mod_pos_bound z 2). lia. Qed.

Lemma fixed_digits_bits (n : nat) (z : Z) :
  all_chars is_bit (fixed_digits 2 n z) = true.
Proof.
  induction n as [|n IH]; [reflexivity|].
  cbn [fixed_digits all_chars]. rewrite IH, andb_true_r.
  destruct (mod2_bit (z / 2 ^ Z.of_nat n)) as [-> | ->]; reflexivity.
Qed.

Lemma low_bits_fixed (n : nat) (z : Z) :
  low_bits n z = fixed_digits 2 n z.
Proof.
  induction n as [|n IH]; [reflexivity|].
  cbn [low_bits fixed_digits]. rewrite IH. f_equal.
  rewrite <- Z.testbit_spec' by lia.
  destruct (Z.testbit z (Z.of_nat n)); reflexivity.
Qed.

Lemma land_pow2_truthy (t n : Z) :
  0 <= n -> truthy (Z.land t (2 ^ n)) = Z.testbit t n.
Proof.
  intros Hn. unfold truthy.
  destruct (Z.testbit t n) eqn:E.
  - destruct (Z.eqb_spec (Z.land t (2 ^ n)) 0) as [K | K]; [|reflexivity].
    assert (Z.testbit (Z.land t (2 ^ n)) n = true) as B
      by (rewrite Z.land_spec, E, Z.pow2_bits_true; auto).
    rewrite K, Z.testbit_0_l in B. discriminate.
  - assert (Z.land t (2 ^ n) = 0) as ->; [|reflexivity].
    apply Z.bits_inj'. intros m Hm.
    rewrite Z.land_spec, Z.testbit_0_l, Z.pow2_bits_eqb by lia.
    destruct (Z.eqb_spec n m) as [<- | ?];
      [rewrite E; reflexivity | apply andb_false_r].
Qed.

Lemma parseInt_bit (c : ascii) :
  is_bit c = true -> ToInt32 (parseInt (String c "") 0) = bit_of c.
Proof.
  intros H. destruct (is_bit_cases c H) as [-> | ->];
    vm_compute; reflexivity.
Qed.

Lemma fixed_digits_zero (n : nat) : fixed_digits 2 n 0 = replicate n "0".
Proof.
  induction n as [|n IH]; [reflexivity|].
  cbn [fixed_digits replicate]. rewrite IH, Z.div_0_l; [reflexivity|].
  apply Z.pow_nonzero; lia.
Qed.

End Bits.

(** ** Division over GF(2): the reference algorithm *)

Section Division.

Import Reference.

Variables polynomial width : Z.
Hypothesis width_pos : 1 <= width.
Hypothesis polynomial_range : 2 ^ width <= polynomial < 2 ^ (width + 1).

Lemma testbit_top (t : Z) :
  0 <= t < 2 ^ (width + 1) ->
  Z.testbit t width = (2 ^ width <=? t).
Proof.
  intros H.
  assert (0 < 2 ^ width) by (apply Z.pow_pos_nonneg; lia).
  rewrite Z.pow_add_r, Z.pow_1_r in H by lia.
  destruct (Z.leb_spec (2 ^ width) t) as [L | L].
  - apply Z.testbit_true; [lia|].
    assert (t / 2 ^ width = 1) as ->; [|reflexivity].
    symmetry. apply Z.div_unique with (t - 2 ^ width); lia.
  - apply Z.testbit_false; [lia|].
    rewrite Z.div_small by lia. reflexivity.
Qed.

Lemma below_top (x : Z) :
  0 <= x < 2 ^ (width + 1) -> Z.testbit x width = false -> x < 2 ^ width.
Proof.
  intros H E. rewrite testbit_top in E by lia.
  destruct (Z.leb_spec (2 ^ width) x); [discriminate | lia].
Qed.

(** The register never outgrows [width] bits. *)
Lemma shift_in_range (r b : Z) :
  0 <= r < 2 ^ width -> is_bit_value b ->
  0 <= shift_in polynomial width r b < 2 ^ width.
Proof.
  intros Hr Hb. unfold shift_in. rewrite shift_or_value by exact Hb.
  assert (0 <= 2 * r + b < 2 ^ (width + 1)) as Ht.
  { rewrite Z.pow_add_r, Z.pow_1_r by lia. destruct Hb; subst; lia. }
  destruct (Z.testbit (2 * r + b) width) eqn:E.
  - assert (0 <= Z.lxor (2 * r + b) polynomial < 2 ^ (width + 1)) as Hx
      by (apply lxor_range; lia).
    split; [lia|]. apply below_top; [exact Hx|].
    rewrite Z.lxor_spec, E, testbit_top by lia.
    destruct (Z.leb_spec (2 ^ width) polynomial); [reflexivity | lia].
  - split; [lia|]. apply below_top; assumption.
Qed.

Lemma consume_range (bits : string) (r : Z) :
  0 <= r < 2 ^ width -> 0 <= consume polynomial width bits r < 2 ^ width.
Proof.
  revert r. induction bits as [|c bits IH]; intros r Hr; simpl; [exact Hr|].
  apply IH, shift_in_range; [exact Hr | apply bit_of_value].
Qed.

Lemma consume_append (a b : string) (r : Z) :
  consume polynomial width (a ++ b) r =
  consume polynomial width b (consume polynomial width a r).
Proof.
  revert r. induction a as [|c a IH]; intros r; simpl; [reflexivity|].
  apply IH.
Qed.

(** Shifting a bit in is linear over GF(2). *)
Lemma shift_in_lxor (r r' b : Z) :
  is_bit_value b ->
  shift_in polynomial width (Z.lxor r r') b =
  Z.lxor (shift_in polynomial width r 0) (shift_in polynomial width r' b).
Proof.
  intros Hb. unfold shift_in.
  assert (Z.lor (Z.shiftl (Z.lxor r r') 1) b =
          Z.lxor (Z.lor (Z.shiftl r 1) 0) (Z.lor (Z.shiftl r' 1) b)) as E.
  { apply Z.bits_inj'. intros n Hn.
    rewrite Z.lxor_spec, !Z.lor_spec, !Z.shiftl_spec, Z.lxor_spec,
      Z.testbit_0_l by lia.
    destruct (Z.eq_dec n 0) as [-> | Hn0].
    - rewrite !Z.testbit_neg_r by lia. reflexivity.
    - rewrite (testbit_bit_high b n) by (auto; lia).
      rewrite !orb_false_r. reflexivity. }
  rewrite E, Z.lxor_spec.
  destruct (Z.testbit (Z.lor (Z.shiftl r 1) 0) width),
           (Z.testbit (Z.lor (Z.shiftl r' 1) b) width); cbn [xorb].
  - rewrite Z.lxor_assoc, (Z.lxor_comm polynomial), Z.lxor_assoc,
      Z.lxor_nilpotent, Z.lxor_0_r. reflexivity.
  - rewrite !Z.lxor_assoc. f_equal. apply Z.lxor_comm.
  - rewrite Z.lxor_assoc. reflexivity.
  - reflexivity.
Qed.

Lemma consume_lxor (bits : string) (r r' : Z) :
  consume polynomial width bits (Z.lxor r r') =
  Z.lxor
    (consume polynomial width (replicate (String.length bits) "0") r)
    (consume polynomial width bits r').
Proof.
  revert r r'. induction bits as [|c bits IH]; intros r r'; [reflexivity|].
  cbn [String.length replicate append consume].
  change (bit_of "0") with 0.
  rewrite <- IH. f_equal. apply shift_in_lxor, bit_of_value.
Qed.

End Division.

(** ** Remainders as bit strings *)

Section Remainders.

Import Reference.

Variables polynomial width : Z.
Hypothesis width_pos : 1 <= width.
Hypothesis polynomial_range : 2 ^ width <= polynomial < 2 ^ (width + 1).

(** While the register has room, shifting a bit in is doubling. *)
Lemma shift_in_room (r b : Z) :
  0 <= r -> is_bit_value b -> 2 * r + 2 <= 2 ^ width ->
  shift_in polynomial width r b = 2 * r + b.
Proof.
  intros Hr Hb H. unfold shift_in. rewrite shift_or_value by exact Hb.
  assert (0 <= 2 * r + b < 2 ^ width) by (destruct Hb; subst; lia).
  rewrite (testbit_top width) by (try rewrite Z.pow_add_r, Z.pow_1_r; lia).
  destruct (Z.leb_spec (2 ^ width) (2 * r + b)); [lia | reflexivity].
Qed.

Lemma room_step (r b : Z) (n : nat) :
  0 <= r -> is_bit_value b -> (r + 1) * 2 ^ Z.of_nat (S n) <= 2 ^ width ->
  2 * r + 2 <= 2 ^ width /\ (2 * r + b + 1) * 2 ^ Z.of_nat n <= 2 ^ width.
Proof.
  intros Hr Hb H. rewrite Nat2Z.inj_succ, Z.pow_succ_r in H by lia.
  assert (0 < 2 ^ Z.of_nat n) by (apply Z.pow_pos_nonneg; lia).
  destruct Hb; subst; split; nia.
Qed.

(** Feeding the digits of [c] to a register with room appends them. *)
Lemma consume_fixed (n : nat) (c r : Z) :
  0 <= r -> (r + 1) * 2 ^ Z.of_nat n <= 2 ^ width ->
  consume polynomial width (fixed_digits 2 n c) r =
  r * 2 ^ Z.of_nat n + c mod 2 ^ Z.of_nat n.
Proof.
  revert r. induction n as [|n IH]; intros r Hr H.
  - simpl. rewrite Z.mod_1_r. lia.
  - cbn [fixed_digits consume].
    pose proof (mod2_bit (c / 2 ^ Z.of_nat n)) as Hd.
    destruct (room_step r _ n Hr Hd H) as [H1 H2].
    rewrite bit_digit, shift_in_room by assumption.
    rewrite IH;
      [| pose proof (Z.mod_pos_bound (c / 2 ^ Z.of_nat n) 2); lia | exact H2].
    rewrite Nat2Z.inj_succ, Z.pow_succ_r by lia.
    rewrite (Z.mul_comm 2 (2 ^ Z.of_nat n)).
    rewrite (Z.rem_mul_r c (2 ^ Z.of_nat n) 2)
      by (try apply Z.pow_nonzero; lia).
    ring.
Qed.

(** A bit string is the numeral of the register it produces. *)
Lemma fixed_of_consume (s : string) (r : Z) :
  all_chars is_bit s = true -> 0 <= r ->
  (r + 1) * 2 ^ Z.of_nat (String.length s) <= 2 ^ width ->
  consume polynomial width s r / 2 ^ Z.of_nat (String.length s) = r
  /\ fixed_digits 2 (String.length s) (consume polynomial width s r) = s.
Proof.
  revert r. induction s as [|c s IH]; intros r Hs Hr H.
  - simpl. rewrite Z.div_1_r. auto.
  - cbn [all_chars] in Hs. apply andb_true_iff in Hs. destruct Hs as [Hc Hs].
    cbn [String.length consume fixed_digits].
    destruct (room_step r _ (String.length s) Hr (bit_of_value c) H)
      as [H1 H2].
    rewrite shift_in_room by (auto using bit_of_value).
    destruct (IH (2 * r + bit_of c) Hs) as [Hq Hf];
      [destruct (bit_of_value c) as [-> | ->]; lia | exact H2 |].
    split.
    + rewrite Nat2Z.inj_succ, Z.pow_succ_r by lia.
      rewrite (Z.mul_comm 2 (2 ^ Z.of_nat (String.length s))).
      rewrite <- Z.div_div, Hq by (try apply Z.pow_nonzero; lia).
      destruct (bit_of_value c) as [-> | ->].
      * rewrite Z.add_0_r, Z.mul_comm. apply Z.div_mul. lia.
      * symmetry. apply Z.div_unique with 1; lia.
    + rewrite Hf, Hq. f_equal.
      replace ((2 * r + bit_of c) mod 2) with (bit_of c).
      * now apply digit_bit.
      * destruct (bit_of_value c) as [-> | ->].
        -- rewrite Z.add_0_r, Z.mul_comm, Z.mod_mul; lia.
        -- symmetry. rewrite Z.add_comm, Z.mul_comm. 
           rewrite Z.mod_add by lia. reflexivity.
Qed.

End Remainders.

(** ** The TypeScript loop computes the reference division *)

(** [repeat] returns as long as the result fits in a string. *)
Lemma repeat_within (count : Z) :
  0 <= count <= max_string_length ->
  repeat "0" count = Normal (replicate (Z.to_nat count) "0").
Proof.
  intros H. unfold repeat. cbn [String.length].
  destruct (Z.ltb_spec count 0); [lia|].
  destruct (Z.ltb_spec max_string_length (Z.of_nat 1 * count)); [lia|].
  reflexivity.
Qed.

Section Refinement.

Import Reference ProblemSolver.

Variables polynomial width : Z.
Hypothesis width_range : 1 <= width <= 30.
Hypothesis polynomial_range : 2 ^ width <= polynomial < 2 ^ (width + 1).

Let width_pos : 1 <= width := proj1 width_range.

Lemma pow2_width_bounds :
  0 < 2 ^ width /\ 2 ^ width <= 2 ^ 30 /\ 2 ^ (width + 1) <= 2 ^ 31.
Proof.
  repeat split.
  - apply Z.pow_pos_nonneg; lia.
  - apply Z.pow_le_mono_r; lia.
  - apply Z.pow_le_mono_r; lia.
Qed.

Lemma crc_step_shift_in (r : Z) (c : ascii) :
  0 <= r < 2 ^ width -> is_bit c = true ->
  crc_step polynomial width r c = shift_in polynomial width r (bit_of c).
Proof.
  intros Hr Hc. unfold crc_step, shift_in.
  destruct pow2_width_bounds as (P0 & P1 & P2).
  rewrite parseInt_bit by exact Hc.
  rewrite shl32_by_one, shl32_one by lia.
  pose proof (shift_or_value r (bit_of c) (bit_of_value c)) as V.
  assert (0 <= bit_of c <= 1) by (destruct (bit_of_value c) as [-> | ->]; lia).
  unfold or32, and32, xor32.
  rewrite (wrap32_small (bit_of c)) by lia.
  rewrite (wrap32_small (Z.shiftl r 1))
    by (rewrite Z.shiftl_mul_pow2; lia).
  rewrite !(wrap32_small (Z.lor (Z.shiftl r 1) (bit_of c))) by lia.
  rewrite (wrap32_small (2 ^ width)), (wrap32_small polynomial) by lia.
  rewrite land_pow2_truthy by lia. reflexivity.
Qed.

Lemma crc_loop_consume (bits : string) (r : Z) :
  all_chars is_bit bits = true -> 0 <= r < 2 ^ width ->
  crc_loop polynomial width bits r = consume polynomial width bits r.
Proof.
  revert r. induction bits as [|c bits IH]; intros r Hb Hr; [reflexivity|].
  cbn [all_chars] in Hb. apply andb_true_iff in Hb. destruct Hb as [Hc Hb].
  cbn [crc_loop consume]. rewrite crc_step_shift_in by assumption.
  apply IH; [exact Hb|].
  apply shift_in_range; auto using bit_of_value.
Qed.

Lemma mask_ones : shl32 1 width - 1 = Z.ones width.
Proof. rewrite shl32_one, Z.ones_equiv by lia. lia. Qed.

Lemma remainder_string_fixed (r : Z) :
  0 <= r < 2 ^ width ->
  remainder_string width r = fixed_digits 2 (Z.to_nat width) r.
Proof.
  intros Hr. unfold remainder_string.
  destruct pow2_width_bounds as (P0 & P1 & P2).
  rewrite mask_ones. unfold and32.
  rewrite (wrap32_small r) by lia.
  rewrite (wrap32_small (Z.ones width)) by (rewrite Z.ones_equiv; lia).
  rewrite Z.land_ones, Z.mod_small by lia.
  unfold toString. destruct (Z.ltb_spec r 0); [lia|].
  rewrite <- (Z2Nat.id width) at 1 by lia.
  apply padStart_nat_digits; try lia.
  rewrite Z2Nat.id; lia.
Qed.

Lemma repeat_zero : repeat "0" width = Normal (replicate (Z.to_nat width) "0").
Proof. apply repeat_within. unfold max_string_length. lia. Qed.

(** A remainder is written with zeros only exactly when it is zero. *)
Lemma remainder_zero_eqb (r : Z) :
  0 <= r < 2 ^ width ->
  (fixed_digits 2 (Z.to_nat width) r =? replicate (Z.to_nat width) "0")%string
  = (r =? 0).
Proof.
  intros Hr.
  destruct (Z.eqb_spec r 0) as [-> | Hne].
  - rewrite fixed_digits_zero. apply String.eqb_refl.
  - apply String.eqb_neq. intros E. apply Hne.
    rewrite <- fixed_digits_zero in E.
    pose proof (consume_fixed 0 width width_pos (Z.to_nat width) r 0) as Cr.
    pose proof (consume_fixed 0 width width_pos (Z.to_nat width) 0 0) as C0.
    rewrite Z2Nat.id in Cr, C0 by lia.
    rewrite E, C0, Z.mod_0_l, (Z.mod_small r) in Cr
      by (try apply Z.pow_nonzero; lia).
    lia.
Qed.

Lemma calculateCRC_divide (data : string) :
  all_chars is_bit data = true ->
  calculateCRC data polynomial width =
  Normal (fixed_digits 2 (Z.to_nat width)
            (consume polynomial width
               (data ++ replicate (Z.to_nat width) "0") 0)).
Proof.
  intros Hd. unfold calculateCRC. rewrite repeat_zero. cbn [bind].
  destruct pow2_width_bounds as (P0 & _).
  rewrite crc_loop_consume; try lia.
  - rewrite remainder_string_fixed; [reflexivity|].
    apply consume_range; auto; lia.
  - rewrite all_chars_append, Hd. apply all_chars_replicate1. reflexivity.
Qed.

Lemma verifyCRC_divide (dataWithCRC : string) :
  all_chars is_bit dataWithCRC = true ->
  verifyCRC dataWithCRC polynomial width =
  Normal {| isValid := consume polynomial width dataWithCRC 0 =? 0;
            remainder := fixed_digits 2 (Z.to_nat width)
                           (consume polynomial width dataWithCRC 0) |}.
Proof.
  intros Hd. unfold verifyCRC. rewrite repeat_zero. cbn [bind].
  destruct pow2_width_bounds as (P0 & _).
  assert (0 <= consume polynomial width dataWithCRC 0 < 2 ^ width) as Hr
    by (apply consume_range; auto; lia).
  rewrite crc_loop_consume by (auto; lia).
  rewrite remainder_string_fixed by exact Hr.
  rewrite remainder_zero_eqb by exact Hr. reflexivity.
Qed.

(** Dividing a [width]-bit numeral leaves the number it denotes. *)
Lemma consume_numeral (x : Z) :
  0 <= x < 2 ^ width ->
  consume polynomial width (fixed_digits 2 (Z.to_nat width) x) 0 = x.
Proof.
  intros Hx.
  assert (Z.of_nat (Z.to_nat width) = width) as Hn by lia.
  rewrite consume_fixed by (auto; rewrite ?Hn; lia).
  rewrite Hn, Z.mod_small by lia. lia.
Qed.

(** Appending the computed remainder makes the division come out even. *)
Lemma consume_codeword (data : string) :
  let n := Z.to_nat width in
  let crc := consume polynomial width (data ++ replicate n "0") 0 in
  consume polynomial width (data ++ fixed_digits 2 n crc) 0 = 0.
Proof.
  intros n crc. subst crc.
  destruct pow2_width_bounds as (P0 & _).
  rewrite !consume_append.
  set (r := consume polynomial width data 0).
  assert (0 <= r < 2 ^ width) as Hr by (apply consume_range; auto; lia).
  set (crc := consume polynomial width (replicate n "0") r).
  assert (0 <= crc < 2 ^ width) as Hc by (apply consume_range; auto; lia).
  rewrite <- (Z.lxor_0_r r) at 1.
  rewrite consume_lxor, fixed_digits_length; try lia.
  fold crc. subst n.
  rewrite consume_numeral by exact Hc. apply Z.lxor_nilpotent.
Qed.

(** Comparing a received check field with the recomputed one is the same
    test as dividing the whole codeword. *)
Lemma compare_is_divide (data received : string) :
  all_chars is_bit received = true ->
  String.length received = Z.to_nat width ->
  let n := Z.to_nat width in
  let crc := consume polynomial width (data ++ replicate n "0") 0 in
  (received =? fixed_digits 2 n crc)%string =
  (consume polynomial width (data ++ received) 0 =? 0).
Proof.
  intros Hb Hl n crc. subst crc.
  destruct pow2_width_bounds as (P0 & _).
  rewrite !consume_append.
  set (r := consume polynomial width data 0).
  assert (0 <= r < 2 ^ width) as Hr by (apply consume_range; auto; lia).
  set (crc := consume polynomial width (replicate n "0") r).
  assert (0 <= crc < 2 ^ width) as Hc by (apply consume_range; auto; lia).
  replace (consume polynomial width received r)
    with (consume polynomial width received (Z.lxor r 0))
    by (now rewrite Z.lxor_0_r).
  rewrite consume_lxor, Hl. fold n. fold crc.
  set (v := consume polynomial width received 0).
  assert (0 <= v < 2 ^ width) as Hv by (apply consume_range; auto; lia).
  destruct (fixed_of_consume polynomial width width_pos received 0 Hb)
    as [_ Hf]; [lia | rewrite Hl, Z2Nat.id; lia |].
  fold v in Hf. rewrite Hl in Hf. fold n in Hf.
  pose proof consume_numeral as Val. fold n in Val.
  destruct (Z.eqb_spec (Z.lxor crc v) 0) as [E | E].
  - apply Z.lxor_eq in E. apply String.eqb_eq. rewrite E. symmetry. exact Hf.
  - apply String.eqb_neq. intros K. apply E.
    rewrite <- Hf in K. apply (f_equal (fun s => consume polynomial width s 0)) in K.
    rewrite !Val in K by assumption. subst v. rewrite <- K. apply Z.lxor_nilpotent.
Qed.

Lemma divide_fixed (bits : string) :
  divide bits polynomial width =
  fixed_digits 2 (Z.to_nat width) (consume polynomial width bits 0).
Proof.
  destruct pow2_width_bounds as (P0 & _).
  assert (0 <= consume polynomial width bits 0 < 2 ^ width)
    by (apply consume_range; auto; lia).
  unfold divide. rewrite low_bits_fixed, Z.land_ones, Z.mod_small by lia.
  reflexivity.
Qed.

End Refinement.

(** ** Width 31: the register reaches the sign bit

    With 31 check bits the shifted register has 32 significant bits, so the
    32-bit operators of the loop see it as a negative number.  The loop
    still computes the reference division. *)

Section Width31.

Import Reference ProblemSolver.

(** [x & -2^n] clears the [n] low bits of [x]. *)
Lemma land_high (x n : Z) : 0 <= n -> Z.land x (- 2 ^ n) = x / 2 ^ n * 2 ^ n.
Proof.
  intros Hn.
  replace (- 2 ^ n) with (Z.lnot (Z.ones n))
    by (rewrite Z.ones_equiv; unfold Z.lnot; lia).
  rewrite <- Z.ldiff_land, Z.ldiff_ones_r by lia.
  rewrite Z.shiftl_mul_pow2, Z.shiftr_div_pow2 by lia.
  reflexivity.
Qed.

(** Subtracting [2^n] from a number below it sets every bit from [n] on. *)
Lemma sub_high (x n : Z) :
  0 <= n -> 0 <= x < 2 ^ n -> x - 2 ^ n = Z.lxor x (- 2 ^ n).
Proof.
  intros Hn Hx. replace (x - 2 ^ n) with (x + - 2 ^ n) by lia.
  apply Z.add_nocarry_lxor.
  rewrite land_high, Z.div_small by lia. reflexivity.
Qed.

Lemma wrap32_high (z : Z) : 2 ^ 31 <= z < 2 ^ 32 -> wrap32 z = z - 2 ^ 32.
Proof.
  intros H. unfold wrap32.
  replace (z + 2 ^ 31) with (z - 2 ^ 31 + 1 * 2 ^ 32) by lia.
  rewrite Z.mod_add, Z.mod_small by lia. lia.
Qed.

(** A remainder is written with zeros only exactly when it is zero. *)
Lemma fixed_digits_zero_eqb (width r : Z) :
  1 <= width -> 0 <= r < 2 ^ width ->
  (fixed_digits 2 (Z.to_nat width) r =? replicate (Z.to_nat width) "0")%string
  = (r =? 0).
Proof.
  intros Hw Hr.
  destruct (Z.eqb_spec r 0) as [-> | Hne].
  - rewrite fixed_digits_zero. apply String.eqb_refl.
  - apply String.eqb_neq. intros E. apply Hne.
    rewrite <- fixed_digits_zero in E.
    pose proof (consume_fixed 0 width Hw (Z.to_nat width) r 0) as Cr.
    pose proof (consume_fixed 0 width Hw (Z.to_nat width) 0 0) as C0.
    rewrite Z2Nat.id in Cr, C0 by lia.
    rewrite E, C0, Z.mod_0_l, (Z.mod_small r) in Cr
      by (try apply Z.pow_nonzero; lia).
    lia.
Qed.

(** The reference division writes the register it ends with. *)
Lemma divide_consume (polynomial width : Z) (bits : string) :
  1 <= width -> 2 ^ width <= polynomial < 2 ^ (width + 1) ->
  divide bits polynomial width =
  fixed_digits 2 (Z.to_nat width) (consume polynomial width bits 0).
Proof.
  intros Hw Hp.
  assert (0 < 2 ^ width) by (apply Z.pow_pos_nonneg; lia).
  assert (0 <= consume polynomial width bits 0 < 2 ^ width)
    by (apply consume_range; auto; lia).
  unfold divide. rewrite low_bits_fixed, Z.land_ones, Z.mod_small by lia.
  reflexivity.
Qed.

Variable polynomial : Z.
Hypothesis polynomial_range : 2 ^ 31 <= polynomial < 2 ^ (31 + 1).

Lemma crc_step_shift_in_31 (r : Z) (c : ascii) :
  0 <= r < 2 ^ 31 -> is_bit c = true ->
  crc_step polynomial 31 r c = shift_in polynomial 31 r (bit_of c).
Proof.
  intros Hr Hc.
  assert (2 ^ 31 <= polynomial < 2 ^ 32) as Hp by exact polynomial_range.
  unfold crc_step, shift_in.
  rewrite parseInt_bit by exact Hc.
  pose proof (shift_or_value r (bit_of c) (bit_of_value c)) as V.
  assert (0 <= bit_of c <= 1) as Hb
    by (destruct (bit_of_value c) as [-> | ->]; lia).
  rewrite V.
  rewrite (testbit_top 31 ltac:(lia))
    by (change (31 + 1) with 32; lia).
  change (shl32 1 31) with (- 2 ^ 31).
  assert (shl32 r 1 = wrap32 (2 * r)) as ->.
  { unfold shl32. rewrite (wrap32_small r) by lia. change (1 mod 32) with 1.
    rewrite Z.shiftl_mul_pow2 by lia. f_equal. lia. }
  unfold and32, xor32, or32.
  rewrite (wrap32_small (- 2 ^ 31)), (wrap32_small (bit_of c)) by lia.
  destruct (Z.leb_spec (2 ^ 31) (2 * r + bit_of c)) as [L | L].
  - (* the shifted register has its bit 31 set: a negative 32-bit value *)
    rewrite (wrap32_high (2 * r)), (wrap32_small (2 * r - 2 ^ 32)) by lia.
    replace (2 * r - 2 ^ 32) with (Z.shiftl (r - 2 ^ 31) 1)
      by (rewrite Z.shiftl_mul_pow2; lia).
    rewrite (shift_or_value (r - 2 ^ 31) _ (bit_of_value c)).
    replace (2 * (r - 2 ^ 31) + bit_of c) with (2 * r + bit_of c - 2 ^ 32)
      by lia.
    set (t := 2 * r + bit_of c) in *.
    rewrite !(wrap32_small (t - 2 ^ 32)) by lia.
    rewrite land_high by lia.
    assert ((t - 2 ^ 32) / 2 ^ 31 = -1) as ->
      by (symmetry; apply Z.div_unique with (t - 2 ^ 31); lia).
    change (truthy (-1 * 2 ^ 31)) with true. cbv iota.
    rewrite (wrap32_high polynomial) by lia.
    rewrite (sub_high t 32), (sub_high polynomial 32) by lia.
    rewrite (Z.lxor_comm polynomial), Z.lxor_assoc.
    rewrite <- (Z.lxor_assoc (- 2 ^ 32)), Z.lxor_nilpotent, Z.lxor_0_l.
    reflexivity.
  - (* bit 31 clear: the operators are exact *)
    rewrite !(wrap32_small (2 * r)) by lia.
    assert (Z.lor (2 * r) (bit_of c) = 2 * r + bit_of c) as ->
      by (rewrite <- V, Z.shiftl_mul_pow2 by lia; f_equal; lia).
    rewrite !(wrap32_small (2 * r + bit_of c)) by lia.
    rewrite land_high, Z.div_small by lia.
    reflexivity.
Qed.

Lemma crc_loop_consume_31 (bits : string) (r : Z) :
  all_chars is_bit bits = true -> 0 <= r < 2 ^ 31 ->
  crc_loop polynomial 31 bits r = consume polynomial 31 bits r.
Proof.
  revert r. induction bits as [|c bits IH]; intros r Hb Hr; [reflexivity|].
  cbn [all_chars] in Hb. apply andb_true_iff in Hb. destruct Hb as [Hc Hb].
  cbn [crc_loop consume]. rewrite crc_step_shift_in_31 by assumption.
  apply IH; [exact Hb|].
  apply shift_in_range; auto using bit_of_value. lia.
Qed.

(** The mask [(1 << 31) - 1] wraps around to [2^31 - 1]. *)
Lemma remainder_string_fixed_31 (r : Z) :
  0 <= r < 2 ^ 31 ->
  remainder_string 31 r = fixed_digits 2 (Z.to_nat 31) r.
Proof.
  intros Hr. unfold remainder_string, and32.
  change (wrap32 (shl32 1 31 - 1)) with (Z.ones 31).
  rewrite (wrap32_small r) by lia.
  rewrite Z.land_ones, Z.mod_small by lia.
  unfold toString. destruct (Z.ltb_spec r 0); [lia|].
  apply (padStart_nat_digits 2 ltac:(lia) (Z.to_nat 31) r); [simpl; lia|].
  change (Z.of_nat (Z.to_nat 31)) with 31. lia.
Qed.

Lemma calculateCRC_divide_31 (data : string) :
  all_chars is_bit data = true ->
  calculateCRC data polynomial 31 =
  Normal (fixed_digits 2 (Z.to_nat 31)
            (consume polynomial 31 (data ++ replicate (Z.to_nat 31) "0") 0)).
Proof.
  intros Hd. unfold calculateCRC.
  rewrite repeat_within by (unfold max_string_length; lia). cbn [bind].
  rewrite crc_loop_consume_31; try lia.
  - rewrite remainder_string_fixed_31; [reflexivity|].
    apply consume_range; auto; lia.
  - rewrite all_chars_append, Hd. apply all_chars_replicate1. reflexivity.
Qed.

Lemma verifyCRC_divide_31 (dataWithCRC : string) :
  all_chars is_bit dataWithCRC = true ->
  verifyCRC dataWithCRC polynomial 31 =
  Normal {| isValid := consume polynomial 31 dataWithCRC 0 =? 0;
            remainder := fixed_digits 2 (Z.to_nat 31)
                           (consume polynomial 31 dataWithCRC 0) |}.
Proof.
  intros Hd. unfold verifyCRC.
  rewrite repeat_within by (unfold max_string_length; lia). cbn [bind].
  assert (0 <= consume polynomial 31 dataWithCRC 0 < 2 ^ 31) as Hr
    by (apply consume_range; auto; lia).
  rewrite crc_loop_consume_31 by (auto; lia).
  rewrite remainder_string_fixed_31 by exact Hr.
  rewrite fixed_digits_zero_eqb by (auto; lia). reflexivity.
Qed.

End Width31.

(** Both functions compute the reference division for every width from 1
    to 31. *)
Lemma calculateCRC_consume (polynomial width : Z) (data : string) :
  1 <= width <= 31 -> 2 ^ width <= polynomial < 2 ^ (width + 1) ->
  all_chars is_bit data = true ->
  ProblemSolver.calculateCRC data polynomial width =
  Normal (fixed_digits 2 (Z.to_nat width)
            (Reference.consume polynomial width
               (data ++ replicate (Z.to_nat width) "0") 0)).
Proof.
  intros Hw Hp Hd. destruct (Z.eq_dec width 31) as [-> | Hne].
  - apply calculateCRC_divide_31; assumption.
  - apply calculateCRC_divide; [lia | exact Hp | exact Hd].
Qed.

Lemma verifyCRC_consume (polynomial width : Z) (dataWithCRC : string) :
  1 <= width <= 31 -> 2 ^ width <= polynomial < 2 ^ (width + 1) ->
  all_chars is_bit dataWithCRC = true ->
  ProblemSolver.verifyCRC dataWithCRC polynomial width =
  Normal {| ProblemSolver.isValid :=
              Reference.consume polynomial width dataWithCRC 0 =? 0;
            ProblemSolver.remainder :=
              fixed_digits 2 (Z.to_nat width)
                (Reference.consume polynomial width dataWithCRC 0) |}.
Proof.
  intros Hw Hp Hd. destruct (Z.eq_dec width 31) as [-> | Hne].
  - apply verifyCRC_divide_31; assumption.
  - apply verifyCRC_divide; [lia | exact Hp | exact Hd].
Qed.

(** ** The registry *)

Section Registry.

Import ProblemSolver.

(** Every registry entry has a width between 1 and 30 and a polynomial of
    exactly [width + 1] significant bits, written out in [binaryStr]. *)
Lemma registry_entries (key : string) (cfg : CRCPolynomial) :
  In (key, cfg) CRC_POLYNOMIALS ->
  1 <= width cfg <= 30
  /\ 2 ^ width cfg <= polynomial cfg < 2 ^ (width cfg + 1)
  /\ lookup key CRC_POLYNOMIALS = Some cfg
  /\ padStart (toString (Int (polynomial cfg)) 2) (width cfg + 1) "0"
     = binaryStr cfg.
Proof.
  intros H. cbn [CRC_POLYNOMIALS In] in H.
  repeat (destruct H as [H | H]; [inversion H; subst; clear H|]);
    try contradiction;
    (split; [cbn; lia|]); (split; [cbn; lia|]);
    (split; vm_compute; reflexivity).
Qed.

End Registry.

(** ** Encoding and verification *)

Section Encoding.

Import Reference ProblemSolver.

(** C1 (round trip).  For every registry configuration and every non-empty
    binary string [d], [calculateCRC] returns a check field [crc], and
    verifying the unmodified codeword [d ++ crc] with [verifyCRC] gives an
    all-zero remainder and [isValid = true]. *)
Theorem roundtrip_registry (key : string) (cfg : CRCPolynomial) (d : string) :
  In (key, cfg) CRC_POLYNOMIALS ->
  test_plus is_bit d = true ->
  exists crc : string,
    calculateCRC d (polynomial cfg) (width cfg) = Normal crc
    /\ verifyCRC (d ++ crc) (polynomial cfg) (width cfg)
       = Normal {| isValid := true;
                   remainder := replicate (Z.to_nat (width cfg)) "0" |}.
Proof.
  intros Hin Hd.
  destruct (registry_entries key cfg Hin) as (Hw & Hp & _ & _).
  unfold test_plus in Hd. apply andb_true_iff in Hd. destruct Hd as [_ Hd].
  rewrite (calculateCRC_divide _ _ Hw Hp d Hd).
  eexists. split; [reflexivity|].
  rewrite (verifyCRC_divide _ _ Hw Hp)
    by (rewrite all_chars_append, Hd; apply fixed_digits_bits).
  rewrite (consume_codeword _ _ Hw Hp d), fixed_digits_zero.
  reflexivity.
Qed.

Lemma roundtrip_registry_witness :
  exists crc : string,
    calculateCRC "1010" 0x13 4 = Normal crc
    /\ verifyCRC ("1010" ++ crc) 0x13 4
       = Normal {| isValid := true; remainder := "0000" |}.
Proof.
  apply (roundtrip_registry "CRC-4"
           {| name := "CRC-4"; polynomial := 0x13; width := 4;
              binaryStr := "10011"; formula := "z⁴ + z + 1" |} "1010").
  - simpl. left. reflexivity.
  - reflexivity.
Defined.

(** The CRC-4 component runs the same loop with its constants inlined. *)
Lemma encoder_loop_register (bits rest : string) (i : nat) (r : Z)
    (steps : list CRCEncoder.EncodingStep) :
  fst (CRCEncoder.crc_loop bits rest i r steps) =
  crc_loop CRCEncoder.POLYNOMIAL CRCEncoder.CRC_WIDTH rest r.
Proof.
  revert i r steps. induction rest as [|c rest IH]; intros i r steps;
    [reflexivity|].
  cbn [CRCEncoder.crc_loop crc_loop]. rewrite IH. reflexivity.
Qed.

Lemma encoder_calculateCRC (data : string) :
  Normal (fst (CRCEncoder.calculateCRC data)) =
  calculateCRC data CRCEncoder.POLYNOMIAL CRCEncoder.CRC_WIDTH.
Proof.
  unfold CRCEncoder.calculateCRC, calculateCRC.
  change (repeat "0" CRCEncoder.CRC_WIDTH) with (Normal "0000"). cbn [bind].
  pose proof (encoder_loop_register (data ++ "0000") (data ++ "0000") 0 0 [])
    as E.
  destruct (CRCEncoder.crc_loop (data ++ "0000") (data ++ "0000") 0 0 [])
    as [register steps].
  cbn [fst] in *. rewrite <- E. reflexivity.
Qed.

(** C2, as stated, fails at width 32, the largest width the design document
    allows: the shift count of [1 << width] wraps to 0, so the loop tests
    bit 0 instead of bit 32, the mask [(1 << width) - 1] is 0, and both
    functions return 32 zeros where the reference division does not. *)
Lemma division_differs_at_width_32 :
  2 ^ 32 <= 0x104C11DB7 < 2 ^ (32 + 1)
  /\ all_chars is_bit "1101" = true
  /\ calculateCRC "1101" 0x104C11DB7 32
     = Normal "00000000000000000000000000000000"
  /\ divide ("1101" ++ replicate (Z.to_nat 32) "0") 0x104C11DB7 32
     = "00110001110011011000011011010011"
  /\ calculateCRC "1101" 0x104C11DB7 32
     <> Normal (divide ("1101" ++ replicate (Z.to_nat 32) "0") 0x104C11DB7 32)
  /\ verifyCRC "1" 0x104C11DB7 32
     = Normal {| isValid := true;
                 remainder := "00000000000000000000000000000000" |}
  /\ divide "1" 0x104C11DB7 32 = "00000000000000000000000000000001".
Proof.
  split; [simpl; lia|].
  split; [reflexivity|].
  split; [vm_compute; reflexivity|].
  split; [vm_compute; reflexivity|].
  split; [vm_compute; intros E; discriminate E|].
  split; vm_compute; reflexivity.
Qed.

(** C2, amended.  For a width between 1 and 31, a polynomial of
    [width + 1] significant bits and every binary input string, the loop of
    [verifyCRC] and [calculateCRC] computes the division of the design
    document: zero register, shift each bit in, XOR with the polynomial
    whenever bit [width] is set, and finally the low [width] bits written
    as exactly [width] characters ['0']/['1'].  The CRC-4 component
    computes the same division with polynomial 10011 and width 4. *)
Theorem division_follows_reference (polynomial width : Z) (bits : string) :
  1 <= width <= 31 ->
  2 ^ width <= polynomial < 2 ^ (width + 1) ->
  all_chars is_bit bits = true ->
  verifyCRC bits polynomial width
  = Normal {| isValid := (divide bits polynomial width
                          =? replicate (Z.to_nat width) "0")%string;
              remainder := divide bits polynomial width |}
  /\ calculateCRC bits polynomial width
     = Normal (divide (bits ++ replicate (Z.to_nat width) "0")
                      polynomial width)
  /\ fst (CRCEncoder.calculateCRC bits)
     = divide (bits ++ "0000") CRCEncoder.POLYNOMIAL CRCEncoder.CRC_WIDTH
  /\ String.length (divide bits polynomial width) = Z.to_nat width
  /\ all_chars is_bit (divide bits polynomial width) = true.
Proof.
  intros Hw Hp Hb.
  assert (1 <= width) as Hw1 by lia.
  assert (forall s, 0 <= consume polynomial width s 0 < 2 ^ width) as Hr.
  { intros s. assert (0 < 2 ^ width) by (apply Z.pow_pos_nonneg; lia).
    apply consume_range; lia. }
  rewrite !(divide_consume _ _ _ Hw1 Hp).
  split; [|split; [|split; [|split]]].
  - rewrite (verifyCRC_consume _ _ bits Hw Hp Hb).
    rewrite (fixed_digits_zero_eqb _ _ Hw1) by apply Hr. reflexivity.
  - apply (calculateCRC_consume _ _ bits Hw Hp Hb).
  - assert (1 <= CRCEncoder.CRC_WIDTH <= 30) as Hw4 by (cbv; split; discriminate).
    assert (2 ^ CRCEncoder.CRC_WIDTH <= CRCEncoder.POLYNOMIAL
            < 2 ^ (CRCEncoder.CRC_WIDTH + 1)) as Hp4
      by (cbv; split; [discriminate | reflexivity]).
    pose proof (encoder_calculateCRC bits) as E.
    rewrite (calculateCRC_divide _ _ Hw4 Hp4 bits Hb) in E.
    rewrite (divide_fixed _ _ Hw4 Hp4).
    apply Normal_inj. exact E.
  - apply fixed_digits_length.
  - apply fixed_digits_bits.
Qed.

Lemma division_follows_reference_witness :
  verifyCRC "11011000000000000000010010000001001" 0xC0000401 31
  = Normal {| isValid := (divide "11011000000000000000010010000001001"
                                 0xC0000401 31
                          =? replicate (Z.to_nat 31) "0")%string;
              remainder := divide "11011000000000000000010010000001001"
                                  0xC0000401 31 |}
  /\ calculateCRC "11011000000000000000010010000001001" 0xC0000401 31
     = Normal (divide ("11011000000000000000010010000001001"
                       ++ replicate (Z.to_nat 31) "0") 0xC0000401 31)
  /\ fst (CRCEncoder.calculateCRC "11011000000000000000010010000001001")
     = divide ("11011000000000000000010010000001001" ++ "0000")
              CRCEncoder.POLYNOMIAL CRCEncoder.CRC_WIDTH
  /\ String.length (divide "11011000000000000000010010000001001"
                           0xC0000401 31) = Z.to_nat 31
  /\ all_chars is_bit (divide "11011000000000000000010010000001001"
                              0xC0000401 31) = true.
Proof.
  apply (division_follows_reference 0xC0000401 31
           "11011000000000000000010010000001001").
  - lia.
  - simpl. lia.
  - reflexivity.
Defined.

(** C4 (CRC-4 fixture).  With polynomial 10011 and width 4, the data
    [1010] has the remainder [1101] in both components, and the codeword
    is [10101101]. *)
Theorem crc4_fixture :
  calculateCRC "1010" 0x13 4 = Normal "1101"
  /\ fst (CRCEncoder.calculateCRC "1010") = "1101"
  /\ handleEncode "CRC-4" binary "" "1010"
     = Normal (Encoded "1101" "10101101")
  /\ exists steps,
       CRCEncoder.handleEncode "1010" = Some ("1101", "10101101", steps).
Proof.
  repeat split; try (vm_compute; reflexivity).
  eexists. vm_compute. reflexivity.
Qed.

End Encoding.

(** ** Error injection and the undetectable vector *)

Section Errors.

Import ProblemSolver.

(** C5 (single-bit errors).  For the CRC-4 codeword [10101101] under
    polynomial 10011, flipping the bit at any one position 0..7 and
    verifying again gives [isValid = false], and [handleInjectError]
    reports "Error detected!". *)
Theorem single_bit_errors_detected (p : Z) :
  0 <= p <= 7 ->
  exists rem : string,
    verifyCRC (flipBits "10101101" [Int p]) 0x13 4
    = Normal {| isValid := false; remainder := rem |}
    /\ rem <> "0000"
    /\ handleInjectError "CRC-4" "10101101" (toString (Int p) 10)
       = Normal (Injected (flipBits "10101101" [Int p])
                   ("Remainder: " ++ rem ++ " (" ++ binaryToHex rem
                    ++ "h) - Error detected!")).
Proof.
  intros H.
  assert (p = 0 \/ p = 1 \/ p = 2 \/ p = 3 \/ p = 4 \/ p = 5 \/ p = 6 \/ p = 7)
    as K by lia.
  repeat (destruct K as [-> | K]); try subst p;
    eexists; (split; [vm_compute; reflexivity|]);
    (split; [discriminate | vm_compute; reflexivity]).
Qed.

Lemma single_bit_errors_detected_witness :
  exists rem : string,
    verifyCRC (flipBits "10101101" [Int 3]) 0x13 4
    = Normal {| isValid := false; remainder := rem |}
    /\ rem <> "0000"
    /\ handleInjectError "CRC-4" "10101101" (toString (Int 3) 10)
       = Normal (Injected (flipBits "10101101" [Int 3])
                   ("Remainder: " ++ rem ++ " (" ++ binaryToHex rem
                    ++ "h) - Error detected!")).
Proof. apply (single_bit_errors_detected 3). lia. Defined.

(** C6 (undetectable vector).  For every registry configuration the
    generated vector is the polynomial's binary representation, of length
    [width + 1], followed by three zero bits; it divides to an all-zero
    remainder, and [undetectableError] is set to [true]. *)
Theorem undetectable_vector_registry (key : string) (cfg : CRCPolynomial) :
  In (key, cfg) CRC_POLYNOMIALS ->
  let vector :=
    padStart (toString (Int (polynomial cfg)) 2) (width cfg + 1) "0"
    ++ "000" in
  handleGenerateErrorVector key
  = Normal {| errorVector := vector; undetectableError := true |}
  /\ vector = binaryStr cfg ++ "000"
  /\ Z.of_nat (String.length (binaryStr cfg)) = width cfg + 1
  /\ verifyCRC vector (polynomial cfg) (width cfg)
     = Normal {| isValid := true;
                 remainder := replicate (Z.to_nat (width cfg)) "0" |}.
Proof.
  intros H. cbn [CRC_POLYNOMIALS In] in H.
  repeat (destruct H as [H | H]; [inversion H; subst; clear H|]);
    try contradiction;
    repeat split; vm_compute; reflexivity.
Qed.

Lemma undetectable_vector_registry_witness :
  handleGenerateErrorVector "CRC-8"
  = Normal {| errorVector := "100000111000"; undetectableError := true |}
  /\ "100000111000" = "100000111" ++ "000"
  /\ Z.of_nat (String.length "100000111") = 8 + 1
  /\ verifyCRC "100000111000" 0x107 8
     = Normal {| isValid := true; remainder := "00000000" |}.
Proof.
  apply (undetectable_vector_registry "CRC-8"
           {| name := "CRC-8"; polynomial := 0x107; width := 8;
              binaryStr := "100000111"; formula := "z⁸ + z² + z + 1" |}).
  simpl. right. right. right. left. reflexivity.
Defined.

End Errors.

(** ** The flipping step *)

Section Flipping.

Import ProblemSolver.

Lemma length_list_ascii (s : string) :
  List.length (list_ascii_of_string s) = String.length s.
Proof. induction s as [|c s IH]; simpl; [reflexivity | now rewrite IH]. Qed.

Lemma length_of_list_ascii (l : list ascii) :
  String.length (string_of_list_ascii l) = List.length l.
Proof. induction l as [|c l IH]; simpl; [reflexivity | now rewrite IH]. Qed.

Lemma all_chars_list (p : ascii -> bool) (s : string) :
  all_chars p s = forallb p (list_ascii_of_string s).
Proof. induction s as [|c s IH]; simpl; [reflexivity | now rewrite IH]. Qed.

Lemma all_chars_of_list (p : ascii -> bool) (l : list ascii) :
  all_chars p (string_of_list_ascii l) = forallb p l.
Proof. induction l as [|c l IH]; simpl; [reflexivity | now rewrite IH]. Qed.

Lemma set_nth_length (i : nat) (x : ascii) (a : list ascii) :
  List.length (set_nth i x a) = List.length a.
Proof.
  revert i. induction a as [|y a IH]; intros [|i]; simpl; auto.
Qed.

Lemma nth_set_nth (i : nat) (x d : ascii) (a : list ascii) :
  (i < List.length a)%nat -> nth i (set_nth i x a) d = x.
Proof.
  revert i. induction a as [|y a IH]; intros [|i] H; simpl in *;
    try lia; auto. apply IH. lia.
Qed.

Lemma set_nth_twice (i : nat) (x y : ascii) (a : list ascii) :
  set_nth i y (set_nth i x a) = set_nth i y a.
Proof.
  revert i. induction a as [|z a IH]; intros [|i]; simpl; auto.
  now rewrite IH.
Qed.

Lemma set_nth_same (i : nat) (d : ascii) (a : list ascii) :
  (i < List.length a)%nat -> set_nth i (nth i a d) a = a.
Proof.
  revert i. induction a as [|z a IH]; intros [|i] H; simpl in *;
    try lia; auto. rewrite IH by lia. reflexivity.
Qed.

Lemma set_nth_forallb (p : ascii -> bool) (i : nat) (x : ascii)
    (a : list ascii) :
  p x = true -> forallb p a = true -> forallb p (set_nth i x a) = true.
Proof.
  intros Hx. revert i. induction a as [|z a IH]; intros [|i] H; simpl in *;
    auto; apply andb_true_iff in H; destruct H as [H1 H2];
    apply andb_true_iff; auto.
Qed.

Lemma flip_char_bit (c : ascii) : is_bit (flip_char c) = true.
Proof. unfold flip_char. destruct (Ascii.eqb c "0"); reflexivity. Qed.

Lemma flip_char_twice (c : ascii) :
  is_bit c = true -> flip_char (flip_char c) = c.
Proof. intros H. destruct (is_bit_cases c H) as [-> | ->]; reflexivity. Qed.

Lemma in_range_int (len : nat) (pos : number) :
  in_range len pos = true ->
  exists p : Z, pos = Int p /\ 0 <= p < Z.of_nat len.
Proof.
  unfold in_range, num_ge. intros H. apply andb_true_iff in H.
  destruct H as [H1 H2]. destruct pos as [p | | [|]]; simpl in *;
    try discriminate.
  exists p. split; [reflexivity | lia].
Qed.

(** The callback either skips the position or rewrites one cell. *)
Lemma flip_at_cases (a : list ascii) (pos : number) :
  (in_range (List.length a) pos = false /\ flip_at a pos = a)
  \/ exists i : nat,
       (i < List.length a)%nat /\ pos = Int (Z.of_nat i)
       /\ in_range (List.length a) pos = true
       /\ flip_at a pos = set_nth i (flip_char (nth i a "0"%char)) a.
Proof.
  unfold flip_at. fold (in_range (List.length a) pos).
  destruct (in_range (List.length a) pos) eqn:E; [right | left; auto].
  destruct (in_range_int _ _ E) as (p & -> & Hp).
  exists (Z.to_nat p). rewrite Z2Nat.id by lia.
  repeat split; auto. lia.
Qed.

Lemma flip_at_length (a : list ascii) (pos : number) :
  List.length (flip_at a pos) = List.length a.
Proof.
  destruct (flip_at_cases a pos) as [[_ ->] | (i & _ & _ & _ & ->)];
    [reflexivity | apply set_nth_length].
Qed.

Lemma flip_at_bits (a : list ascii) (pos : number) :
  forallb is_bit a = true -> forallb is_bit (flip_at a pos) = true.
Proof.
  intros H.
  destruct (flip_at_cases a pos) as [[_ ->] | (i & _ & _ & _ & ->)];
    [exact H | apply set_nth_forallb; [apply flip_char_bit | exact H]].
Qed.

Lemma flip_at_twice (a : list ascii) (pos : number) :
  forallb is_bit a = true -> flip_at (flip_at a pos) pos = a.
Proof.
  intros H.
  destruct (flip_at_cases a pos) as [[E Ha] | (i & Hi & Hp & E & Ha)].
  - rewrite Ha. exact Ha.
  - destruct (flip_at_cases (flip_at a pos) pos)
      as [[E' _] | (j & Hj & Hp' & _ & ->)].
    + rewrite flip_at_length, E in E'. discriminate.
    + assert (j = i) as -> by (rewrite Hp in Hp'; injection Hp'; lia).
      rewrite Ha, nth_set_nth, set_nth_twice by exact Hi.
      rewrite flip_char_twice.
      * apply set_nth_same. exact Hi.
      * rewrite forallb_forall in H. apply H, nth_In. exact Hi.
Qed.

Lemma flips_length (positions : list number) (a : list ascii) :
  List.length (fold_left flip_at positions a) = List.length a.
Proof.
  revert a. induction positions as [|pos positions IH]; intros a;
    [reflexivity|].
  cbn [fold_left]. rewrite IH. apply flip_at_length.
Qed.

Lemma flips_bits (positions : list number) (a : list ascii) :
  forallb is_bit a = true ->
  forallb is_bit (fold_left flip_at positions a) = true.
Proof.
  revert a. induction positions as [|pos positions IH]; intros a H;
    [exact H|].
  cbn [fold_left]. apply IH, flip_at_bits, H.
Qed.

(** Positions that fail the guard can be dropped from the list. *)
Lemma flips_filter (positions : list number) (a : list ascii) :
  fold_left flip_at positions a =
  fold_left flip_at (filter (in_range (List.length a)) positions) a.
Proof.
  revert a. induction positions as [|pos positions IH]; intros a;
    [reflexivity|].
  cbn [fold_left filter]. rewrite IH, flip_at_length.
  destruct (flip_at_cases a pos) as [[E Ha] | (i & _ & _ & E & _)];
    rewrite E; [rewrite Ha|]; reflexivity.
Qed.

Lemma flips_even (pos : number) (k : nat) (a : list ascii) :
  forallb is_bit a = true ->
  fold_left flip_at (List.repeat pos (2 * k)) a = a.
Proof.
  intros H. induction k as [|k IH]; [reflexivity|].
  replace (2 * S k)%nat with (S (S (2 * k))) by lia.
  cbn [List.repeat fold_left]. rewrite flip_at_twice by exact H. exact IH.
Qed.

(** C9 (idempotence).  For every binary codeword and every position,
    flipping the same position twice, or any even number of times in one
    position list, gives back the original codeword. *)
Theorem flip_twice_restores (codeword : string) (pos : number) (k : nat) :
  all_chars is_bit codeword = true ->
  flipBits (flipBits codeword [pos]) [pos] = codeword
  /\ flipBits codeword [pos; pos] = codeword
  /\ flipBits codeword (List.repeat pos (2 * k)) = codeword.
Proof.
  intros H. rewrite all_chars_list in H. unfold flipBits.
  repeat split.
  - rewrite list_ascii_of_string_of_list_ascii. cbn [fold_left].
    rewrite flip_at_twice by exact H.
    apply string_of_list_ascii_of_string.
  - cbn [fold_left]. rewrite flip_at_twice by exact H.
    apply string_of_list_ascii_of_string.
  - rewrite flips_even by exact H.
    apply string_of_list_ascii_of_string.
Qed.

Lemma flip_twice_restores_witness :
  flipBits (flipBits "10101101" [Int 2]) [Int 2] = "10101101"
  /\ flipBits "10101101" [Int 2; Int 2] = "10101101"
  /\ flipBits "10101101" (List.repeat (Int 2) (2 * 3)) = "10101101".
Proof. apply (flip_twice_restores "10101101" (Int 2) 3). reflexivity. Defined.

(** C10 (shape).  For every binary codeword and every list of positions,
    the flipping step returns a string of the same length made of ['0'] and
    ['1'] only; positions that are negative or not below the length are
    skipped, so they leave the codeword as it is. *)
Theorem flipBits_shape (codeword : string) (positions : list number) :
  all_chars is_bit codeword = true ->
  String.length (flipBits codeword positions) = String.length codeword
  /\ all_chars is_bit (flipBits codeword positions) = true
  /\ flipBits codeword positions
     = flipBits codeword
         (filter (in_range (String.length codeword)) positions)
  /\ (forall p : Z,
        p < 0 \/ Z.of_nat (String.length codeword) <= p ->
        flipBits codeword [Int p] = codeword).
Proof.
  intros H. rewrite all_chars_list in H. unfold flipBits.
  repeat split.
  - rewrite length_of_list_ascii, flips_length. apply length_list_ascii.
  - rewrite all_chars_of_list. apply flips_bits, H.
  - rewrite <- length_list_ascii. f_equal. apply flips_filter.
  - intros p Hp. cbn [fold_left].
    destruct (flip_at_cases (list_ascii_of_string codeword) (Int p))
      as [[_ ->] | (i & Hi & Hq & _ & _)].
    + apply string_of_list_ascii_of_string.
    + rewrite length_list_ascii in Hi. injection Hq as ->. lia.
Qed.

Lemma flipBits_shape_witness :
  String.length (flipBits "10101101" [Int 2; Int (-1); Int 8; Int 5])
  = String.length "10101101"
  /\ all_chars is_bit (flipBits "10101101" [Int 2; Int (-1); Int 8; Int 5])
     = true
  /\ flipBits "10101101" [Int 2; Int (-1); Int 8; Int 5]
     = flipBits "10101101"
         (filter (in_range (String.length "10101101"))
                 [Int 2; Int (-1); Int 8; Int 5])
  /\ (forall p : Z,
        p < 0 \/ Z.of_nat (String.length "10101101") <= p ->
        flipBits "10101101" [Int p] = "10101101").
Proof.
  apply (flipBits_shape "10101101" [Int 2; Int (-1); Int 8; Int 5]).
  reflexivity.
Defined.

End Flipping.

(** ** Verification in the CRC-4 component *)

Section Verification.

Import Reference.

Lemma substring_all (s : string) : substring 0 (String.length s) s = s.
Proof. induction s as [|c s IH]; simpl; [reflexivity | now rewrite IH]. Qed.

Lemma substring_split (s : string) (k : nat) :
  (k <= String.length s)%nat ->
  s = substring 0 k s ++ substring k (String.length s - k) s.
Proof.
  revert k. induction s as [|c s IH]; intros [|k] H; simpl in *;
    try lia; try reflexivity.
  - now rewrite substring_all.
  - f_equal. apply IH. lia.
Qed.

Lemma substring_prefix_length (s : string) (k : nat) :
  (k <= String.length s)%nat -> String.length (substring 0 k s) = k.
Proof.
  revert k. induction s as [|c s IH]; intros [|k] H; simpl in *;
    try lia; try reflexivity.
  rewrite IH by lia. reflexivity.
Qed.

(** [s.slice(0, -4)] and [s.slice(-4)] cut a string of four or more
    characters before its last four. *)
Lemma slice_last4 (s : string) :
  (4 <= String.length s)%nat ->
  let k := (String.length s - 4)%nat in
  slice s 0 (-4) = substring 0 k s
  /\ slice_from s (-4) = substring k (String.length s - k) s.
Proof.
  intros H k. unfold slice_from, slice, clamp_index.
  set (len := Z.of_nat (String.length s)).
  assert (4 <= len) by (subst len; lia).
  change (0 <? 0) with false. change (-4 <? 0) with true. cbv iota.
  destruct (Z.ltb_spec len 0); [lia|].
  replace (Z.to_nat (Z.min 0 len)) with 0%nat by lia.
  replace (Z.to_nat (Z.max (len + -4) 0)) with k by (subst k len; lia).
  replace (Z.to_nat (Z.min len len)) with (String.length s)
    by (subst len; lia).
  rewrite Nat.sub_0_r. auto.
Qed.

Lemma crc4_width : 1 <= CRCEncoder.CRC_WIDTH <= 30.
Proof. cbv. split; discriminate. Qed.

Lemma crc4_polynomial :
  2 ^ CRCEncoder.CRC_WIDTH <= CRCEncoder.POLYNOMIAL
  < 2 ^ (CRCEncoder.CRC_WIDTH + 1).
Proof. cbv. split; [discriminate | reflexivity]. Qed.

(** C3 (two verification procedures).  For every binary codeword of at
    least [CRC_WIDTH] bits, [handleVerify] of the CRC-4 component
    (recompute the CRC of all but the last four bits and compare it with
    the last four) sets [isValid] to the value that [verifyCRC] computes by
    dividing the whole codeword, which is [true] exactly when the remainder
    is all zeros. *)
Theorem verification_procedures_agree (codeword : string) :
  all_chars is_bit codeword = true ->
  CRCEncoder.CRC_WIDTH <= Z.of_nat (String.length codeword) ->
  exists v : ProblemSolver.Verification,
    ProblemSolver.verifyCRC codeword CRCEncoder.POLYNOMIAL
                            CRCEncoder.CRC_WIDTH = Normal v
    /\ CRCEncoder.handleVerify codeword = Some (ProblemSolver.isValid v)
    /\ ProblemSolver.isValid v
       = (ProblemSolver.remainder v =? "0000")%string.
Proof.
  intros Hb Hlen. change CRCEncoder.CRC_WIDTH with 4 in Hlen.
  rewrite (verifyCRC_divide _ _ crc4_width crc4_polynomial codeword Hb).
  eexists. split; [reflexivity|]. cbn [ProblemSolver.isValid
                                       ProblemSolver.remainder].
  assert (0 <= consume CRCEncoder.POLYNOMIAL CRCEncoder.CRC_WIDTH codeword 0
          < 2 ^ CRCEncoder.CRC_WIDTH) as Hr
    by (apply consume_range;
        [exact (proj1 crc4_width) | exact crc4_polynomial
        | cbv; split; [discriminate | reflexivity]]).
  split.
  - unfold CRCEncoder.handleVerify.
    assert (test_plus is_bit codeword = true) as ->.
    { unfold test_plus. rewrite Hb, andb_true_r.
      destruct codeword; [simpl in Hlen; lia | reflexivity]. }
    change CRCEncoder.CRC_WIDTH with 4 at 1 2 3.
    destruct (Z.ltb_spec (Z.of_nat (String.length codeword)) 4); [lia|].
    cbn [negb orb]. change (- (4)) with (-4).
    destruct (slice_last4 codeword ltac:(lia)) as [-> ->].
    set (k := (String.length codeword - 4)%nat).
    set (d := substring 0 k codeword).
    set (c := substring k (String.length codeword - k) codeword).
    assert (codeword = d ++ c) as Hsplit
      by (apply substring_split; subst k; lia).
    assert (String.length d = k) as Hd
      by (apply substring_prefix_length; subst k; lia).
    assert (String.length c = 4%nat) as Hc.
    { pose proof (f_equal String.length Hsplit) as L.
      rewrite length_append, Hd in L. subst k. lia. }
    assert (all_chars is_bit d = true /\ all_chars is_bit c = true)
      as [Bd Bc].
    { rewrite Hsplit, all_chars_append in Hb.
      apply andb_true_iff in Hb. exact Hb. }
    pose proof (encoder_calculateCRC d) as E.
    rewrite (calculateCRC_divide _ _ crc4_width crc4_polynomial d Bd) in E.
    destruct (CRCEncoder.calculateCRC d) as [calculatedCRC steps].
    cbn [fst] in E. apply Normal_inj in E. rewrite E.
    rewrite (compare_is_divide _ _ crc4_width crc4_polynomial d c Bc Hc).
    rewrite <- Hsplit. reflexivity.
  - symmetry.
    apply (remainder_zero_eqb _ crc4_width). exact Hr.
Qed.

Lemma verification_procedures_agree_witness :
  exists v : ProblemSolver.Verification,
    ProblemSolver.verifyCRC "10101101" CRCEncoder.POLYNOMIAL
                            CRCEncoder.CRC_WIDTH = Normal v
    /\ CRCEncoder.handleVerify "10101101" = Some (ProblemSolver.isValid v)
    /\ ProblemSolver.isValid v
       = (ProblemSolver.remainder v =? "0000")%string.
Proof.
  apply (verification_procedures_agree "10101101").
  - reflexivity.
  - cbv. discriminate.
Defined.

End Verification.

(** ** Where input is validated *)

Section Validation.

Import ProblemSolver.

(** C8, as stated, fails: the division functions return a remainder for a
    bit string that contains ['a'], for width 0 and for width 33. *)
Lemma division_accepts_invalid_input :
  all_chars is_bit "1a" = false
  /\ calculateCRC "1a" 0x13 4 = Normal "0110"
  /\ verifyCRC "1a" 0x13 4 = Normal {| isValid := false; remainder := "0010" |}
  /\ calculateCRC "1" 0x13 0 = Normal "0"
  /\ calculateCRC "1011" 0x13 33
     = Normal "000000000000000000000000000000001".
Proof. repeat split; vm_compute; reflexivity. Qed.

(** [parseInt] of a character that is not a decimal digit is [NaN], and
    [|] reads it as 0. *)
Lemma parseInt_non_digit (c : ascii) :
  is_radix_digit 10 c = false -> ToInt32 (parseInt (String c "") 0) = 0.
Proof.
  destruct c as [[] [] [] [] [] [] [] []]; intros H;
    vm_compute in H; try discriminate H; vm_compute; reflexivity.
Qed.

Lemma crc_step_non_digit (polynomial width r : Z) (c : ascii) :
  crc_step polynomial width r (if is_radix_digit 10 c then c else "0"%char)
  = crc_step polynomial width r c.
Proof.
  destruct (is_radix_digit 10 c) eqn:E; [reflexivity|].
  unfold crc_step. rewrite (parseInt_non_digit c E).
  change (ToInt32 (parseInt "0" 0)) with 0. reflexivity.
Qed.

Lemma crc_loop_non_digits (polynomial width : Z) (bits : string) (r : Z) :
  crc_loop polynomial width (non_digits_as_zero bits) r
  = crc_loop polynomial width bits r.
Proof.
  revert r. induction bits as [|c bits IH]; intros r; [reflexivity|].
  cbn [non_digits_as_zero crc_loop]. rewrite crc_step_non_digit. apply IH.
Qed.

Lemma non_digits_as_zero_append (a b : string) :
  non_digits_as_zero (a ++ b) = non_digits_as_zero a ++ non_digits_as_zero b.
Proof.
  induction a as [|c a IH]; [reflexivity|].
  cbn [append non_digits_as_zero]. now rewrite IH.
Qed.

Lemma non_digits_as_zero_zeros (n : nat) :
  non_digits_as_zero (replicate n "0") = replicate n "0".
Proof.
  induction n as [|n IH]; [reflexivity|].
  cbn [replicate append non_digits_as_zero]. now rewrite IH.
Qed.

(** C8, amended.  The division functions validate nothing and have no
    failure for an invalid text or width.  For every string, every
    polynomial and every width from 0 on, as long as the text followed by
    [width] zeros fits in a string, they return a result: the one they
    return for the text with each character that is not a decimal digit
    replaced by ['0'].  A text that is not a non-empty string of binary (or,
    in hex mode, hexadecimal) digits is rejected by the handlers that call
    them, before any division: [handleEncode] leaves an error toast whatever
    the selected configuration, and the CRC-4 handlers return without
    setting any state. *)
Theorem validation_is_in_the_handlers
    (bits : string) (polynomial width : Z) :
  0 <= width ->
  Z.of_nat (String.length bits) + width <= max_string_length ->
  (exists crc : string,
     calculateCRC bits polynomial width = Normal crc
     /\ calculateCRC (non_digits_as_zero bits) polynomial width = Normal crc)
  /\ (exists v : Verification,
        verifyCRC bits polynomial width = Normal v
        /\ verifyCRC (non_digits_as_zero bits) polynomial width = Normal v)
  /\ (test_plus is_bit bits = false ->
      (forall key hexInput : string,
         handleEncode key binary hexInput bits
         = Normal (EncodeRejected "Invalid binary input"))
      /\ CRCEncoder.handleEncode bits = None
      /\ CRCEncoder.handleVerify bits = None)
  /\ (test_plus is_hex_digit bits = false ->
      forall key binaryInput : string,
        handleEncode key hex bits binaryInput
        = Normal (EncodeRejected "Invalid hex input")).
Proof.
  intros Hw Hfit.
  assert (repeat "0" width = Normal (replicate (Z.to_nat width) "0")) as R
    by (apply repeat_within; lia).
  split; [|split; [|split]].
  - unfold calculateCRC. rewrite R. cbn [bind].
    eexists. split; [reflexivity|].
    rewrite <- (crc_loop_non_digits polynomial width (bits ++ _)).
    rewrite non_digits_as_zero_append, non_digits_as_zero_zeros.
    reflexivity.
  - unfold verifyCRC. rewrite R. cbn [bind].
    eexists. split; [reflexivity|].
    rewrite crc_loop_non_digits. reflexivity.
  - intros H. split; [|split].
    + intros key hexInput. unfold handleEncode. rewrite H. reflexivity.
    + unfold CRCEncoder.handleEncode. rewrite H. reflexivity.
    + unfold CRCEncoder.handleVerify. rewrite H. reflexivity.
  - intros H key binaryInput. unfold handleEncode. rewrite H. reflexivity.
Qed.

Lemma validation_is_in_the_handlers_witness :
  (exists crc : string,
     calculateCRC "1g" 0x13 4 = Normal crc
     /\ calculateCRC (non_digits_as_zero "1g") 0x13 4 = Normal crc)
  /\ (exists v : Verification,
        verifyCRC "1g" 0x13 4 = Normal v
        /\ verifyCRC (non_digits_as_zero "1g") 0x13 4 = Normal v)
  /\ (test_plus is_bit "1g" = false ->
      (forall key hexInput : string,
         handleEncode key binary hexInput "1g"
         = Normal (EncodeRejected "Invalid binary input"))
      /\ CRCEncoder.handleEncode "1g" = None
      /\ CRCEncoder.handleVerify "1g" = None)
  /\ (test_plus is_hex_digit "1g" = false ->
      forall key binaryInput : string,
        handleEncode key hex "1g" binaryInput
        = Normal (EncodeRejected "Invalid hex input")).
Proof.
  apply (validation_is_in_the_handlers "1g" 0x13 4).
  - lia.
  - unfold max_string_length. simpl. lia.
Defined.

End Validation.

(** ** Reading numerals *)

Section Numerals.

Variable radix : Z.
Hypothesis radix_range : 2 <= radix <= 36.

Lemma is_radix_digit_value (c : ascii) :
  is_radix_digit radix c = true ->
  exists d : Z,
    radix_digit radix c = Some d /\ 0 <= d < radix
    /\ canonical_digit c = digit_char d.
Proof.
  unfold is_radix_digit. destruct (radix_digit radix c) as [d|] eqn:E;
    [intros _ | discriminate].
  exists d. split; [reflexivity|]. split; [now apply radix_digit_bounds in E|].
  unfold radix_digit in E. unfold canonical_digit.
  destruct (digit_value c) as [d'|]; [|discriminate].
  destruct (d' <? radix); [|discriminate]. now injection E as ->.
Qed.

Lemma shift_digit_div (acc d : Z) :
  0 <= d < radix -> (acc * radix + d) / radix = acc.
Proof.
  intros H. symmetry. apply Z.div_unique with d; lia.
Qed.

Lemma shift_digit_mod (acc d : Z) :
  0 <= d < radix -> (acc * radix + d) mod radix = d.
Proof.
  intros H. symmetry. apply Z.mod_unique with acc; lia.
Qed.

(** Reading a string of digits, and writing the result back. *)
Lemma parse_numeral (s : string) (seen : bool) (acc : Z) :
  all_chars (is_radix_digit radix) s = true -> 0 <= acc ->
  fst (parse_digits radix s seen acc) = seen || negb (s =? "")%string
  /\ 0 <= snd (parse_digits radix s seen acc)
  /\ snd (parse_digits radix s seen acc) / radix ^ Z.of_nat (String.length s)
     = acc
  /\ fixed_digits radix (String.length s) (snd (parse_digits radix s seen acc))
     = canonical s.
Proof.
  revert seen acc. induction s as [|c s IH]; intros seen acc Hs Hacc.
  - simpl. rewrite orb_false_r, Z.div_1_r. auto.
  - cbn [all_chars] in Hs. apply andb_true_iff in Hs. destruct Hs as [Hc Hs].
    destruct (is_radix_digit_value c Hc) as (d & E & Hd & Hcan).
    cbn [parse_digits String.length fixed_digits canonical]. rewrite E.
    destruct (IH true (acc * radix + d) Hs ltac:(nia))
      as (I1 & I2 & I3 & I4).
    split; [rewrite I1; simpl; now rewrite orb_true_r|].
    split; [exact I2|]. split.
    + rewrite Nat2Z.inj_succ, Z.pow_succ_r by lia.
      rewrite (Z.mul_comm radix), <- Z.div_div, I3
        by (try apply Z.pow_nonzero; lia).
      now apply shift_digit_div.
    + rewrite I4, I3, shift_digit_mod, Hcan by exact Hd. reflexivity.
Qed.

(** Reading a fixed-width numeral. *)
Lemma parse_fixed (n : nat) (z : Z) (seen : bool) (acc : Z) :
  parse_digits radix (fixed_digits radix n z) seen acc
  = (seen || negb (Nat.eqb n 0),
     acc * radix ^ Z.of_nat n + z mod radix ^ Z.of_nat n).
Proof.
  revert seen acc. induction n as [|n IH]; intros seen acc.
  - simpl. rewrite orb_false_r, Z.mod_1_r. f_equal. lia.
  - cbn [fixed_digits parse_digits].
    rewrite (radix_digit_char radix radix_range)
      by (apply Z.mod_pos_bound; lia).
    rewrite IH. f_equal; [simpl; now rewrite orb_true_r|].
    rewrite Nat2Z.inj_succ, Z.pow_succ_r by lia.
    rewrite (Z.mul_comm radix (radix ^ Z.of_nat n)).
    rewrite (Z.rem_mul_r z (radix ^ Z.of_nat n) radix)
      by (try apply Z.pow_nonzero; lia).
    ring.
Qed.

Lemma fixed_digits_radix (n : nat) (z : Z) :
  all_chars (is_radix_digit radix) (fixed_digits radix n z) = true.
Proof.
  induction n as [|n IH]; [reflexivity|].
  cbn [fixed_digits all_chars]. rewrite IH, andb_true_r.
  unfold is_radix_digit.
  rewrite (radix_digit_char radix radix_range)
    by (apply Z.mod_pos_bound; lia).
  reflexivity.
Qed.

End Numerals.

(** ** Hexadecimal and binary text *)

Section Characters.

Ltac each_char c :=
  destruct c as [[] [] [] [] [] [] [] []].

Lemma upper_canonical (c : ascii) :
  upper_char (canonical_digit c) = upper_char c.
Proof. each_char c; vm_compute; reflexivity. Qed.

Lemma digit_not_space (c : ascii) :
  digit_value c <> None -> is_whitespace c = false.
Proof.
  each_char c; intros H; try reflexivity; exfalso; apply H;
    vm_compute; reflexivity.
Qed.

Lemma strip_sign_digit (c : ascii) (s : string) :
  digit_value c <> None -> strip_sign (String c s) = (1, String c s).
Proof.
  each_char c; intros H; try reflexivity; exfalso; apply H;
    vm_compute; reflexivity.
Qed.

Lemma digit_zero (c : ascii) : digit_value c = Some 0 -> c = "0"%char.
Proof. each_char c; intros H; try reflexivity; vm_compute in H; discriminate. Qed.

Lemma strip_hex_prefix_digits (s : string) :
  all_chars is_hex_digit s = true -> strip_hex_prefix s = None.
Proof.
  destruct s as [|c [|c2 s2]]; [reflexivity | |].
  - intros _. each_char c; reflexivity.
  - cbn [all_chars]. intros H.
    apply andb_true_iff in H. destruct H as [_ H].
    apply andb_true_iff in H. destruct H as [H _].
    each_char c; try reflexivity.
    each_char c2; try reflexivity; vm_compute in H; discriminate.
Qed.

Lemma toUpperCase_canonical (s : string) :
  toUpperCase (canonical s) = toUpperCase s.
Proof.
  induction s as [|c s IH]; [reflexivity|].
  cbn [canonical toUpperCase]. now rewrite upper_canonical, IH.
Qed.

Lemma radix_digit_known (radix : Z) (c : ascii) :
  is_radix_digit radix c = true -> digit_value c <> None.
Proof.
  unfold is_radix_digit, radix_digit.
  destruct (digit_value c); [discriminate | discriminate].
Qed.

End Characters.

Section Doubles.

(** Integers below 2^53 are doubles. *)
Lemma to_double_exact (v : Z) : 0 <= v < 2 ^ 53 -> to_double v = Int v.
Proof.
  intros H. unfold to_double, round53. rewrite Z.abs_eq by lia.
  destruct (Z.ltb_spec v (2 ^ 53)) as [_ | ?]; [|lia].
  assert (2 ^ 53 < 2 ^ 1024) by (apply Z.pow_lt_mono_r; lia).
  destruct (Z.leb_spec (2 ^ 1024) v) as [? | _]; [lia|].
  f_equal. destruct v as [|p|p]; [reflexivity | | lia].
  rewrite Z.sgn_pos by lia. apply Z.mul_1_l.
Qed.

(** [parseInt] on a non-empty string of binary or hexadecimal digits. *)
Lemma parseInt_numeral (radix : Z) (s : string) :
  radix = 2 \/ radix = 16 ->
  test_plus (is_radix_digit radix) s = true ->
  parseInt s radix = to_double (numeral_value radix s).
Proof.
  intros Hr Hs. unfold test_plus in Hs. apply andb_true_iff in Hs.
  destruct Hs as [Hne Hs].
  destruct s as [|c s]; [discriminate|].
  assert (digit_value c <> None) as Hc.
  { cbn [all_chars] in Hs. apply andb_true_iff in Hs.
    apply (radix_digit_known radix), Hs. }
  assert (2 <= radix <= 36) as Hrange by (destruct Hr; subst; lia).
  destruct (parse_numeral radix Hrange (String c s) false 0 Hs ltac:(lia))
    as (F & _).
  unfold parseInt, numeral_value. cbn [skip_whitespace].
  rewrite digit_not_space, strip_sign_digit by exact Hc.
  destruct (parse_digits radix (String c s) false 0) as [seen v] eqn:E.
  cbn [fst snd] in *. subst seen.
  destruct Hr as [-> | ->].
  - change (wrap32 2) with 2. cbv beta iota zeta.
    change (2 =? 0) with false. change (2 <? 2) with false.
    change (36 <? 2) with false. change (2 =? 16) with false.
    cbn [negb andb orb]. rewrite E. cbn [orb negb]. now rewrite Z.mul_1_l.
  - change (wrap32 16) with 16. cbv beta iota zeta.
    change (16 =? 0) with false. change (16 <? 2) with false.
    change (36 <? 16) with false. change (16 =? 16) with true.
    cbn [negb andb orb].
    rewrite (strip_hex_prefix_digits (String c s) Hs).
    rewrite E. cbn [orb negb]. now rewrite Z.mul_1_l.
Qed.

End Doubles.

Section HexBinary.

Import ProblemSolver.

Lemma radix2 : 2 <= 2 <= 36.
Proof. lia. Qed.

Lemma radix16 : 2 <= 16 <= 36.
Proof. lia. Qed.

(** The bits of a valid hexadecimal text below 2^53: four per digit. *)
Lemma hexToBinary_fixed (h : string) :
  test_plus is_hex_digit h = true ->
  numeral_value 16 h < 2 ^ 53 ->
  hexToBinary h
  = fixed_digits 2 (4 * String.length h) (numeral_value 16 h)
  /\ 0 <= numeral_value 16 h < 2 ^ Z.of_nat (4 * String.length h).
Proof.
  intros Hh Hv.
  pose proof Hh as Hs. unfold test_plus in Hs. apply andb_true_iff in Hs.
  destruct Hs as [Hne Hs].
  destruct (parse_numeral 16 radix16 h false 0 Hs ltac:(lia))
    as (_ & V0 & Vq & _).
  fold (numeral_value 16 h) in V0, Vq.
  set (v := numeral_value 16 h) in *.
  set (n := String.length h) in *.
  assert (0 < 16 ^ Z.of_nat n) as P by (apply Z.pow_pos_nonneg; lia).
  assert (v < 16 ^ Z.of_nat n) as Vub.
  { apply Z.div_small_iff in Vq; lia. }
  assert (2 ^ Z.of_nat (4 * n) = 16 ^ Z.of_nat n) as Epow.
  { rewrite Nat2Z.inj_mul, Z.pow_mul_r by lia. reflexivity. }
  assert (1 <= n)%nat as Hn.
  { subst n. destruct h; [discriminate | simpl; lia]. }
  split; [|lia].
  unfold hexToBinary.
  rewrite (parseInt_numeral 16 h (or_intror eq_refl) Hh).
  fold v. rewrite to_double_exact by lia.
  unfold toString. destruct (Z.ltb_spec v 0); [lia|].
  replace (Z.of_nat (String.length h) * 4) with (Z.of_nat (4 * n))
    by (subst n; lia).
  apply (padStart_nat_digits 2 radix2); lia.
Qed.

(** Every integer up to 2^53 is a double. *)
Lemma to_double_upto_2_53 (v : Z) : 0 <= v <= 2 ^ 53 -> to_double v = Int v.
Proof.
  intros H. destruct (Z.eq_dec v (2 ^ 53)) as [-> | Hne].
  - vm_compute. reflexivity.
  - apply to_double_exact. lia.
Qed.

(** The bits of a valid hexadecimal text whose value is a double: four per
    digit. *)
Lemma hexToBinary_exact (h : string) :
  test_plus is_hex_digit h = true ->
  to_double (numeral_value 16 h) = Int (numeral_value 16 h) ->
  hexToBinary h
  = fixed_digits 2 (4 * String.length h) (numeral_value 16 h)
  /\ 0 <= numeral_value 16 h < 2 ^ Z.of_nat (4 * String.length h).
Proof.
  intros Hh Hx.
  pose proof Hh as Hs. unfold test_plus in Hs. apply andb_true_iff in Hs.
  destruct Hs as [Hne Hs].
  destruct (parse_numeral 16 radix16 h false 0 Hs ltac:(lia))
    as (_ & V0 & Vq & _).
  fold (numeral_value 16 h) in V0, Vq.
  set (v := numeral_value 16 h) in *.
  set (n := String.length h) in *.
  assert (0 < 16 ^ Z.of_nat n) as P by (apply Z.pow_pos_nonneg; lia).
  assert (v < 16 ^ Z.of_nat n) as Vub.
  { apply Z.div_small_iff in Vq; lia. }
  assert (2 ^ Z.of_nat (4 * n) = 16 ^ Z.of_nat n) as Epow.
  { rewrite Nat2Z.inj_mul, Z.pow_mul_r by lia. reflexivity. }
  assert (1 <= n)%nat as Hn.
  { subst n. destruct h; [discriminate | simpl; lia]. }
  split; [|lia].
  unfold hexToBinary.
  rewrite (parseInt_numeral 16 h (or_intror eq_refl) Hh).
  fold v. rewrite Hx.
  unfold toString. destruct (Z.ltb_spec v 0); [lia|].
  replace (Z.of_nat (String.length h) * 4) with (Z.of_nat (4 * n))
    by (subst n; lia).
  apply (padStart_nat_digits 2 radix2); lia.
Qed.

(** Through both conversions a text becomes the shortest upper-case numeral
    of its value. *)
Lemma hex_roundtrip_value (h : string) :
  test_plus is_hex_digit h = true ->
  to_double (numeral_value 16 h) = Int (numeral_value 16 h) ->
  binaryToHex (hexToBinary h)
  = toUpperCase (nat_digits 16 (numeral_value 16 h)).
Proof.
  intros Hh Hx.
  destruct (hexToBinary_exact h Hh Hx) as [-> [V0 Vub]].
  set (v := numeral_value 16 h) in *.
  set (n := String.length h) in *.
  assert (1 <= n)%nat as Hn.
  { subst n. destruct h; [discriminate | simpl; lia]. }
  unfold binaryToHex.
  assert (test_plus (is_radix_digit 2) (fixed_digits 2 (4 * n) v) = true)
    as Hbits.
  { unfold test_plus. rewrite (fixed_digits_radix 2 radix2), andb_true_r.
    destruct (4 * n)%nat eqn:E4; [lia | reflexivity]. }
  rewrite (parseInt_numeral 2 _ (or_introl eq_refl) Hbits).
  unfold numeral_value. rewrite (parse_fixed 2 radix2). cbn [snd].
  rewrite Z.mul_0_l, Z.add_0_l, Z.mod_small by lia.
  rewrite Hx. unfold toString.
  destruct (Z.ltb_spec v 0); [lia | reflexivity].
Qed.

(** A numeral without leading zero is the shortest one of its value. *)
Lemma shortest_canonical (h : string) :
  test_plus is_hex_digit h = true ->
  no_leading_zero h = true ->
  nat_digits 16 (numeral_value 16 h) = canonical h.
Proof.
  intros Hh Hz.
  pose proof Hh as Hs. unfold test_plus in Hs. apply andb_true_iff in Hs.
  destruct Hs as [_ Hs].
  destruct (parse_numeral 16 radix16 h false 0 Hs ltac:(lia))
    as (_ & V0 & Vq & Hcan).
  fold (numeral_value 16 h) in V0, Vq, Hcan.
  set (v := numeral_value 16 h) in *.
  set (n := String.length h) in *.
  assert (1 <= n)%nat as Hn.
  { subst n. destruct h; [discriminate | simpl; lia]. }
  assert (0 < 16 ^ Z.of_nat n) as Pn by (apply Z.pow_pos_nonneg; lia).
  assert (v < 16 ^ Z.of_nat n) as Vub.
  { apply Z.div_small_iff in Vq; lia. }
  destruct (nat_digits_fixed 16 radix16 v V0) as (m & Hm & -> & Mub & Mlb).
  rewrite <- Hcan. f_equal.
  assert (m <= n)%nat as Hmn.
  { destruct Mlb as [-> | Mlb]; [lia|].
    destruct (Nat.le_gt_cases m n) as [L | G]; [exact L | exfalso].
    assert (16 ^ Z.of_nat n <= 16 ^ (Z.of_nat m - 1))
      by (apply Z.pow_le_mono_r; lia).
    lia. }
  assert (n <= m)%nat as Hnm; [|lia].
  destruct h as [|c [|c2 h2]]; [discriminate | simpl in n; lia |].
  cbn [no_leading_zero] in Hz. apply negb_true_iff, Ascii.eqb_neq in Hz.
  cbn [all_chars] in Hs. apply andb_true_iff in Hs. destruct Hs as [Hc Hs'].
  destruct (is_radix_digit_value 16 c Hc) as (d & E & Hd & _).
  assert (d <> 0) as Hd0.
  { intros ->. apply Hz, digit_zero.
    unfold radix_digit in E. destruct (digit_value c) as [d'|]; [|discriminate].
    destruct (d' <? 16); [|discriminate]. exact E. }
  assert (v = snd (parse_digits 16 (String c2 h2) true d)) as Ev.
  { subst v. unfold numeral_value. cbn [parse_digits].
    fold is_hex_digit. rewrite E. reflexivity. }
  destruct (parse_numeral 16 radix16 (String c2 h2) true d Hs' ltac:(lia))
    as (_ & _ & Q & _).
  rewrite <- Ev in Q.
  assert (0 < 16 ^ Z.of_nat (String.length (String c2 h2))) as P
    by (apply Z.pow_pos_nonneg; lia).
  assert (16 ^ Z.of_nat (String.length (String c2 h2)) <= v) as Vlb.
  { pose proof (Z.mul_div_le v _ P). rewrite Q in *. nia. }
  destruct (Nat.le_gt_cases n m) as [L | G]; [exact L | exfalso].
  assert (16 ^ Z.of_nat m <= 16 ^ Z.of_nat (String.length (String c2 h2)))
    by (apply Z.pow_le_mono_r; subst n; cbn [String.length] in *; lia).
  lia.
Qed.

Lemma parse_digits_seen (radix : Z) (s : string) (seen seen' : bool) (acc : Z) :
  snd (parse_digits radix s seen acc) = snd (parse_digits radix s seen' acc).
Proof.
  revert seen seen' acc. induction s as [|c s IH]; intros seen seen' acc;
    [reflexivity|].
  cbn [parse_digits]. destruct (radix_digit radix c); [apply IH | reflexivity].
Qed.

Lemma strip_leading_zeros_value (h : string) :
  numeral_value 16 (strip_leading_zeros h) = numeral_value 16 h.
Proof.
  induction h as [|c t IH]; [reflexivity|].
  destruct t as [|c2 t]; [reflexivity|].
  change (strip_leading_zeros (String c (String c2 t)))
    with (if Ascii.eqb c "0" then strip_leading_zeros (String c2 t)
          else String c (String c2 t)).
  destruct (Ascii.eqb_spec c "0") as [-> | _]; [|reflexivity].
  rewrite IH. unfold numeral_value.
  change (parse_digits 16 (String "0" (String c2 t)) false 0)
    with (parse_digits 16 (String c2 t) true 0).
  apply parse_digits_seen.
Qed.

Lemma strip_leading_zeros_valid (h : string) :
  test_plus is_hex_digit h = true ->
  test_plus is_hex_digit (strip_leading_zeros h) = true.
Proof.
  induction h as [|c t IH]; [discriminate|].
  destruct t as [|c2 t]; [auto|].
  intros H.
  change (strip_leading_zeros (String c (String c2 t)))
    with (if Ascii.eqb c "0" then strip_leading_zeros (String c2 t)
          else String c (String c2 t)).
  destruct (Ascii.eqb c "0"); [|exact H].
  apply IH. unfold test_plus in *. apply andb_true_iff in H.
  destruct H as [_ H]. cbn [all_chars] in H. apply andb_true_iff in H.
  destruct H as [_ H]. cbn [all_chars]. rewrite H. reflexivity.
Qed.

Lemma strip_leading_zeros_shape (h : string) :
  no_leading_zero (strip_leading_zeros h) = true.
Proof.
  induction h as [|c t IH]; [reflexivity|].
  destruct t as [|c2 t]; [reflexivity|].
  change (strip_leading_zeros (String c (String c2 t)))
    with (if Ascii.eqb c "0" then strip_leading_zeros (String c2 t)
          else String c (String c2 t)).
  destruct (Ascii.eqb c "0") eqn:E; [exact IH|].
  cbn [no_leading_zero]. now rewrite E.
Qed.

(** The round trip up to leading zeros.  For every valid hexadecimal text
    whose value is a double (every value up to 2^53 is one),
    [binaryToHex (hexToBinary h)] is [h] in upper case without its leading
    zero digits. *)
Lemma hex_roundtrip_normalised (h : string) :
  test_plus is_hex_digit h = true ->
  to_double (numeral_value 16 h) = Int (numeral_value 16 h) ->
  binaryToHex (hexToBinary h) = toUpperCase (strip_leading_zeros h).
Proof.
  intros Hh Hx. rewrite (hex_roundtrip_value h Hh Hx).
  rewrite <- (strip_leading_zeros_value h).
  rewrite (shortest_canonical _ (strip_leading_zeros_valid h Hh)
             (strip_leading_zeros_shape h)).
  apply toUpperCase_canonical.
Qed.

Example hex_roundtrip_leading_zero :
  binaryToHex (hexToBinary "00b1D") = "B1D"
  /\ binaryToHex (hexToBinary "20000000000000") = "20000000000000".
Proof.
  split.
  - apply (hex_roundtrip_normalised "00b1D"); [reflexivity|].
    apply to_double_upto_2_53. vm_compute. split; discriminate.
  - apply (hex_roundtrip_normalised "20000000000000"); [reflexivity|].
    apply to_double_upto_2_53. vm_compute. split; discriminate.
Qed.

(** C7 (hex round trip), at a failing input.  Fourteen digits [F] are a
    valid hexadecimal text without leading zero, of value 2^56 - 1.
    [parseInt] rounds it to the double 2^56, so [hexToBinary] returns 57
    characters where [padStart (hex.length * 4)] aims at four per digit, and
    the round trip gives [100000000000000] instead of the text.  The
    smallest value that is lost is 2^53 + 1. *)
Theorem hex_roundtrip_breaks_beyond_2_53 :
  test_plus is_hex_digit "FFFFFFFFFFFFFF" = true
  /\ no_leading_zero "FFFFFFFFFFFFFF" = true
  /\ hexToBinary "FFFFFFFFFFFFFF" = "1" ++ replicate 56 "0"
  /\ String.length (hexToBinary "FFFFFFFFFFFFFF") = 57%nat
  /\ binaryToHex (hexToBinary "FFFFFFFFFFFFFF") = "100000000000000"
  /\ binaryToHex (hexToBinary "FFFFFFFFFFFFFF") <> toUpperCase "FFFFFFFFFFFFFF"
  /\ binaryToHex (hexToBinary "20000000000001") = "20000000000000".
Proof.
  split; [reflexivity|].
  split; [reflexivity|].
  split; [vm_compute; reflexivity|].
  split; [vm_compute; reflexivity|].
  split; [vm_compute; reflexivity|].
  split; [vm_compute; intros E; discriminate E|].
  vm_compute. reflexivity.
Qed.

End HexBinary.

(** ** Further properties of the division functions *)

Section Shapes.

Import Reference ProblemSolver.

(** Whatever the register holds, the mask leaves [width] bits. *)
Lemma remainder_string_any (width register : Z) :
  1 <= width <= 30 ->
  remainder_string width register
  = fixed_digits 2 (Z.to_nat width) (wrap32 register mod 2 ^ width).
Proof.
  intros Hw. unfold remainder_string.
  destruct (pow2_width_bounds width Hw) as (P0 & P1 & P2).
  rewrite (mask_ones width Hw). unfold and32.
  rewrite (wrap32_small (Z.ones width)) by (rewrite Z.ones_equiv; lia).
  rewrite Z.land_ones by lia.
  pose proof (Z.mod_pos_bound (wrap32 register) (2 ^ width) P0) as B.
  unfold toString. destruct (Z.ltb_spec (wrap32 register mod 2 ^ width) 0);
    [lia|].
  rewrite <- (Z2Nat.id width) at 2 by lia.
  apply (padStart_nat_digits 2 radix2); try lia.
  rewrite Z2Nat.id; lia.
Qed.

(** X1.  For a width between 1 and 30 the remainder returned by
    [calculateCRC] and [verifyCRC] has exactly [width] characters, all
    ['0'] or ['1'], for every input string (binary or not) and every
    polynomial; the same holds for the four check bits of the CRC-4
    component. *)
Theorem remainder_has_width_bits (data : string) (polynomial width : Z) :
  1 <= width <= 30 ->
  (exists crc : string,
     calculateCRC data polynomial width = Normal crc
     /\ String.length crc = Z.to_nat width
     /\ all_chars is_bit crc = true)
  /\ (exists v : Verification,
        verifyCRC data polynomial width = Normal v
        /\ String.length (remainder v) = Z.to_nat width
        /\ all_chars is_bit (remainder v) = true)
  /\ String.length (fst (CRCEncoder.calculateCRC data)) = 4%nat
  /\ all_chars is_bit (fst (CRCEncoder.calculateCRC data)) = true.
Proof.
  intros Hw.
  assert (forall w d p, 1 <= w <= 30 ->
            exists crc, calculateCRC d p w = Normal crc
                        /\ String.length crc = Z.to_nat w
                        /\ all_chars is_bit crc = true) as K.
  { intros w d p H. unfold calculateCRC. rewrite (repeat_zero w H).
    cbn [bind]. rewrite (remainder_string_any w _ H).
    eexists. split; [reflexivity|].
    split; [apply fixed_digits_length | apply fixed_digits_bits]. }
  split; [apply K, Hw|]. split.
  - unfold verifyCRC. rewrite (repeat_zero width Hw). cbn [bind].
    rewrite (remainder_string_any width _ Hw).
    eexists. split; [reflexivity|]. cbn [remainder].
    split; [apply fixed_digits_length | apply fixed_digits_bits].
  - destruct (K CRCEncoder.CRC_WIDTH data CRCEncoder.POLYNOMIAL crc4_width)
      as (crc & E & L & B).
    rewrite <- encoder_calculateCRC in E. apply Normal_inj in E.
    rewrite E. auto.
Qed.

Lemma remainder_has_width_bits_witness :
  (exists crc : string,
     calculateCRC "1x2" 0x25 5 = Normal crc
     /\ String.length crc = Z.to_nat 5
     /\ all_chars is_bit crc = true)
  /\ (exists v : Verification,
        verifyCRC "1x2" 0x25 5 = Normal v
        /\ String.length (remainder v) = Z.to_nat 5
        /\ all_chars is_bit (remainder v) = true)
  /\ String.length (fst (CRCEncoder.calculateCRC "1x2")) = 4%nat
  /\ all_chars is_bit (fst (CRCEncoder.calculateCRC "1x2")) = true.
Proof. apply (remainder_has_width_bits "1x2" 0x25 5). lia. Defined.

(** Up to [width] bits go through the loop without any reduction. *)
Lemma short_consume (codeword : string) (polynomial width : Z) :
  1 <= width ->
  all_chars is_bit codeword = true ->
  Z.of_nat (String.length codeword) <= width ->
  fixed_digits 2 (String.length codeword)
               (consume polynomial width codeword 0) = codeword
  /\ 0 <= consume polynomial width codeword 0
       < 2 ^ Z.of_nat (String.length codeword)
  /\ (consume polynomial width codeword 0 =? 0)
     = (codeword =? replicate (String.length codeword) "0")%string.
Proof.
  intros Hw Hb Hl.
  set (n := String.length codeword) in *.
  assert (0 < 2 ^ Z.of_nat n) as Pn by (apply Z.pow_pos_nonneg; lia).
  assert (2 ^ Z.of_nat n <= 2 ^ width) as Pw
    by (apply Z.pow_le_mono_r; lia).
  destruct (fixed_of_consume polynomial width Hw codeword 0 Hb)
    as [Hq Hf]; [lia | fold n; lia |].
  fold n in Hq, Hf.
  pose proof (consume_fixed polynomial width Hw n 0 0 ltac:(lia) ltac:(lia))
    as C0.
  rewrite fixed_digits_zero, Z.mod_0_l in C0 by lia.
  set (v := consume polynomial width codeword 0) in *.
  assert (0 <= v).
  { destruct (Z.le_gt_cases 0 v) as [L | G]; [exact L | exfalso].
    assert (v / 2 ^ Z.of_nat n < 0) by (apply Z.div_lt_upper_bound; lia).
    lia. }
  assert (v < 2 ^ Z.of_nat n) by (apply Z.div_small_iff in Hq; lia).
  split; [exact Hf|]. split; [lia|].
  destruct (Z.eqb_spec v 0) as [E | E].
  - symmetry. apply String.eqb_eq. rewrite <- Hf, E. apply fixed_digits_zero.
  - symmetry. apply String.eqb_neq. intros K. apply E.
    unfold v. rewrite K, C0. lia.
Qed.

(** X2.  A binary codeword no longer than [width] is never reduced: its
    remainder is the codeword itself, left-padded with zeros, and it is
    reported valid exactly when all its bits are zero. *)
Theorem short_codeword_remainder
    (codeword : string) (polynomial width : Z) :
  1 <= width <= 30 ->
  2 ^ width <= polynomial < 2 ^ (width + 1) ->
  all_chars is_bit codeword = true ->
  Z.of_nat (String.length codeword) <= width ->
  verifyCRC codeword polynomial width
  = Normal {| isValid := (codeword
                          =? replicate (String.length codeword) "0")%string;
              remainder := padStart codeword width "0" |}.
Proof.
  intros Hw Hp Hb Hl.
  rewrite (verifyCRC_divide _ _ Hw Hp codeword Hb).
  destruct (short_consume codeword polynomial width (proj1 Hw) Hb Hl)
    as (Hf & Hv & Hz).
  rewrite Hz. f_equal. f_equal.
  rewrite padStart_single.
  set (n := String.length codeword) in *.
  replace (Z.to_nat width) with (Z.to_nat (width - Z.of_nat n) + n)%nat
    by lia.
  rewrite (fixed_digits_pad 2 radix2) by lia.
  now rewrite Hf.
Qed.

Lemma short_codeword_remainder_witness :
  verifyCRC "101" 0x107 8
  = Normal {| isValid := ("101" =? replicate (String.length "101") "0")%string;
              remainder := padStart "101" 8 "0" |}.
Proof.
  apply (short_codeword_remainder "101" 0x107 8).
  - lia.
  - simpl. lia.
  - reflexivity.
  - simpl. lia.
Defined.

End Shapes.

(** ** The CRC-4 component as a whole *)

Section Component.

Import Reference.

Lemma test_plus_bits (s : string) :
  test_plus is_bit s = true <-> s <> "" /\ all_chars is_bit s = true.
Proof.
  unfold test_plus. rewrite andb_true_iff, negb_true_iff, String.eqb_neq.
  reflexivity.
Qed.

(** [handleVerify] divides the whole text. *)
Lemma handleVerify_divide (testData : string) :
  all_chars is_bit testData = true ->
  (4 <= String.length testData)%nat ->
  CRCEncoder.handleVerify testData
  = Some (consume CRCEncoder.POLYNOMIAL CRCEncoder.CRC_WIDTH testData 0 =? 0).
Proof.
  intros Hb Hlen. unfold CRCEncoder.handleVerify.
  assert (test_plus is_bit testData = true) as ->.
  { apply test_plus_bits. split; [|exact Hb].
    destruct testData; [simpl in Hlen; lia | discriminate]. }
  change CRCEncoder.CRC_WIDTH with 4 at 1 2 3.
  destruct (Z.ltb_spec (Z.of_nat (String.length testData)) 4); [lia|].
  cbn [negb orb]. change (- (4)) with (-4).
  destruct (slice_last4 testData Hlen) as [-> ->].
  set (k := (String.length testData - 4)%nat).
  set (d := substring 0 k testData).
  set (c := substring k (String.length testData - k) testData).
  assert (testData = d ++ c) as Hsplit
    by (apply substring_split; subst k; lia).
  assert (String.length d = k) as Hd
    by (apply substring_prefix_length; subst k; lia).
  assert (String.length c = 4%nat) as Hc.
  { pose proof (f_equal String.length Hsplit) as L.
    rewrite length_append, Hd in L. subst k. lia. }
  assert (all_chars is_bit d = true /\ all_chars is_bit c = true)
    as [Bd Bc].
  { rewrite Hsplit, all_chars_append in Hb.
    apply andb_true_iff in Hb. exact Hb. }
  pose proof (encoder_calculateCRC d) as E.
  rewrite (calculateCRC_divide _ _ crc4_width crc4_polynomial d Bd) in E.
  destruct (CRCEncoder.calculateCRC d) as [calculatedCRC steps].
  cbn [fst] in E. apply Normal_inj in E. rewrite E.
  rewrite (compare_is_divide _ _ crc4_width crc4_polynomial d c Bc Hc).
  rewrite <- Hsplit. reflexivity.
Qed.

(** [handleEncode] appends the four check bits of the division. *)
Lemma handleEncode_divide (inputData : string) :
  test_plus is_bit inputData = true ->
  exists steps : list CRCEncoder.EncodingStep,
    CRCEncoder.calculateCRC inputData
    = (fixed_digits 2 4
         (consume CRCEncoder.POLYNOMIAL CRCEncoder.CRC_WIDTH
                  (inputData ++ "0000") 0), steps)
    /\ CRCEncoder.handleEncode inputData
       = Some (fixed_digits 2 4
                 (consume CRCEncoder.POLYNOMIAL CRCEncoder.CRC_WIDTH
                          (inputData ++ "0000") 0),
               inputData
               ++ fixed_digits 2 4
                    (consume CRCEncoder.POLYNOMIAL CRCEncoder.CRC_WIDTH
                             (inputData ++ "0000") 0),
               steps).
Proof.
  intros Hd. unfold CRCEncoder.handleEncode. rewrite Hd. cbn [negb].
  apply test_plus_bits in Hd. destruct Hd as [_ Hb].
  pose proof (encoder_calculateCRC inputData) as E.
  rewrite (calculateCRC_divide _ _ crc4_width crc4_polynomial inputData Hb)
    in E.
  destruct (CRCEncoder.calculateCRC inputData) as [crc steps].
  cbn [fst] in E. apply Normal_inj in E. subst crc.
  exists steps. split; reflexivity.
Qed.

(** X3.  A text of exactly [CRC_WIDTH] bits has an empty data part: the
    CRC-4 verifier accepts it exactly when it is [0000]. *)
Theorem verify_bare_check_field (testData : string) :
  all_chars is_bit testData = true ->
  String.length testData = 4%nat ->
  CRCEncoder.handleVerify testData = Some (testData =? "0000")%string.
Proof.
  intros Hb Hl. rewrite handleVerify_divide by (auto; lia).
  destruct (short_consume testData CRCEncoder.POLYNOMIAL CRCEncoder.CRC_WIDTH
              (proj1 crc4_width) Hb) as (_ & _ & ->).
  - rewrite Hl. cbv. discriminate.
  - rewrite Hl. reflexivity.
Qed.

Lemma verify_bare_check_field_witness :
  CRCEncoder.handleVerify "0110" = Some ("0110" =? "0000")%string.
Proof. apply (verify_bare_check_field "0110"); reflexivity. Defined.

(** X4.  In the CRC-4 component, what [handleEncode] produces from a
    non-empty binary text is accepted by [handleVerify]. *)
Theorem encoder_roundtrip (inputData : string) :
  test_plus is_bit inputData = true ->
  exists (crc : string) (steps : list CRCEncoder.EncodingStep),
    CRCEncoder.handleEncode inputData
    = Some (crc, inputData ++ crc, steps)
    /\ String.length crc = 4%nat
    /\ CRCEncoder.handleVerify (inputData ++ crc) = Some true.
Proof.
  intros Hd. destruct (handleEncode_divide inputData Hd) as (steps & _ & E).
  apply test_plus_bits in Hd. destruct Hd as [_ Hb].
  eexists. exists steps. split; [exact E|].
  split; [apply fixed_digits_length|].
  rewrite handleVerify_divide.
  - pose proof (consume_codeword _ _ crc4_width crc4_polynomial inputData)
      as K. cbv zeta in K.
    change (Z.to_nat CRCEncoder.CRC_WIDTH) with 4%nat in K.
    change (replicate 4 "0") with "0000" in K.
    rewrite K. reflexivity.
  - rewrite all_chars_append, Hb. apply fixed_digits_bits.
  - rewrite length_append, fixed_digits_length. lia.
Qed.

Lemma encoder_roundtrip_witness :
  exists (crc : string) (steps : list CRCEncoder.EncodingStep),
    CRCEncoder.handleEncode "1"
    = Some (crc, "1" ++ crc, steps)
    /\ String.length crc = 4%nat
    /\ CRCEncoder.handleVerify ("1" ++ crc) = Some true.
Proof. apply (encoder_roundtrip "1"). reflexivity. Defined.

End Component.

(** ** Which errors are detected *)

Section Detection.

Import Reference ProblemSolver.

Variables polynomial width : Z.
Hypothesis width_range : 1 <= width <= 30.
Hypothesis polynomial_range : 2 ^ width <= polynomial < 2 ^ (width + 1).

Lemma shift_in_one : shift_in polynomial width 0 1 = 1.
Proof.
  unfold shift_in. rewrite shift_or_value by (right; reflexivity).
  change (2 * 0 + 1) with 1.
  rewrite (testbit_bit_high 1 width) by (try (right; reflexivity); lia).
  reflexivity.
Qed.

(** Flipping the incoming bit flips the lowest bit of the register. *)
Lemma shift_in_flip (r b : Z) :
  is_bit_value b ->
  shift_in polynomial width r (1 - b)
  = Z.lxor (shift_in polynomial width r b) 1.
Proof.
  assert (shift_in polynomial width r 1
          = Z.lxor (shift_in polynomial width r 0) 1) as K.
  { rewrite <- (Z.lxor_0_r r) at 1.
    rewrite shift_in_lxor by (right; reflexivity).
    now rewrite shift_in_one. }
  intros [-> | ->].
  - exact K.
  - change (1 - 1) with 0.
    rewrite K, Z.lxor_assoc, Z.lxor_nilpotent, Z.lxor_0_r. reflexivity.
Qed.

Lemma bit_of_flip (c : ascii) :
  is_bit c = true -> bit_of (flip_char c) = 1 - bit_of c.
Proof. intros H. destruct (is_bit_cases c H) as [-> | ->]; reflexivity. Qed.

(** One flipped bit adds the remainder of a single 1 at that place. *)
Lemma consume_flip (a b : string) (c : ascii) (r : Z) :
  is_bit c = true ->
  consume polynomial width (a ++ String (flip_char c) b) r
  = Z.lxor (consume polynomial width (replicate (String.length b) "0") 1)
           (consume polynomial width (a ++ String c b) r).
Proof.
  intros Hc. rewrite !consume_append. cbn [consume].
  rewrite bit_of_flip, shift_in_flip by (auto using bit_of_value).
  rewrite Z.lxor_comm. apply consume_lxor.
Qed.

Lemma consume_zeros (n : nat) :
  consume polynomial width (replicate n "0") 0 = 0.
Proof.
  induction n as [|n IH]; [reflexivity|].
  cbn [replicate append consume]. change (bit_of "0") with 0.
  replace (shift_in polynomial width 0 0) with 0; [exact IH|].
  unfold shift_in. rewrite shift_or_value by (left; reflexivity).
  change (2 * 0 + 0) with 0. rewrite Z.testbit_0_l. reflexivity.
Qed.

Hypothesis polynomial_odd : Z.odd polynomial = true.

(** With a constant term in the polynomial, a register that is not zero
    does not become zero by shifting zeros in. *)
Lemma shift_zero_nonzero (r : Z) :
  0 < r < 2 ^ width -> 0 < shift_in polynomial width r 0 < 2 ^ width.
Proof.
  intros Hr.
  pose proof (shift_in_range polynomial width (proj1 width_range)
                polynomial_range r 0 ltac:(lia) (or_introl eq_refl)) as B.
  split; [|lia].
  destruct (Z.eq_dec (shift_in polynomial width r 0) 0) as [E | E]; [|lia].
  exfalso. unfold shift_in in E.
  rewrite shift_or_value in E by (left; reflexivity).
  rewrite Z.add_0_r in E.
  destruct (Z.testbit (2 * r) width).
  - apply Z.lxor_eq in E. rewrite <- E, Z.odd_mul in polynomial_odd.
    discriminate.
  - lia.
Qed.

Lemma consume_zeros_nonzero (n : nat) (r : Z) :
  0 < r < 2 ^ width ->
  0 < consume polynomial width (replicate n "0") r.
Proof.
  revert r. induction n as [|n IH]; intros r Hr; [simpl; lia|].
  cbn [replicate append consume]. apply IH.
  change (bit_of "0") with 0. now apply shift_zero_nonzero.
Qed.

End Detection.

Section Injection.

Import Reference ProblemSolver.

Lemma string_of_list_app (a b : list ascii) :
  string_of_list_ascii (a ++ b)%list
  = string_of_list_ascii a ++ string_of_list_ascii b.
Proof. induction a as [|x a IH]; simpl; [reflexivity | now rewrite IH]. Qed.

Lemma set_nth_middle (a b : list ascii) (c x : ascii) :
  set_nth (List.length a) x (a ++ c :: b)%list = (a ++ x :: b)%list.
Proof. induction a as [|y a IH]; simpl; [reflexivity | now rewrite IH]. Qed.

Lemma registry_odd (key : string) (cfg : CRCPolynomial) :
  In (key, cfg) CRC_POLYNOMIALS -> Z.odd (polynomial cfg) = true.
Proof.
  intros H. cbn [CRC_POLYNOMIALS In] in H.
  repeat (destruct H as [H | H]; [inversion H; subst; clear H|]);
    try contradiction; reflexivity.
Qed.

Variables polynomial width : Z.
Hypothesis width_range : 1 <= width <= 30.
Hypothesis polynomial_range : 2 ^ width <= polynomial < 2 ^ (width + 1).

(** The effect of one callback on the division depends on the position and
    the length only. *)
Lemma flip_at_offset (n : nat) (pos : number) :
  exists u : Z,
    (in_range n pos = true ->
     exists k : nat, u = consume polynomial width (replicate k "0") 1)
    /\ (in_range n pos = false -> u = 0)
    /\ forall l : list ascii,
         List.length l = n -> forallb is_bit l = true ->
         consume polynomial width (string_of_list_ascii (flip_at l pos)) 0
         = Z.lxor u (consume polynomial width (string_of_list_ascii l) 0).
Proof.
  destruct (in_range n pos) eqn:E.
  - destruct (in_range_int n pos E) as (p & -> & Hp).
    exists (consume polynomial width
              (replicate (n - 1 - Z.to_nat p) "0") 1).
    split; [intros _; eexists; reflexivity|].
    split; [discriminate|].
    intros l Hl Hb.
    destruct (flip_at_cases l (Int p))
      as [[E' _] | (i & Hi & Hq & _ & ->)];
      [rewrite Hl, E in E'; discriminate|].
    assert (i = Z.to_nat p) as Hip by (injection Hq; lia).
    destruct (nth_split l "0"%char Hi) as (a & b & Hsplit & Ha).
    set (c := nth i l "0"%char) in *.
    assert (is_bit c = true) as Hc.
    { rewrite forallb_forall in Hb. apply Hb. subst c. now apply nth_In. }
    clearbody c. rewrite <- Ha in *. clear Ha Hi. subst l.
    rewrite List.length_app in Hl. cbn [List.length] in Hl.
    rewrite set_nth_middle.
    rewrite !string_of_list_app. cbn [string_of_list_ascii].
    rewrite (consume_flip polynomial width width_range) by exact Hc.
    rewrite length_of_list_ascii. f_equal. f_equal. f_equal. lia.
  - exists 0. split; [discriminate|]. split; [reflexivity|].
    intros l Hl Hb.
    destruct (flip_at_cases l pos) as [[_ ->] | (i & _ & _ & E' & _)].
    + now rewrite Z.lxor_0_l.
    + rewrite Hl, E in E'. discriminate.
Qed.

(** Flipping the same positions in two words of one length keeps the
    difference of their remainders. *)
Lemma flips_difference (positions : list number) (l m : list ascii) :
  List.length l = List.length m ->
  forallb is_bit l = true -> forallb is_bit m = true ->
  Z.lxor
    (consume polynomial width
       (string_of_list_ascii (fold_left flip_at positions l)) 0)
    (consume polynomial width
       (string_of_list_ascii (fold_left flip_at positions m)) 0)
  = Z.lxor (consume polynomial width (string_of_list_ascii l) 0)
           (consume polynomial width (string_of_list_ascii m) 0).
Proof.
  revert l m. induction positions as [|pos positions IH];
    intros l m Hlen Hl Hm; [reflexivity|].
  cbn [fold_left].
  rewrite IH by (rewrite ?flip_at_length; auto using flip_at_bits).
  destruct (flip_at_offset (List.length l) pos) as (u & _ & _ & K).
  rewrite (K l eq_refl Hl), (K m (eq_sym Hlen) Hm).
  set (x := consume polynomial width (string_of_list_ascii l) 0).
  set (y := consume polynomial width (string_of_list_ascii m) 0).
  rewrite (Z.lxor_comm u x), Z.lxor_assoc, <- (Z.lxor_assoc u u y),
    Z.lxor_nilpotent, Z.lxor_0_l.
  reflexivity.
Qed.

Lemma zeros_list (n : nat) :
  List.length (list_ascii_of_string (replicate n "0")) = n
  /\ forallb is_bit (list_ascii_of_string (replicate n "0")) = true.
Proof.
  split.
  - rewrite length_list_ascii. apply length_replicate1.
  - rewrite <- all_chars_list. now apply all_chars_replicate1.
Qed.

(** The remainder of a corrupted word is the remainder of the word plus the
    remainder of the error pattern. *)
Lemma flipBits_linear (codeword : string) (positions : list number) :
  all_chars is_bit codeword = true ->
  consume polynomial width (flipBits codeword positions) 0
  = Z.lxor (consume polynomial width codeword 0)
           (consume polynomial width
              (error_pattern (String.length codeword) positions) 0).
Proof.
  intros Hb. rewrite all_chars_list in Hb.
  destruct (zeros_list (String.length codeword)) as [Zl Zb].
  pose proof (flips_difference positions (list_ascii_of_string codeword)
                (list_ascii_of_string (replicate (String.length codeword) "0"))
                ltac:(rewrite Zl; apply length_list_ascii) Hb Zb) as D.
  rewrite !string_of_list_ascii_of_string, consume_zeros, Z.lxor_0_r in D.
  unfold error_pattern, flipBits. rewrite <- D.
  rewrite Z.lxor_assoc, Z.lxor_nilpotent, Z.lxor_0_r. reflexivity.
Qed.

Lemma flipBits_bits (codeword : string) (positions : list number) :
  all_chars is_bit codeword = true ->
  all_chars is_bit (flipBits codeword positions) = true.
Proof.
  intros H. rewrite all_chars_list in H. unfold flipBits.
  rewrite all_chars_of_list. now apply flips_bits.
Qed.

Lemma error_pattern_bits (n : nat) (positions : list number) :
  all_chars is_bit (error_pattern n positions) = true.
Proof. apply flipBits_bits. now apply all_chars_replicate1. Qed.

End Injection.

Section DetectionTheorems.

Import Reference ProblemSolver.

Lemma numeral_of_remainder (polynomial width : Z) (bits : string) :
  1 <= width <= 30 ->
  2 ^ width <= polynomial < 2 ^ (width + 1) ->
  numeral_value 2
    (fixed_digits 2 (Z.to_nat width) (consume polynomial width bits 0))
  = consume polynomial width bits 0.
Proof.
  intros Hw Hp. unfold numeral_value.
  rewrite (parse_fixed 2 radix2). cbn [snd].
  destruct (pow2_width_bounds width Hw) as (P0 & _).
  pose proof (consume_range polynomial width (proj1 Hw) Hp bits 0
                ltac:(lia)).
  rewrite Z2Nat.id, Z.mod_small by lia. lia.
Qed.

(** X5.  Detection depends on the error pattern only.  For every binary
    codeword and every position list, the remainder of the corrupted
    codeword is the bitwise XOR of the codeword's remainder and the
    remainder of the error pattern (the same flips applied to the all-zero
    word); so a corrupted valid codeword is accepted exactly when the
    error pattern itself divides evenly. *)
Theorem detection_depends_on_pattern
    (polynomial width : Z) (codeword : string) (positions : list number) :
  1 <= width <= 30 ->
  2 ^ width <= polynomial < 2 ^ (width + 1) ->
  all_chars is_bit codeword = true ->
  exists vc ve vx : Verification,
    verifyCRC codeword polynomial width = Normal vc
    /\ verifyCRC (error_pattern (String.length codeword) positions)
                 polynomial width = Normal ve
    /\ verifyCRC (flipBits codeword positions) polynomial width = Normal vx
    /\ numeral_value 2 (remainder vx)
       = Z.lxor (numeral_value 2 (remainder vc))
                (numeral_value 2 (remainder ve))
    /\ (isValid vc = true -> isValid vx = isValid ve).
Proof.
  intros Hw Hp Hb.
  rewrite (verifyCRC_divide _ _ Hw Hp codeword Hb).
  rewrite (verifyCRC_divide _ _ Hw Hp _ (error_pattern_bits _ positions)).
  rewrite (verifyCRC_divide _ _ Hw Hp _ (flipBits_bits _ positions Hb)).
  do 3 eexists. repeat (split; [reflexivity|]).
  cbn [isValid remainder].
  rewrite !(numeral_of_remainder _ _ _ Hw Hp).
  rewrite (flipBits_linear polynomial width Hw codeword positions Hb).
  split; [reflexivity|].
  intros V. apply Z.eqb_eq in V. rewrite V, Z.lxor_0_l. reflexivity.
Qed.

Lemma detection_depends_on_pattern_witness :
  exists vc ve vx : Verification,
    verifyCRC "10101101" 0x13 4 = Normal vc
    /\ verifyCRC (error_pattern (String.length "10101101") [Int 1; Int 6])
                 0x13 4 = Normal ve
    /\ verifyCRC (flipBits "10101101" [Int 1; Int 6]) 0x13 4 = Normal vx
    /\ numeral_value 2 (remainder vx)
       = Z.lxor (numeral_value 2 (remainder vc))
                (numeral_value 2 (remainder ve))
    /\ (isValid vc = true -> isValid vx = isValid ve).
Proof.
  apply (detection_depends_on_pattern 0x13 4 "10101101" [Int 1; Int 6]).
  - lia.
  - simpl. lia.
  - reflexivity.
Defined.

(** A single flipped bit leaves a remainder that is not zero. *)
Lemma single_error_nonzero
    (polynomial width : Z) (n : nat) (pos : number) :
  1 <= width <= 30 ->
  2 ^ width <= polynomial < 2 ^ (width + 1) ->
  Z.odd polynomial = true ->
  in_range n pos = true ->
  0 < consume polynomial width (error_pattern n [pos]) 0.
Proof.
  intros Hw Hp Ho Hr.
  destruct (flip_at_offset polynomial width Hw n pos) as (u & K1 & _ & K).
  destruct (K1 Hr) as (k & ->).
  destruct (zeros_list n) as [Zl Zb].
  unfold error_pattern, flipBits. cbn [fold_left].
  rewrite (K _ Zl Zb), string_of_list_ascii_of_string, consume_zeros,
    Z.lxor_0_r.
  apply (consume_zeros_nonzero polynomial width Hw Hp Ho).
  destruct (pow2_width_bounds width Hw) as (_ & _ & _).
  split; [lia|]. apply Z.pow_gt_1; lia.
Qed.

Lemma in_range_index (n : nat) (p : Z) :
  0 <= p < Z.of_nat n -> in_range n (Int p) = true.
Proof.
  intros H. unfold in_range, num_ge, num_le, num_lt.
  apply andb_true_iff. split; [apply Z.leb_le | apply Z.ltb_lt]; lia.
Qed.

(** X6.  Every single-bit error is detected.  For every registry
    configuration, every non-empty binary data string and every position
    inside the encoded codeword, flipping that one bit makes [verifyCRC]
    report [isValid = false]. *)
Theorem single_bit_error_always_detected
    (key : string) (cfg : CRCPolynomial) (d : string) (p : Z) :
  In (key, cfg) CRC_POLYNOMIALS ->
  test_plus is_bit d = true ->
  0 <= p < Z.of_nat (String.length d) + width cfg ->
  exists crc rem : string,
    calculateCRC d (polynomial cfg) (width cfg) = Normal crc
    /\ verifyCRC (flipBits (d ++ crc) [Int p]) (polynomial cfg) (width cfg)
       = Normal {| isValid := false; remainder := rem |}.
Proof.
  intros Hin Hd Hp.
  destruct (registry_entries key cfg Hin) as (Hw & Hpoly & _ & _).
  pose proof (registry_odd key cfg Hin) as Ho.
  apply test_plus_bits in Hd. destruct Hd as [_ Hd].
  rewrite (calculateCRC_divide _ _ Hw Hpoly d Hd).
  set (crc := fixed_digits 2 (Z.to_nat (width cfg))
                (consume (polynomial cfg) (width cfg)
                   (d ++ replicate (Z.to_nat (width cfg)) "0") 0)).
  assert (all_chars is_bit (d ++ crc) = true) as Hb
    by (rewrite all_chars_append, Hd; apply fixed_digits_bits).
  exists crc. eexists. split; [reflexivity|].
  rewrite (verifyCRC_divide _ _ Hw Hpoly _ (flipBits_bits _ _ Hb)).
  rewrite (flipBits_linear _ _ Hw _ _ Hb).
  subst crc. rewrite (consume_codeword _ _ Hw Hpoly d), Z.lxor_0_l.
  f_equal. f_equal.
  apply Z.eqb_neq.
  pose proof (single_error_nonzero (polynomial cfg) (width cfg)
                (String.length
                   (d ++ fixed_digits 2 (Z.to_nat (width cfg))
                           (consume (polynomial cfg) (width cfg)
                              (d ++ replicate (Z.to_nat (width cfg)) "0") 0)))
                (Int p) Hw Hpoly Ho) as K.
  rewrite length_append, fixed_digits_length in K |- *.
  specialize (K ltac:(apply in_range_index; lia)). lia.
Qed.

Lemma single_bit_error_always_detected_witness :
  exists crc rem : string,
    calculateCRC "110" 0x89 7 = Normal crc
    /\ verifyCRC (flipBits ("110" ++ crc) [Int 9]) 0x89 7
       = Normal {| isValid := false; remainder := rem |}.
Proof.
  apply (single_bit_error_always_detected "CRC-7"
           {| name := "CRC-7"; polynomial := 0x89; width := 7;
              binaryStr := "10001001"; formula := "z⁷ + z³ + 1" |} "110" 9).
  - simpl. right. right. left. reflexivity.
  - reflexivity.
  - simpl. lia.
Defined.

End DetectionTheorems.

Section Bursts.

Import Reference ProblemSolver.

(** Corrupting an encoded word leaves the remainder of the error pattern. *)
Lemma corrupted_codeword
    (polynomial width : Z) (d : string) (positions : list number) :
  1 <= width <= 30 ->
  2 ^ width <= polynomial < 2 ^ (width + 1) ->
  all_chars is_bit d = true ->
  let crc := fixed_digits 2 (Z.to_nat width)
               (consume polynomial width
                  (d ++ replicate (Z.to_nat width) "0") 0) in
  all_chars is_bit (flipBits (d ++ crc) positions) = true
  /\ String.length (flipBits (d ++ crc) positions)
     = (String.length d + Z.to_nat width)%nat
  /\ consume polynomial width (flipBits (d ++ crc) positions) 0
     = consume polynomial width
         (error_pattern (String.length d + Z.to_nat width) positions) 0.
Proof.
  intros Hw Hp Hd crc.
  assert (all_chars is_bit (d ++ crc) = true) as Hb
    by (rewrite all_chars_append, Hd; apply fixed_digits_bits).
  assert (String.length (d ++ crc)
          = (String.length d + Z.to_nat width)%nat) as Hl
    by (rewrite length_append; subst crc; now rewrite fixed_digits_length).
  split; [now apply flipBits_bits|]. split.
  - unfold flipBits. rewrite length_of_list_ascii, flips_length,
      length_list_ascii. exact Hl.
  - rewrite (flipBits_linear _ _ Hw _ _ Hb), Hl. subst crc.
    rewrite (consume_codeword _ _ Hw Hp d). apply Z.lxor_0_l.
Qed.

(** A burst no longer than [width] has a remainder that is not zero. *)
Lemma burst_nonzero (polynomial width : Z) (a b : nat) (mid : string) :
  1 <= width <= 30 ->
  2 ^ width <= polynomial < 2 ^ (width + 1) ->
  Z.odd polynomial = true ->
  all_chars is_bit mid = true ->
  Z.of_nat (String.length mid) <= width ->
  mid <> replicate (String.length mid) "0" ->
  0 < consume polynomial width
        (replicate a "0" ++ mid ++ replicate b "0") 0.
Proof.
  intros Hw Hp Ho Hb Hl Hne.
  rewrite !consume_append, consume_zeros.
  destruct (short_consume mid polynomial width (proj1 Hw) Hb Hl)
    as (_ & Hv & Hz).
  apply String.eqb_neq in Hne. rewrite Hne in Hz. apply Z.eqb_neq in Hz.
  apply (consume_zeros_nonzero polynomial width Hw Hp Ho).
  assert (2 ^ Z.of_nat (String.length mid) <= 2 ^ width)
    by (apply Z.pow_le_mono_r; lia).
  lia.
Qed.

(** X7.  Every burst error no longer than the CRC width is detected.  For
    every registry configuration and every non-empty binary data string, if
    the positions flipped in the encoded codeword all lie in a window of at
    most [width] bits, and at least one bit is really changed, [verifyCRC]
    reports [isValid = false]. *)
Theorem burst_error_detected
    (key : string) (cfg : CRCPolynomial) (d : string)
    (positions : list number) (a b : nat) (mid : string) :
  In (key, cfg) CRC_POLYNOMIALS ->
  test_plus is_bit d = true ->
  error_pattern (String.length d + Z.to_nat (width cfg)) positions
  = replicate a "0" ++ mid ++ replicate b "0" ->
  Z.of_nat (String.length mid) <= width cfg ->
  mid <> replicate (String.length mid) "0" ->
  exists crc rem : string,
    calculateCRC d (polynomial cfg) (width cfg) = Normal crc
    /\ verifyCRC (flipBits (d ++ crc) positions)
                 (polynomial cfg) (width cfg)
       = Normal {| isValid := false; remainder := rem |}.
Proof.
  intros Hin Hd He Hl Hne.
  destruct (registry_entries key cfg Hin) as (Hw & Hp & _ & _).
  pose proof (registry_odd key cfg Hin) as Ho.
  apply test_plus_bits in Hd. destruct Hd as [_ Hd].
  rewrite (calculateCRC_divide _ _ Hw Hp d Hd).
  destruct (corrupted_codeword _ _ d positions Hw Hp Hd) as (Hb & _ & Hc).
  eexists. eexists. split; [reflexivity|].
  rewrite (verifyCRC_divide _ _ Hw Hp _ Hb), Hc, He.
  f_equal. f_equal. apply Z.eqb_neq.
  assert (all_chars is_bit mid = true) as Hm.
  { pose proof (error_pattern_bits
                  (String.length d + Z.to_nat (width cfg)) positions) as B.
    rewrite He, !all_chars_append in B.
    apply andb_true_iff in B. destruct B as [_ B].
    apply andb_true_iff in B. apply B. }
  pose proof (burst_nonzero _ _ a b mid Hw Hp Ho Hm Hl Hne). lia.
Qed.

Lemma burst_error_detected_witness :
  exists crc rem : string,
    calculateCRC "1010" 0x13 4 = Normal crc
    /\ verifyCRC (flipBits ("1010" ++ crc) [Int 2; Int 3; Int 4]) 0x13 4
       = Normal {| isValid := false; remainder := rem |}.
Proof.
  apply (burst_error_detected "CRC-4"
           {| name := "CRC-4"; polynomial := 0x13; width := 4;
              binaryStr := "10011"; formula := "z⁴ + z + 1" |}
           "1010" [Int 2; Int 3; Int 4] 2 3 "111").
  - simpl. left. reflexivity.
  - reflexivity.
  - reflexivity.
  - simpl. lia.
  - discriminate.
Defined.

(** X8.  The CRC-4 component rejects every single-bit change of what it
    encoded: for a non-empty binary text and any position inside the
    encoded text, [handleVerify] on the text with that bit flipped sets
    [isValid] to [false]. *)
Theorem encoder_detects_single_bit (inputData : string) (p : Z) :
  test_plus is_bit inputData = true ->
  0 <= p < Z.of_nat (String.length inputData) + 4 ->
  exists (crc : string) (steps : list CRCEncoder.EncodingStep),
    CRCEncoder.handleEncode inputData
    = Some (crc, inputData ++ crc, steps)
    /\ CRCEncoder.handleVerify (flipBits (inputData ++ crc) [Int p])
       = Some false.
Proof.
  intros Hd Hp.
  destruct (handleEncode_divide inputData Hd) as (steps & _ & E).
  apply test_plus_bits in Hd. destruct Hd as [_ Hd].
  eexists. exists steps. split; [exact E|].
  destruct (corrupted_codeword _ _ inputData [Int p]
              crc4_width crc4_polynomial Hd) as (Hb & Hl & Hc).
  change (Z.to_nat CRCEncoder.CRC_WIDTH) with 4%nat in Hb, Hl, Hc.
  change (replicate 4 "0") with "0000" in Hb, Hl, Hc.
  rewrite handleVerify_divide by (auto; lia).
  rewrite Hc. f_equal. apply Z.eqb_neq.
  pose proof (single_error_nonzero CRCEncoder.POLYNOMIAL
                CRCEncoder.CRC_WIDTH (String.length inputData + 4) (Int p)
                crc4_width crc4_polynomial eq_refl
                ltac:(apply in_range_index; lia)).
  lia.
Qed.

Lemma encoder_detects_single_bit_witness :
  exists (crc : string) (steps : list CRCEncoder.EncodingStep),
    CRCEncoder.handleEncode "1010"
    = Some (crc, "1010" ++ crc, steps)
    /\ CRCEncoder.handleVerify (flipBits ("1010" ++ crc) [Int 7])
       = Some false.
Proof.
  apply (encoder_detects_single_bit "1010" 7).
  - reflexivity.
  - simpl. lia.
Defined.

End Bursts.

(** ** The text fields *)

Section TextFields.

Import ProblemSolver.

Ltac each_char c :=
  destruct c as [[] [] [] [] [] [] [] []].

Lemma keep_chars_all (p : ascii -> bool) (s : string) :
  all_chars p (keep_chars p s) = true.
Proof.
  induction s as [|c s IH]; [reflexivity|].
  cbn [keep_chars]. destruct (p c) eqn:E; [|exact IH].
  cbn [all_chars]. now rewrite E, IH.
Qed.

Lemma keep_chars_fixed (p : ascii -> bool) (s : string) :
  all_chars p s = true -> keep_chars p s = s.
Proof.
  induction s as [|c s IH]; [reflexivity|].
  cbn [all_chars keep_chars]. intros H. apply andb_true_iff in H.
  destruct H as [-> H]. now rewrite IH.
Qed.

Lemma keep_chars_length (p : ascii -> bool) (s : string) :
  (String.length (keep_chars p s) <= String.length s)%nat.
Proof.
  induction s as [|c s IH]; [simpl; lia|].
  cbn [keep_chars]. destruct (p c); simpl; lia.
Qed.

(** X9.  What the binary text fields store after any typing is a string
    of ['0'] and ['1'] only, no longer than what was typed; binary text is
    stored unchanged, so filtering twice changes nothing; and the
    handlers' check [/^[01]+$/] can then fail on the empty string only. *)
Theorem binary_fields_hold_bits (value : string) :
  all_chars is_bit (onChangeBinaryInput value) = true
  /\ (String.length (onChangeBinaryInput value) <= String.length value)%nat
  /\ (all_chars is_bit value = true -> onChangeBinaryInput value = value)
  /\ onChangeBinaryInput (onChangeBinaryInput value)
     = onChangeBinaryInput value
  /\ test_plus is_bit (onChangeBinaryInput value)
     = negb (onChangeBinaryInput value =? "")%string
  /\ onChangeReceivedData value = onChangeBinaryInput value.
Proof.
  unfold onChangeReceivedData, onChangeBinaryInput.
  pose proof (keep_chars_all is_bit value) as A.
  repeat split.
  - exact A.
  - apply keep_chars_length.
  - apply keep_chars_fixed.
  - apply keep_chars_fixed, A.
  - unfold test_plus. rewrite A. apply andb_true_r.
Qed.

Lemma upper_digit_value (c : ascii) :
  digit_value (upper_char c) = digit_value c.
Proof. each_char c; vm_compute; reflexivity. Qed.

Lemma upper_twice (c : ascii) : upper_char (upper_char c) = upper_char c.
Proof. each_char c; vm_compute; reflexivity. Qed.

Lemma upper_radix_digit (radix : Z) (c : ascii) :
  radix_digit radix (upper_char c) = radix_digit radix c.
Proof. unfold radix_digit. now rewrite upper_digit_value. Qed.

Lemma parse_digits_upper (radix : Z) (s : string) (seen : bool) (acc : Z) :
  parse_digits radix (toUpperCase s) seen acc = parse_digits radix s seen acc.
Proof.
  revert seen acc. induction s as [|c s IH]; intros seen acc; [reflexivity|].
  cbn [toUpperCase parse_digits]. rewrite upper_radix_digit.
  destruct (radix_digit radix c); [apply IH | reflexivity].
Qed.

Lemma all_digits_upper (radix : Z) (s : string) :
  all_chars (is_radix_digit radix) (toUpperCase s)
  = all_chars (is_radix_digit radix) s.
Proof.
  induction s as [|c s IH]; [reflexivity|].
  cbn [toUpperCase all_chars]. unfold is_radix_digit at 1 3.
  now rewrite upper_radix_digit, IH.
Qed.

Lemma toUpperCase_length (s : string) :
  String.length (toUpperCase s) = String.length s.
Proof. induction s as [|c s IH]; simpl; [reflexivity | now rewrite IH]. Qed.

Lemma toUpperCase_twice (s : string) :
  toUpperCase (toUpperCase s) = toUpperCase s.
Proof.
  induction s as [|c s IH]; [reflexivity|].
  cbn [toUpperCase]. now rewrite upper_twice, IH.
Qed.

Lemma test_plus_upper (radix : Z) (s : string) :
  test_plus (is_radix_digit radix) (toUpperCase s)
  = test_plus (is_radix_digit radix) s.
Proof.
  unfold test_plus. rewrite all_digits_upper.
  destruct s; reflexivity.
Qed.

(** X10.  The hex field stores what is typed in upper case; for a valid
    hexadecimal text this changes neither its validity nor the bits
    [hexToBinary] gives, so lower-case and upper-case input encode alike. *)
Theorem hex_field_case_insensitive (value : string) :
  test_plus is_hex_digit value = true ->
  test_plus is_hex_digit (onChangeHexInput value) = true
  /\ hexToBinary (onChangeHexInput value) = hexToBinary value
  /\ onChangeHexInput (onChangeHexInput value) = onChangeHexInput value.
Proof.
  intros H. unfold onChangeHexInput.
  assert (test_plus is_hex_digit (toUpperCase value) = true) as H'
    by (unfold is_hex_digit; fold (is_radix_digit 16);
        rewrite (test_plus_upper 16); exact H).
  split; [exact H'|]. split; [|apply toUpperCase_twice].
  unfold hexToBinary.
  rewrite (parseInt_numeral 16 _ (or_intror eq_refl) H').
  rewrite (parseInt_numeral 16 _ (or_intror eq_refl) H).
  unfold numeral_value. rewrite parse_digits_upper, toUpperCase_length.
  reflexivity.
Qed.

Lemma hex_field_case_insensitive_witness :
  test_plus is_hex_digit (onChangeHexInput "b1d") = true
  /\ hexToBinary (onChangeHexInput "b1d") = hexToBinary "b1d"
  /\ onChangeHexInput (onChangeHexInput "b1d") = onChangeHexInput "b1d".
Proof. apply (hex_field_case_insensitive "b1d"). reflexivity. Defined.

End TextFields.

(** ** Binary to hexadecimal *)

Section Conversions.

Import ProblemSolver.

Ltac each_char c :=
  destruct c as [[] [] [] [] [] [] [] []].

Lemma is_bit_radix2 (c : ascii) : is_radix_digit 2 c = is_bit c.
Proof. each_char c; vm_compute; reflexivity. Qed.

Lemma all_bits_radix2 (s : string) :
  all_chars (is_radix_digit 2) s = all_chars is_bit s.
Proof.
  induction s as [|c s IH]; [reflexivity|].
  cbn [all_chars]. now rewrite is_bit_radix2, IH.
Qed.

Lemma test_plus_radix2 (s : string) :
  test_plus (is_radix_digit 2) s = test_plus is_bit s.
Proof. unfold test_plus. now rewrite all_bits_radix2. Qed.

(** The value of a valid numeral and its bounds. *)
Lemma numeral_bounds (radix : Z) (s : string) :
  2 <= radix <= 36 ->
  all_chars (is_radix_digit radix) s = true ->
  0 <= numeral_value radix s < radix ^ Z.of_nat (String.length s).
Proof.
  intros Hr Hs.
  destruct (parse_numeral radix Hr s false 0 Hs ltac:(lia))
    as (_ & V0 & Vq & _).
  fold (numeral_value radix s) in V0, Vq.
  assert (0 < radix ^ Z.of_nat (String.length s))
    by (apply Z.pow_pos_nonneg; lia).
  apply Z.div_small_iff in Vq; lia.
Qed.

Lemma upper_nonzero_digit (d : Z) :
  1 <= d < 16 -> upper_char (digit_char d) <> "0"%char.
Proof.
  intros H.
  assert (d = 1 \/ d = 2 \/ d = 3 \/ d = 4 \/ d = 5 \/ d = 6 \/ d = 7
          \/ d = 8 \/ d = 9 \/ d = 10 \/ d = 11 \/ d = 12 \/ d = 13
          \/ d = 14 \/ d = 15) as K by lia.
  repeat (destruct K as [-> | K]); try subst d; vm_compute; discriminate.
Qed.

(** The shortest hexadecimal numeral of a number, in upper case. *)
Lemma shortest_hex (v : Z) :
  0 <= v ->
  test_plus is_hex_digit (toUpperCase (nat_digits 16 v)) = true
  /\ numeral_value 16 (toUpperCase (nat_digits 16 v)) = v
  /\ no_leading_zero (toUpperCase (nat_digits 16 v)) = true.
Proof.
  intros V0.
  destruct (nat_digits_fixed 16 radix16 v V0) as (m & Hm & -> & Mub & Mlb).
  split; [|split].
  - unfold is_hex_digit. fold (is_radix_digit 16).
    rewrite (test_plus_upper 16). unfold test_plus.
    rewrite (fixed_digits_radix 16 radix16), andb_true_r.
    destruct m; [lia | reflexivity].
  - unfold numeral_value.
    rewrite parse_digits_upper, (parse_fixed 16 radix16). cbn [snd].
    rewrite Z.mod_small by lia. lia.
  - destruct m as [|[|m]]; [lia | reflexivity |].
    cbn [fixed_digits toUpperCase no_leading_zero].
    apply negb_true_iff, Ascii.eqb_neq.
    destruct Mlb as [Mlb | Mlb]; [discriminate|].
    replace (Z.of_nat (S (S m)) - 1) with (Z.of_nat (S m)) in Mlb by lia.
    assert (0 < 16 ^ Z.of_nat (S m)) as P by (apply Z.pow_pos_nonneg; lia).
    assert (1 <= v / 16 ^ Z.of_nat (S m) < 16) as D.
    { split; [apply Z.div_le_lower_bound; lia|].
      apply Z.div_lt_upper_bound; [lia|].
      rewrite (Nat2Z.inj_succ (S m)), Z.pow_succ_r in Mub by lia. lia. }
    rewrite Z.mod_small by lia.
    now apply upper_nonzero_digit.
Qed.

(** X11.  For a non-empty binary string below 2^53, [binaryToHex] writes
    the same number: the result is a valid hexadecimal numeral in upper
    case, without leading zero, with the value of the input; converting it
    back with [hexToBinary] gives that number again, on four bits per hex
    digit. *)
Theorem binaryToHex_value (binary : string) :
  test_plus is_bit binary = true ->
  numeral_value 2 binary < 2 ^ 53 ->
  test_plus is_hex_digit (binaryToHex binary) = true
  /\ numeral_value 16 (binaryToHex binary) = numeral_value 2 binary
  /\ no_leading_zero (binaryToHex binary) = true
  /\ toUpperCase (binaryToHex binary) = binaryToHex binary
  /\ numeral_value 2 (hexToBinary (binaryToHex binary))
     = numeral_value 2 binary
  /\ String.length (hexToBinary (binaryToHex binary))
     = (4 * String.length (binaryToHex binary))%nat.
Proof.
  intros Hb Hv.
  pose proof Hb as Hs. rewrite <- test_plus_radix2 in Hs.
  assert (0 <= numeral_value 2 binary) as V0.
  { apply (numeral_bounds 2 binary radix2).
    unfold test_plus in Hs. now apply andb_true_iff in Hs. }
  assert (binaryToHex binary = toUpperCase (nat_digits 16 (numeral_value 2 binary)))
    as E.
  { unfold binaryToHex. rewrite (parseInt_numeral 2 _ (or_introl eq_refl) Hs).
    rewrite to_double_exact by lia. unfold toString.
    destruct (Z.ltb_spec (numeral_value 2 binary) 0); [lia | reflexivity]. }
  destruct (shortest_hex _ V0) as (S1 & S2 & S3).
  rewrite <- E in S1, S2, S3.
  split; [exact S1|]. split; [exact S2|]. split; [exact S3|].
  split; [rewrite E; apply toUpperCase_twice|].
  destruct (hexToBinary_fixed (binaryToHex binary) S1 ltac:(lia))
    as [-> Hub].
  split; [|apply (fixed_digits_length 2)].
  unfold numeral_value at 1. rewrite (parse_fixed 2 radix2). cbn [snd].
  rewrite Z.mod_small by lia. lia.
Qed.

Lemma binaryToHex_value_witness :
  test_plus is_hex_digit (binaryToHex "0001011") = true
  /\ numeral_value 16 (binaryToHex "0001011") = numeral_value 2 "0001011"
  /\ no_leading_zero (binaryToHex "0001011") = true
  /\ toUpperCase (binaryToHex "0001011") = binaryToHex "0001011"
  /\ numeral_value 2 (hexToBinary (binaryToHex "0001011"))
     = numeral_value 2 "0001011"
  /\ String.length (hexToBinary (binaryToHex "0001011"))
     = (4 * String.length (binaryToHex "0001011"))%nat.
Proof.
  apply (binaryToHex_value "0001011").
  - reflexivity.
  - vm_compute. reflexivity.
Defined.

(** X12.  For a valid hexadecimal text below 2^53, [hexToBinary] gives
    exactly four characters per hex digit, all ['0'] or ['1'], denoting the
    same number. *)
Theorem hexToBinary_value (h : string) :
  test_plus is_hex_digit h = true ->
  numeral_value 16 h < 2 ^ 53 ->
  String.length (hexToBinary h) = (4 * String.length h)%nat
  /\ all_chars is_bit (hexToBinary h) = true
  /\ test_plus is_bit (hexToBinary h) = true
  /\ numeral_value 2 (hexToBinary h) = numeral_value 16 h.
Proof.
  intros Hh Hv. destruct (hexToBinary_fixed h Hh Hv) as [-> Hub].
  split; [apply (fixed_digits_length 2)|].
  split; [apply fixed_digits_bits|]. split.
  - unfold test_plus. rewrite fixed_digits_bits, andb_true_r.
    destruct h; [discriminate | reflexivity].
  - unfold numeral_value at 1. rewrite (parse_fixed 2 radix2). cbn [snd].
    rewrite Z.mod_small by lia. lia.
Qed.

Lemma hexToBinary_value_witness :
  String.length (hexToBinary "0a3") = (4 * String.length "0a3")%nat
  /\ all_chars is_bit (hexToBinary "0a3") = true
  /\ test_plus is_bit (hexToBinary "0a3") = true
  /\ numeral_value 2 (hexToBinary "0a3") = numeral_value 16 "0a3".
Proof.
  apply (hexToBinary_value "0a3").
  - reflexivity.
  - vm_compute. reflexivity.
Defined.

End Conversions.

(** ** Hexadecimal text beyond the range of a double *)

Section Overflow.

Import ProblemSolver.

Lemma round53_large (v : Z) : 2 ^ 1024 <= v -> 2 ^ 1024 <= round53 v.
Proof.
  intros H. unfold round53.
  assert (2 ^ 53 < 2 ^ 1024) by (apply Z.pow_lt_mono_r; lia).
  destruct (Z.ltb_spec v (2 ^ 53)); [lia|].
  assert (1024 <= Z.log2 v) as L.
  { rewrite <- (Z.log2_pow2 1024) by lia. apply Z.log2_le_mono. exact H. }
  set (e := Z.log2 v - 52).
  assert (0 < 2 ^ e) as Pe by (apply Z.pow_pos_nonneg; lia).
  assert (2 ^ Z.log2 v <= v) as Lv by (apply Z.log2_spec; lia).
  assert (2 ^ Z.log2 v = 2 ^ 52 * 2 ^ e) as Es
    by (rewrite <- Z.pow_add_r by lia; f_equal; lia).
  assert (2 ^ 52 <= v / 2 ^ e) as Q
    by (apply Z.div_le_lower_bound; lia).
  assert (2 ^ 1024 <= 2 ^ Z.log2 v) as B
    by (apply Z.pow_le_mono_r; lia).
  assert (2 ^ 52 * 2 ^ e <= v / 2 ^ e * 2 ^ e)
    by (apply Z.mul_le_mono_nonneg_r; lia).
  destruct ((2 ^ (e - 1) <? v mod 2 ^ e)
            || (v mod 2 ^ e =? 2 ^ (e - 1)) && Z.odd (v / 2 ^ e)); nia.
Qed.

(** X13.  A valid hexadecimal text whose value reaches 2^1024 (257 digits
    or more) is read as [Infinity]: [hexToBinary] returns zeros followed by
    the word Infinity, which is not a bit string, although the text passed
    the hexadecimal check of [handleEncode]. *)
Theorem hexToBinary_overflow (h : string) :
  test_plus is_hex_digit h = true ->
  2 ^ 1024 <= numeral_value 16 h ->
  hexToBinary h
  = replicate (4 * String.length h - 8) "0" ++ "Infinity"
  /\ all_chars is_bit (hexToBinary h) = false.
Proof.
  intros Hh Hv.
  assert (hexToBinary h
          = replicate (4 * String.length h - 8) "0" ++ "Infinity") as E.
  { unfold hexToBinary.
    rewrite (parseInt_numeral 16 _ (or_intror eq_refl) Hh).
    unfold to_double. rewrite Z.abs_eq by lia.
    pose proof (round53_large _ Hv) as R.
    destruct (Z.leb_spec (2 ^ 1024) (round53 (numeral_value 16 h)));
      [|lia].
    destruct (Z.ltb_spec (numeral_value 16 h) 0); [lia|].
    cbn [toString]. rewrite padStart_single. f_equal. f_equal.
    cbn [String.length]. lia. }
  split; [exact E|].
  rewrite E, all_chars_append, all_chars_replicate1 by reflexivity.
  reflexivity.
Qed.

Lemma hexToBinary_overflow_witness :
  hexToBinary (String "1" (replicate 256 "0"))
  = replicate (4 * String.length (String "1" (replicate 256 "0")) - 8) "0"
    ++ "Infinity"
  /\ all_chars is_bit (hexToBinary (String "1" (replicate 256 "0"))) = false.
Proof.
  apply (hexToBinary_overflow (String "1" (replicate 256 "0"))).
  - vm_compute. reflexivity.
  - vm_compute. discriminate.
Defined.

End Overflow.

(** ** The calculation steps of the CRC-4 component *)

Section Steps.

Import Reference.

(** The register after the shift, before any XOR. *)
Lemma shifted_register (r : Z) (c : ascii) :
  0 <= r < 2 ^ 30 -> is_bit c = true ->
  or32 (shl32 r 1) (ToInt32 (parseInt (String c "") 0)) = 2 * r + bit_of c.
Proof.
  intros Hr Hc. rewrite parseInt_bit, shl32_by_one by assumption.
  pose proof (shift_or_value r (bit_of c) (bit_of_value c)) as V.
  assert (0 <= bit_of c <= 1) by (destruct (bit_of_value c) as [-> | ->]; lia).
  unfold or32.
  rewrite (wrap32_small (bit_of c)) by lia.
  rewrite (wrap32_small (Z.shiftl r 1)) by (rewrite Z.shiftl_mul_pow2; lia).
  exact V.
Qed.

Lemma top_bit_prefix (t : Z) :
  0 <= t < 32 ->
  truthy (and32 t 0x10) = String.prefix "1" (fixed_digits 2 5 t).
Proof.
  intros Ht. unfold and32.
  rewrite (wrap32_small t), (wrap32_small 0x10) by lia.
  change 0x10 with (2 ^ 4). rewrite land_pow2_truthy by lia.
  cbn [fixed_digits String.prefix]. change (Z.of_nat 4) with 4.
  pose proof (Z.testbit_spec' t 4 ltac:(lia)) as S.
  destruct (Z.testbit t 4); cbn [Z.b2z] in S; rewrite <- S; reflexivity.
Qed.

Lemma encoder_loop_steps (bits rest : string) (i : nat) (r : Z)
    (acc : list CRCEncoder.EncodingStep) :
  all_chars is_bit rest = true -> 0 <= r < 16 ->
  exists new : list CRCEncoder.EncodingStep,
    snd (CRCEncoder.crc_loop bits rest i r acc) = (rev new ++ acc)%list
    /\ List.length new = String.length rest
    /\ forall k s, nth_error new k = Some s -> step_shape bits (i + k) s.
Proof.
  revert i r acc. induction rest as [|c rest IH]; intros i r acc Hb Hr.
  - exists []. split; [reflexivity | split; [reflexivity|]].
    intros [|k] st; discriminate.
  - cbn [all_chars] in Hb. apply andb_true_iff in Hb. destruct Hb as [Hc Hb].
    lazy beta iota zeta delta [CRCEncoder.crc_loop].
    fold CRCEncoder.crc_loop.
    rewrite (shifted_register r c) by (auto; lia).
    set (t := 2 * r + bit_of c).
    assert (0 <= t < 32) as Ht
      by (subst t; destruct (bit_of_value c) as [-> | ->]; lia).
    assert (padStart (toString (Int t) 2) 5 "0" = fixed_digits 2 5 t) as Ereg.
    { unfold toString. destruct (Z.ltb_spec t 0); [lia|].
      apply (padStart_nat_digits 2 radix2 5); [lia | simpl; lia]. }
    rewrite Ereg.
    set (s1 := {| CRCEncoder.step := Z.of_nat i + 1;
                  CRCEncoder.data := substring 0 (i + 1) bits;
                  CRCEncoder.register := fixed_digits 2 5 t;
                  CRCEncoder.operation :=
                    if truthy (and32 t 0x10)
                    then "XOR with polynomial" else "Shift left" |}).
    assert (0 <= (if truthy (and32 t 0x10)
                  then xor32 t CRCEncoder.POLYNOMIAL else t) < 16) as Hr'.
    { pose proof (crc_step_shift_in CRCEncoder.POLYNOMIAL CRCEncoder.CRC_WIDTH
                    crc4_width crc4_polynomial r c Hr Hc) as E.
      unfold ProblemSolver.crc_step in E.
      rewrite (shifted_register r c) in E by (auto; lia). fold t in E.
      change (shl32 1 CRCEncoder.CRC_WIDTH) with 0x10 in E.
      rewrite E.
      apply (shift_in_range CRCEncoder.POLYNOMIAL CRCEncoder.CRC_WIDTH
               (proj1 crc4_width) crc4_polynomial r _ Hr (bit_of_value c)). }
    destruct (IH (S i) _ (s1 :: acc) Hb Hr') as (new & E & L & K).
    exists (s1 :: new). split; [|split].
    + rewrite E. cbn [rev]. now rewrite <- List.app_assoc.
    + cbn [List.length String.length]. now rewrite L.
    + intros [|k] s Hs.
      * cbn [nth_error] in Hs. injection Hs as <-.
        rewrite Nat.add_0_r. unfold step_shape, s1.
        cbn [CRCEncoder.step CRCEncoder.data CRCEncoder.register
             CRCEncoder.operation].
        rewrite top_bit_prefix by exact Ht.
        repeat split; auto using fixed_digits_length, fixed_digits_bits.
      * cbn [nth_error] in Hs. specialize (K k s Hs).
        now replace (i + S k)%nat with (S i + k)%nat by lia.
Qed.

(** X14.  The step table of the CRC-4 encoder.  For binary data there is
    one step per bit of the data followed by four zeros; step [k] is
    numbered [k + 1], shows the first [k + 1] bits, shows the register as
    five binary characters, and is labelled "XOR with polynomial" exactly
    when the register starts with ['1']. *)
Theorem calculation_steps_shape (data : string) :
  all_chars is_bit data = true ->
  List.length (snd (CRCEncoder.calculateCRC data))
  = (String.length data + 4)%nat
  /\ forall k s,
       nth_error (snd (CRCEncoder.calculateCRC data)) k = Some s ->
       step_shape (data ++ "0000") k s.
Proof.
  intros Hb. unfold CRCEncoder.calculateCRC.
  destruct (encoder_loop_steps (data ++ "0000") (data ++ "0000") 0 0 [])
    as (new & E & L & K).
  { rewrite all_chars_append, Hb. reflexivity. }
  { lia. }
  destruct (CRCEncoder.crc_loop (data ++ "0000") (data ++ "0000") 0 0 [])
    as [register steps].
  cbn [snd] in *. subst steps.
  rewrite List.app_nil_r, List.rev_involutive.
  split.
  - rewrite L, length_append. reflexivity.
  - intros k s Hs. apply (K k s Hs).
Qed.

Lemma calculation_steps_shape_witness :
  List.length (snd (CRCEncoder.calculateCRC "1010"))
  = (String.length "1010" + 4)%nat
  /\ forall k s,
       nth_error (snd (CRCEncoder.calculateCRC "1010")) k = Some s ->
       step_shape ("1010" ++ "0000") k s.
Proof. apply (calculation_steps_shape "1010"). reflexivity. Defined.

End Steps.

(** ** The states of the CRC-4 component *)

Section States.

Import Reference.

(** Everything [handleEncode] sets, for a text it accepts. *)
Lemma encode_facts (inputData : string) :
  test_plus is_bit inputData = true ->
  exists (crc : string) (steps : list CRCEncoder.EncodingStep),
    CRCEncoder.handleEncode inputData = Some (crc, inputData ++ crc, steps)
    /\ String.length crc = 4%nat
    /\ CRCEncoder.handleVerify (inputData ++ crc) = Some true
    /\ List.length steps = String.length (inputData ++ crc).
Proof.
  intros Hd. destruct (handleEncode_divide inputData Hd) as (steps & C & E).
  apply test_plus_bits in Hd. destruct Hd as [_ Hb].
  eexists. exists steps. split; [exact E|].
  split; [apply fixed_digits_length|]. split.
  - rewrite handleVerify_divide.
    + pose proof (consume_codeword _ _ crc4_width crc4_polynomial inputData)
        as K. cbv zeta in K.
      change (Z.to_nat CRCEncoder.CRC_WIDTH) with 4%nat in K.
      change (replicate 4 "0") with "0000" in K.
      rewrite K. reflexivity.
    + rewrite all_chars_append, Hb. apply fixed_digits_bits.
    + rewrite length_append, fixed_digits_length. lia.
  - unfold CRCEncoder.calculateCRC in C.
    destruct (encoder_loop_steps (inputData ++ "0000") (inputData ++ "0000")
                0 0 []) as (new & En & L & _).
    { rewrite all_chars_append, Hb. reflexivity. }
    { lia. }
    destruct (CRCEncoder.crc_loop (inputData ++ "0000")
                (inputData ++ "0000") 0 0 []) as [register acc].
    cbn [snd] in En. subst acc.
    injection C as _ <-.
    rewrite List.app_nil_r, List.rev_involutive, L.
    rewrite !length_append, fixed_digits_length. reflexivity.
Qed.

Lemma handleEncode_rejects (inputData : string) :
  test_plus is_bit inputData = false -> CRCEncoder.handleEncode inputData = None.
Proof. intros H. unfold CRCEncoder.handleEncode. now rewrite H. Qed.

Lemma initial_invariant : component_invariant CRCEncoder.initial.
Proof.
  unfold component_invariant. cbn. repeat split. left. auto.
Qed.

Lemma handle_invariant (st : CRCEncoder.State) (e : CRCEncoder.Event) :
  component_invariant st -> component_invariant (CRCEncoder.handle st e).
Proof.
  intros (Hi & Ht & He). destruct e as [value | value | | |].
  - split; [apply keep_chars_all | split; assumption].
  - split; [assumption | split; [apply keep_chars_all | assumption]].
  - cbn [CRCEncoder.handle].
    destruct (test_plus is_bit (CRCEncoder.inputData st)) eqn:Hd.
    + destruct (encode_facts _ Hd) as (crc & steps & -> & L & V & S).
      split; [exact Hi|]. split; [exact Ht|]. right.
      cbn. split; [exact L|]. split; [|split; assumption].
      exists (CRCEncoder.inputData st). auto.
    + rewrite (handleEncode_rejects _ Hd). split; [|split]; assumption.
  - cbn [CRCEncoder.handle].
    destruct (CRCEncoder.handleVerify (CRCEncoder.testData st));
      split; [| split | | split]; assumption.
  - apply initial_invariant.
Qed.

(** X15.  Whatever the user types and clicks, the state of the CRC-4
    component keeps its invariant: both text fields hold bit strings, and
    once something has been encoded, the encoded text is non-empty data
    followed by four check bits, is accepted by [handleVerify], and comes
    with one calculation step per bit. *)
Theorem component_state_invariant (events : list CRCEncoder.Event) :
  component_invariant (CRCEncoder.run events).
Proof.
  unfold CRCEncoder.run.
  assert (forall st, component_invariant st ->
            component_invariant (fold_left CRCEncoder.handle events st)) as K.
  { induction events as [|e events IH]; intros st H; [exact H|].
    cbn [fold_left]. apply IH, handle_invariant, H. }
  apply K, initial_invariant.
Qed.

End States.

(** ** The handlers of the problem solver *)

Section Handlers.

Import Reference ProblemSolver.

Lemma config_of_registry (key : string) (cfg : CRCPolynomial) :
  In (key, cfg) CRC_POLYNOMIALS -> config_of key = Normal cfg.
Proof.
  intros H. destruct (registry_entries key cfg H) as (_ & _ & L & _).
  unfold config_of. now rewrite L.
Qed.

(** X16.  [handleEncode] on an accepted text.  For every registry
    configuration, a non-empty bit string, or a non-empty hexadecimal
    numeral below 2^53 (four bits per digit), is encoded into the data bits
    followed by [width] check bits; the total length is the one the page
    shows, data length plus [width]; and the codeword verifies with an
    all-zero remainder. *)
Theorem handleEncode_codeword
    (key : string) (cfg : CRCPolynomial) (inputFormat : InputFormat)
    (hexInput binaryInput : string) :
  In (key, cfg) CRC_POLYNOMIALS ->
  accepted_exactly inputFormat hexInput binaryInput ->
  let data := accepted_data inputFormat hexInput binaryInput in
  exists crc : string,
    handleEncode key inputFormat hexInput binaryInput
    = Normal (Encoded crc (data ++ crc))
    /\ String.length crc = Z.to_nat (width cfg)
    /\ Z.of_nat (String.length (data ++ crc))
       = Z.of_nat (String.length data) + width cfg
    /\ (inputFormat = hex ->
        String.length data = (4 * String.length hexInput)%nat)
    /\ verifyCRC (data ++ crc) (polynomial cfg) (width cfg)
       = Normal {| isValid := true;
                   remainder := replicate (Z.to_nat (width cfg)) "0" |}.
Proof.
  intros Hin Hacc data.
  destruct (registry_entries key cfg Hin) as (Hw & Hp & _ & _).
  assert (all_chars is_bit data = true
          /\ handleEncode key inputFormat hexInput binaryInput
             = bind (calculateCRC data (polynomial cfg) (width cfg))
                    (fun crc => Normal (Encoded crc (data ++ crc)))
          /\ (inputFormat = hex ->
              String.length data = (4 * String.length hexInput)%nat))
    as (Hb & E & Hl).
  { subst data. unfold handleEncode.
    destruct inputFormat; cbn [accepted_data accepted_exactly] in *.
    - apply test_plus_bits in Hacc as Hacc'. destruct Hacc' as [_ Hb].
      rewrite Hacc. cbn [negb]. rewrite (config_of_registry key cfg Hin).
      split; [exact Hb|]. split; [reflexivity | discriminate].
    - destruct Hacc as [Hh Hv]. rewrite Hh. cbn [negb].
      rewrite (config_of_registry key cfg Hin).
      destruct (hexToBinary_fixed hexInput Hh Hv) as [Ef _].
      split; [rewrite Ef; apply fixed_digits_bits|].
      split; [reflexivity|]. intros _. rewrite Ef.
      apply (fixed_digits_length 2). }
  rewrite E, (calculateCRC_divide _ _ Hw Hp data Hb). cbn [bind].
  eexists. split; [reflexivity|].
  split; [apply fixed_digits_length|]. split.
  - rewrite length_append, fixed_digits_length. lia.
  - split; [exact Hl|].
    rewrite (verifyCRC_divide _ _ Hw Hp)
      by (rewrite all_chars_append, Hb; apply fixed_digits_bits).
    rewrite (consume_codeword _ _ Hw Hp data), fixed_digits_zero.
    reflexivity.
Qed.

Lemma handleEncode_codeword_witness :
  let data := accepted_data hex "B1D" "" in
  exists crc : string,
    handleEncode "CRC-8" hex "B1D" ""
    = Normal (Encoded crc (data ++ crc))
    /\ String.length crc = Z.to_nat 8
    /\ Z.of_nat (String.length (data ++ crc))
       = Z.of_nat (String.length data) + 8
    /\ (hex = hex -> String.length data = (4 * String.length "B1D")%nat)
    /\ verifyCRC (data ++ crc) 0x107 8
       = Normal {| isValid := true; remainder := replicate (Z.to_nat 8) "0" |}.
Proof.
  apply (handleEncode_codeword "CRC-8"
           {| name := "CRC-8"; polynomial := 0x107; width := 8;
              binaryStr := "100000111"; formula := "z⁸ + z² + z + 1" |}
           hex "B1D" "").
  - simpl. right. right. right. left. reflexivity.
  - split; [reflexivity | vm_compute; reflexivity].
Defined.

(** The hexadecimal form of a bit string below 2^53 denotes the same
    number. *)
Lemma binaryToHex_numeral (binary : string) :
  test_plus is_bit binary = true ->
  numeral_value 2 binary < 2 ^ 53 ->
  numeral_value 16 (binaryToHex binary) = numeral_value 2 binary.
Proof.
  intros Hb Hv.
  pose proof Hb as Hs. rewrite <- test_plus_radix2 in Hs.
  assert (0 <= numeral_value 2 binary) as V0.
  { apply (numeral_bounds 2 binary radix2).
    unfold test_plus in Hs. now apply andb_true_iff in Hs. }
  unfold binaryToHex. rewrite (parseInt_numeral 2 _ (or_introl eq_refl) Hs).
  rewrite to_double_exact by lia. unfold toString.
  destruct (Z.ltb_spec (numeral_value 2 binary) 0); [lia|].
  apply (shortest_hex _ V0).
Qed.

(** X17.  The report of [handleInjectError].  For every registry
    configuration, a non-empty binary encoded result and a position text
    with at least one number in it, the handler does not raise: it stores
    the flipped codeword, of unchanged length, and a report that shows the
    [width]-bit remainder of that codeword in binary and, in hexadecimal,
    the same number, and says "Valid" exactly when the remainder is all
    zeros. *)
Theorem handleInjectError_report
    (key : string) (cfg : CRCPolynomial)
    (encodedResult errorPositions : string) :
  In (key, cfg) CRC_POLYNOMIALS ->
  test_plus is_bit encodedResult = true ->
  parse_positions errorPositions <> [] ->
  let corrupted := flipBits encodedResult (parse_positions errorPositions) in
  exists v : Verification,
    verifyCRC corrupted (polynomial cfg) (width cfg) = Normal v
    /\ handleInjectError key encodedResult errorPositions
       = Normal (Injected corrupted
                   ("Remainder: " ++ remainder v ++ " ("
                    ++ binaryToHex (remainder v) ++ "h) - "
                    ++ (if isValid v then "Valid" else "Error detected!")))
    /\ String.length corrupted = String.length encodedResult
    /\ String.length (remainder v) = Z.to_nat (width cfg)
    /\ numeral_value 16 (binaryToHex (remainder v))
       = numeral_value 2 (remainder v)
    /\ (isValid v = true
        <-> remainder v = replicate (Z.to_nat (width cfg)) "0").
Proof.
  intros Hin He Hpos corrupted.
  destruct (registry_entries key cfg Hin) as (Hw & Hp & _ & _).
  apply test_plus_bits in He. destruct He as [Hne Hb].
  assert (all_chars is_bit corrupted = true) as Hc
    by (apply flipBits_bits, Hb).
  rewrite (verifyCRC_divide _ _ Hw Hp corrupted Hc).
  eexists. split; [reflexivity|]. cbn [isValid remainder].
  destruct (pow2_width_bounds _ Hw) as (P0 & P1 & _).
  pose proof (consume_range (polynomial cfg) (width cfg) (proj1 Hw) Hp
                corrupted 0 ltac:(lia)) as Hr.
  split; [|split; [|split; [|split]]].
  - unfold handleInjectError.
    apply String.eqb_neq in Hne. rewrite Hne.
    destruct (parse_positions errorPositions) as [|pos rest] eqn:Epos;
      [contradiction|].
    cbn [List.length Nat.eqb]. rewrite (config_of_registry key cfg Hin).
    cbn [bind]. fold corrupted.
    rewrite (verifyCRC_divide _ _ Hw Hp corrupted Hc). reflexivity.
  - subst corrupted. unfold flipBits.
    rewrite length_of_list_ascii, flips_length. apply length_list_ascii.
  - apply fixed_digits_length.
  - apply binaryToHex_numeral.
    + unfold test_plus. rewrite fixed_digits_bits, andb_true_r.
      destruct (Z.to_nat (width cfg)) eqn:E; [lia | reflexivity].
    + rewrite (numeral_of_remainder _ _ _ Hw Hp).
      assert (2 ^ 30 < 2 ^ 53) by (apply Z.pow_lt_mono_r; lia). lia.
  - rewrite <- (remainder_zero_eqb _ Hw _ Hr). apply String.eqb_eq.
Qed.

Lemma handleInjectError_report_witness :
  let corrupted := flipBits "10101101" (parse_positions "2, 3,x") in
  exists v : Verification,
    verifyCRC corrupted 0x13 4 = Normal v
    /\ handleInjectError "CRC-4" "10101101" "2, 3,x"
       = Normal (Injected corrupted
                   ("Remainder: " ++ remainder v ++ " ("
                    ++ binaryToHex (remainder v) ++ "h) - "
                    ++ (if isValid v then "Valid" else "Error detected!")))
    /\ String.length corrupted = String.length "10101101"
    /\ String.length (remainder v) = Z.to_nat 4
    /\ numeral_value 16 (binaryToHex (remainder v))
       = numeral_value 2 (remainder v)
    /\ (isValid v = true <-> remainder v = replicate (Z.to_nat 4) "0").
Proof.
  apply (handleInjectError_report "CRC-4"
           {| name := "CRC-4"; polynomial := 0x13; width := 4;
              binaryStr := "10011"; formula := "z⁴ + z + 1" |}
           "10101101" "2, 3,x").
  - simpl. left. reflexivity.
  - reflexivity.
  - vm_compute. discriminate.
Defined.

End Handlers.

(** ** Zero bits around a word *)

Section ZeroPadding.

Import Reference ProblemSolver.






(** X19.  Zero bits added around a valid codeword are not detected.  For
    every registry configuration and every binary codeword that verifies,
    the codeword with any number of zeros in front of it and after it
    verifies too. *)
Theorem zero_padding_undetected
    (key : string) (cfg : CRCPolynomial) (codeword : string) (a b : nat) :
  In (key, cfg) CRC_POLYNOMIALS ->
  all_chars is_bit codeword = true ->
  verifyCRC codeword (polynomial cfg) (width cfg)
  = Normal {| isValid := true;
              remainder := replicate (Z.to_nat (width cfg)) "0" |} ->
  verifyCRC (replicate a "0" ++ codeword ++ replicate b "0")
            (polynomial cfg) (width cfg)
  = Normal {| isValid := true;
              remainder := replicate (Z.to_nat (width cfg)) "0" |}.
Proof.
  intros Hin Hb Hv.
  destruct (registry_entries key cfg Hin) as (Hw & Hp & _ & _).
  rewrite (verifyCRC_divide _ _ Hw Hp codeword Hb) in Hv.
  apply Normal_inj in Hv.
  apply (f_equal isValid) in Hv. cbn [isValid] in Hv.
  apply Z.eqb_eq in Hv.
  rewrite (verifyCRC_divide _ _ Hw Hp)
    by (rewrite !all_chars_append, Hb,
          !all_chars_replicate1 by reflexivity; reflexivity).
  rewrite !consume_append, consume_zeros, Hv, consume_zeros.
  rewrite fixed_digits_zero. reflexivity.
Qed.

Lemma zero_padding_undetected_witness :
  verifyCRC (replicate 2 "0" ++ "10101101" ++ replicate 3 "0") 0x13 4
  = Normal {| isValid := true; remainder := replicate (Z.to_nat 4) "0" |}.
Proof.
  apply (zero_padding_undetected "CRC-4"
           {| name := "CRC-4"; polynomial := 0x13; width := 4;
              binaryStr := "10011"; formula := "z⁴ + z + 1" |}
           "10101101" 2 3).
  - simpl. left. reflexivity.
  - reflexivity.
  - vm_compute. reflexivity.
Defined.

End ZeroPadding.

(** ** The position field *)

Section Positions.

Import ProblemSolver.

Ltac each_char c :=
  destruct c as [[] [] [] [] [] [] [] []].

Lemma decimal_not_comma (c : ascii) :
  is_radix_digit 10 c = true -> Ascii.eqb c "," = false.
Proof. each_char c; intros H; try reflexivity; vm_compute in H; discriminate. Qed.

Lemma decimal_is_hex (c : ascii) :
  is_radix_digit 10 c = true -> is_hex_digit c = true.
Proof. each_char c; intros H; try reflexivity; vm_compute in H; discriminate. Qed.

Lemma decimal_all_hex (s : string) :
  all_chars (is_radix_digit 10) s = true -> all_chars is_hex_digit s = true.
Proof.
  induction s as [|c s IH]; [reflexivity|].
  cbn [all_chars]. intros H. apply andb_true_iff in H. destruct H as [Hc H].
  now rewrite (decimal_is_hex c Hc), IH.
Qed.

Lemma split_comma_digits (a rest cur : string) :
  all_chars (is_radix_digit 10) a = true ->
  split_comma (a ++ rest) cur = split_comma rest (cur ++ a).
Proof.
  revert cur. induction a as [|c a IH]; intros cur H.
  - now rewrite append_nil_r.
  - cbn [all_chars] in H. apply andb_true_iff in H. destruct H as [Hc H].
    cbn [append split_comma]. rewrite (decimal_not_comma c Hc), IH by exact H.
    now rewrite append_assoc.
Qed.

Lemma split_join (items : list string) :
  items <> [] ->
  Forall (fun s => all_chars (is_radix_digit 10) s = true) items ->
  split_comma (join_commas items) "" = items.
Proof.
  intros Hne H. induction H as [|x rest Hx Hrest IH]; [contradiction|].
  destruct rest as [|y rest].
  - cbn [join_commas]. rewrite <- (append_nil_r x) at 1.
    rewrite split_comma_digits by exact Hx. reflexivity.
  - change (join_commas (x :: y :: rest))
      with (x ++ String "," (join_commas (y :: rest))).
    rewrite split_comma_digits by exact Hx.
    cbn [split_comma append]. change (Ascii.eqb "," ",") with true.
    cbv iota. rewrite IH by discriminate. reflexivity.
Qed.

Lemma trim_end_digits (s : string) :
  all_chars (is_radix_digit 10) s = true -> trim_end s = s.
Proof.
  induction s as [|c s IH]; [reflexivity|].
  cbn [all_chars trim_end]. intros H. apply andb_true_iff in H.
  destruct H as [Hc H]. rewrite IH by exact H.
  rewrite (digit_not_space c (radix_digit_known 10 c Hc)), andb_false_r.
  reflexivity.
Qed.

(** [parseInt(p.trim())] on a non-empty string of decimal digits. *)
Lemma parse_position_decimal (s : string) :
  test_plus (is_radix_digit 10) s = true ->
  parseInt (trim s) 0 = to_double (numeral_value 10 s).
Proof.
  intros Hs. unfold test_plus in Hs. apply andb_true_iff in Hs.
  destruct Hs as [Hne Hs].
  destruct s as [|c s]; [discriminate|].
  assert (digit_value c <> None) as Hc.
  { cbn [all_chars] in Hs. apply andb_true_iff in Hs.
    apply (radix_digit_known 10), Hs. }
  assert (skip_whitespace (String c s) = String c s) as Esk
    by (cbn [skip_whitespace]; now rewrite digit_not_space).
  unfold trim. rewrite Esk, (trim_end_digits _ Hs).
  destruct (parse_numeral 10 ltac:(lia) (String c s) false 0 Hs ltac:(lia))
    as (F & _).
  unfold parseInt, numeral_value. rewrite Esk, strip_sign_digit by exact Hc.
  change (wrap32 0) with 0. cbv beta iota zeta.
  change (0 =? 0) with true. cbn [negb andb orb].
  rewrite (strip_hex_prefix_digits _ (decimal_all_hex _ Hs)).
  destruct (parse_digits 10 (String c s) false 0) as [seen v].
  cbn [fst snd] in *. subst seen. cbn [orb negb]. now rewrite Z.mul_1_l.
Qed.

(** The decimal numeral of a number below 2^53 is read back as that
    number. *)
Lemma decimal_roundtrip (z : Z) :
  0 <= z < 2 ^ 53 ->
  all_chars (is_radix_digit 10) (toString (Int z) 10) = true
  /\ parseInt (trim (toString (Int z) 10)) 0 = Int z.
Proof.
  intros Hz. unfold toString. destruct (Z.ltb_spec z 0); [lia|].
  destruct (nat_digits_fixed 10 ltac:(lia) z ltac:(lia))
    as (m & Hm & -> & Mub & _).
  pose proof (fixed_digits_radix 10 ltac:(lia) m z) as D.
  split; [exact D|].
  rewrite parse_position_decimal
    by (unfold test_plus; rewrite D, andb_true_r;
        destruct m; [lia | reflexivity]).
  unfold numeral_value. rewrite (parse_fixed 10 ltac:(lia)). cbn [snd].
  rewrite Z.mul_0_l, Z.add_0_l, Z.mod_small by lia.
  now apply to_double_exact.
Qed.

(** X20.  The position field reads back what was written into it: a list
    of non-negative integers below 2^53, written in decimal and separated
    by commas, is parsed by [handleInjectError] as exactly that list; the
    empty text gives no position at all. *)
Theorem parse_positions_roundtrip (positions : list Z) :
  Forall (fun z => 0 <= z < 2 ^ 53) positions ->
  parse_positions
    (join_commas (map (fun z => toString (Int z) 10) positions))
  = map Int positions.
Proof.
  intros H. unfold parse_positions.
  destruct positions as [|z0 rest]; [vm_compute; reflexivity|].
  set (zs := z0 :: rest) in *.
  rewrite split_join.
  - rewrite List.map_map.
    induction H as [|z zs' Hz _ IH]; [reflexivity|].
    cbn [map filter].
    rewrite (proj2 (decimal_roundtrip z Hz)). cbn [isNaN negb].
    now rewrite IH.
  - subst zs. discriminate.
  - apply Forall_map. eapply Forall_impl; [|exact H].
    intros z Hz. apply (decimal_roundtrip z Hz).
Qed.

Lemma parse_positions_roundtrip_witness :
  parse_positions
    (join_commas (map (fun z => toString (Int z) 10) [2; 13; 0; 104]))
  = map Int [2; 13; 0; 104].
Proof.
  apply (parse_positions_roundtrip [2; 13; 0; 104]).
  repeat constructor; try lia; reflexivity.
Defined.

End Positions.

(** ** Hexadecimal text, digit by digit *)

Section DigitByDigit.

Import ProblemSolver.

Variable radix : Z.
Hypothesis radix_range : 2 <= radix <= 36.

Lemma parse_digits_acc (s : string) (seen seen' : bool) (acc : Z) :
  all_chars (is_radix_digit radix) s = true ->
  snd (parse_digits radix s seen acc)
  = acc * radix ^ Z.of_nat (String.length s)
    + snd (parse_digits radix s seen' 0).
Proof.
  revert seen seen' acc. induction s as [|c s IH]; intros seen seen' acc Hs.
  - simpl. lia.
  - cbn [all_chars] in Hs. apply andb_true_iff in Hs. destruct Hs as [Hc Hs].
    destruct (is_radix_digit_value radix c Hc) as (d & E & _ & _).
    cbn [parse_digits String.length]. rewrite E.
    rewrite (IH true true (acc * radix + d) Hs), (IH true true (0 * radix + d) Hs).
    rewrite Nat2Z.inj_succ, Z.pow_succ_r by lia. ring.
Qed.

Lemma parse_digits_append (a b : string) (seen : bool) (acc : Z) :
  all_chars (is_radix_digit radix) a = true ->
  snd (parse_digits radix (a ++ b) seen acc)
  = snd (parse_digits radix b true (snd (parse_digits radix a seen acc)))
    \/ a = "".
Proof.
  revert seen acc. induction a as [|c a IH]; intros seen acc Ha;
    [right; reflexivity | left].
  cbn [all_chars] in Ha. apply andb_true_iff in Ha. destruct Ha as [Hc Ha].
  destruct (is_radix_digit_value radix c Hc) as (d & E & _ & _).
  cbn [append parse_digits]. rewrite E.
  destruct (IH true (acc * radix + d) Ha) as [-> | ->]; reflexivity.
Qed.

(** The value of two numerals written one after the other. *)
Lemma numeral_value_append (a b : string) :
  all_chars (is_radix_digit radix) a = true ->
  all_chars (is_radix_digit radix) b = true ->
  numeral_value radix (a ++ b)
  = numeral_value radix a * radix ^ Z.of_nat (String.length b)
    + numeral_value radix b.
Proof.
  intros Ha Hb. unfold numeral_value.
  destruct (parse_digits_append a b false 0 Ha) as [-> | ->].
  - apply parse_digits_acc, Hb.
  - cbn [append parse_digits snd String.length]. lia.
Qed.

Lemma fixed_digits_split (n1 n2 : nat) (z : Z) :
  fixed_digits radix (n1 + n2) z
  = fixed_digits radix n1 (z / radix ^ Z.of_nat n2)
    ++ fixed_digits radix n2 z.
Proof.
  induction n1 as [|n1 IH]; [reflexivity|].
  cbn [Nat.add fixed_digits append]. rewrite IH. f_equal. f_equal. f_equal.
  rewrite Nat2Z.inj_add, Z.pow_add_r by lia.
  rewrite Z.div_div by (try apply Z.pow_pos_nonneg; try apply Z.pow_nonzero; lia).
  f_equal. apply Z.mul_comm.
Qed.

Lemma fixed_digits_low (n : nat) (q v : Z) :
  fixed_digits radix n (q * radix ^ Z.of_nat n + v) = fixed_digits radix n v.
Proof.
  revert q. induction n as [|n IH]; intros q; [reflexivity|].
  cbn [fixed_digits]. f_equal.
  - f_equal.
    rewrite Nat2Z.inj_succ, Z.pow_succ_r by lia.
    replace (q * (radix * radix ^ Z.of_nat n) + v)
      with (q * radix * radix ^ Z.of_nat n + v) by ring.
    rewrite Z.div_add_l by (apply Z.pow_nonzero; lia).
    rewrite Z.add_comm, Z.mod_add by lia. reflexivity.
  - rewrite Nat2Z.inj_succ, Z.pow_succ_r by lia.
    replace (q * (radix * radix ^ Z.of_nat n) + v)
      with (q * radix * radix ^ Z.of_nat n + v) by ring.
    apply IH.
Qed.

End DigitByDigit.

Section HexAppend.

Import ProblemSolver.

(** X21.  [hexToBinary] works digit by digit: for two valid hexadecimal
    texts whose concatenation is below 2^53, the bits of the concatenation
    are the bits of the first followed by the bits of the second. *)
Theorem hexToBinary_append (h1 h2 : string) :
  test_plus is_hex_digit h1 = true ->
  test_plus is_hex_digit h2 = true ->
  numeral_value 16 (h1 ++ h2) < 2 ^ 53 ->
  hexToBinary (h1 ++ h2) = hexToBinary h1 ++ hexToBinary h2.
Proof.
  intros H1 H2 Hv.
  pose proof H1 as A1. pose proof H2 as A2.
  unfold test_plus in A1, A2.
  apply andb_true_iff in A1. apply andb_true_iff in A2.
  destruct A1 as [N1 A1]. destruct A2 as [N2 A2].
  pose proof (numeral_bounds 16 h1 radix16 A1) as B1.
  pose proof (numeral_bounds 16 h2 radix16 A2) as B2.
  pose proof (numeral_value_append 16 h1 h2 A1 A2) as E.
  set (v1 := numeral_value 16 h1) in *.
  set (v2 := numeral_value 16 h2) in *.
  set (n1 := String.length h1) in *.
  set (n2 := String.length h2) in *.
  assert (0 < 16 ^ Z.of_nat n2) as P2 by (apply Z.pow_pos_nonneg; lia).
  assert (v1 <= v1 * 16 ^ Z.of_nat n2) by nia.
  assert (test_plus is_hex_digit (h1 ++ h2) = true) as H12.
  { unfold test_plus. rewrite all_chars_append, A1, A2.
    destruct h1; [discriminate | reflexivity]. }
  destruct (hexToBinary_fixed (h1 ++ h2) H12 Hv) as [-> _].
  destruct (hexToBinary_fixed h1 H1 ltac:(fold v1; lia)) as [-> _].
  destruct (hexToBinary_fixed h2 H2 ltac:(fold v2; lia)) as [-> _].
  fold v1 v2 n1 n2. rewrite E, length_append. fold n1 n2.
  replace (4 * (n1 + n2))%nat with (4 * n1 + 4 * n2)%nat by lia.
  assert (16 ^ Z.of_nat n2 = 2 ^ Z.of_nat (4 * n2)) as Ep.
  { rewrite Nat2Z.inj_mul, Z.pow_mul_r by lia. reflexivity. }
  rewrite (fixed_digits_split 2 radix2), Ep.
  rewrite (fixed_digits_low 2 radix2).
  rewrite Z.div_add_l by lia.
  rewrite (Z.div_small v2) by lia. now rewrite Z.add_0_r.
Qed.

Lemma hexToBinary_append_witness :
  hexToBinary ("b" ++ "1D") = hexToBinary "b" ++ hexToBinary "1D".
Proof.
  apply (hexToBinary_append "b" "1D").
  - reflexivity.
  - reflexivity.
  - vm_compute. reflexivity.
Defined.

End HexAppend.

(** ** The two components on CRC-4 *)

Section Agreement.

Import ProblemSolver.

(** X22.  The two components agree on CRC-4.  For every text, the CRC-4
    component and the problem solver with CRC-4 selected in binary mode
    either both reject it, or both produce the same check bits and the same
    codeword. *)
Theorem components_agree_on_crc4 (text hexInput : string) :
  (CRCEncoder.handleEncode text = None
   /\ handleEncode "CRC-4" binary hexInput text
      = Normal (EncodeRejected "Invalid binary input"))
  \/ (exists (crc : string) (steps : list CRCEncoder.EncodingStep),
        CRCEncoder.handleEncode text = Some (crc, text ++ crc, steps)
        /\ handleEncode "CRC-4" binary hexInput text
           = Normal (Encoded crc (text ++ crc))).
Proof.
  unfold CRCEncoder.handleEncode, handleEncode.
  destruct (test_plus is_bit text); cbn [negb]; [right | left; auto].
  change (config_of "CRC-4")
    with (Normal {| name := "CRC-4"; polynomial := CRCEncoder.POLYNOMIAL;
                    width := CRCEncoder.CRC_WIDTH;
                    binaryStr := "10011"; formula := "z⁴ + z + 1" |}).
  cbn [bind polynomial width].
  rewrite <- (encoder_calculateCRC text).
  destruct (CRCEncoder.calculateCRC text) as [crc steps].
  cbn [fst bind]. exists crc, steps. auto.
Qed.

End Agreement.
